(** * Zowe CLI: the daemon session protocol and the imperative event emitter

    A shallow embedding of
    - [packages/cli/src/DaemonClient.ts] (module [Daemon]),
    - [packages/imperative/src/events/src/ImperativeEventEmitter.ts]
      (module [Emitter]) and
    - [packages/imperative/src/events/src/EventUtils.ts] (module [Utils]),
    together with the pieces of the Node.js platform they rest on
    (module [Platform]): buffers and their UTF-8 decoding, strings as
    sequences of UTF-16 code units, numbers with [NaN], POSIX [path.join]. *)

From Stdlib Require Import ZArith NArith List Bool Lia String Ascii.
From Stdlib Require Import Strings.Byte.
From stdpp Require Import base option list strings gmap.

Set Default Proof Using "Type".
Set Warnings "-register-all".

(* ===================================================================== *)
(** * Platform values                                                     *)
(* ===================================================================== *)

Module Platform.

(** A [Buffer] is a sequence of bytes; a JavaScript string is a sequence of
    UTF-16 code units.  Indices into the two differ as soon as a buffer
    holds a multi-byte UTF-8 sequence. *)
Abbreviation Buffer := (list byte).
Abbreviation jsstring := (list N).

(** String literals of the source, as code units (ASCII only). *)
Definition js (s : string) : jsstring := map N_of_ascii (list_ascii_of_string s).

(** [Buffer.from(s)] for an ASCII literal. *)
Definition ascii_bytes (s : string) : Buffer := list_byte_of_string s.

Definition byteLength (data : Buffer) : Z := Z.of_nat (length data).

(** A byte that is a whole character in UTF-8. *)
Definition is_ascii (b : byte) : Prop := (Byte.to_N b < 0x80)%N.

(** JavaScript numbers, as far as the session needs them: integers, and
    [NaN] for arithmetic on [undefined]. *)
Inductive number :=
| Num (z : Z)
| NaN.

Definition number_sub (a : number) (n : Z) : number :=
  match a with
  | Num z => Num (z - n)
  | NaN => NaN
  end.

(** [a > 0] and [a <= 0]; both are false on [NaN]. *)
Definition gt_zero (a : number) : bool :=
  match a with
  | Num z => (0 <? z)%Z
  | NaN => false
  end.

Definition le_zero (a : number) : bool :=
  match a with
  | Num z => (z <=? 0)%Z
  | NaN => false
  end.

(** ** [Buffer.prototype.toString()]: UTF-8 decoding

    The decoder of the WHATWG Encoding standard: a lead byte announces how
    many continuation bytes follow and which range the next one must lie
    in; an ill-formed sequence yields U+FFFD and the offending byte is
    processed again as a lead byte. *)
Record utf8_state := {
  cp : N;
  needed : nat;
  lower : N;
  upper : N
}.

Definition utf8_init : utf8_state :=
  {| cp := 0; needed := 0; lower := 0x80; upper := 0xBF |}.

Definition utf8_lead (b : N) : utf8_state * list N :=
  if (b <=? 0x7F)%N then (utf8_init, [b])
  else if ((0xC2 <=? b) && (b <=? 0xDF))%N then
    ({| cp := N.land b 0x1F; needed := 1; lower := 0x80; upper := 0xBF |}, [])
  else if ((0xE0 <=? b) && (b <=? 0xEF))%N then
    ({| cp := N.land b 0xF; needed := 2;
        lower := if (b =? 0xE0)%N then 0xA0 else 0x80;
        upper := if (b =? 0xED)%N then 0x9F else 0xBF |}, [])
  else if ((0xF0 <=? b) && (b <=? 0xF4))%N then
    ({| cp := N.land b 0x7; needed := 3;
        lower := if (b =? 0xF0)%N then 0x90 else 0x80;
        upper := if (b =? 0xF4)%N then 0x8F else 0xBF |}, [])
  else (utf8_init, [0xFFFD%N]).

Definition utf8_step (st : utf8_state) (b : N) : utf8_state * list N :=
  match needed st with
  | O => utf8_lead b
  | S n =>
    if ((lower st <=? b) && (b <=? upper st))%N then
      let c := N.lor (N.shiftl (cp st) 6) (N.land b 0x3F) in
      match n with
      | O => (utf8_init, [c])
      | S _ => ({| cp := c; needed := n; lower := 0x80; upper := 0xBF |}, [])
      end
    else
      let '(st', out) := utf8_lead b in (st', 0xFFFD%N :: out)
  end.

(** The code points of a byte sequence. *)
Fixpoint utf8_decode (st : utf8_state) (bs : Buffer) : list N :=
  match bs with
  | [] => match needed st with O => [] | S _ => [0xFFFD%N] end
  | b :: bs' =>
    let '(st', out) := utf8_step st (Byte.to_N b) in
    out ++ utf8_decode st' bs'
  end.

(** One code unit below U+10000, a surrogate pair from there on. *)
Definition utf16_units (c : N) : list N :=
  if (c <? 0x10000)%N then [c]
  else
    let c' := (c - 0x10000)%N in
    [(0xD800 + N.shiftr c' 10)%N; (0xDC00 + N.land c' 0x3FF)%N].

Definition toString (data : Buffer) : jsstring :=
  concat (map utf16_units (utf8_decode utf8_init data)).

(** ** [String.prototype.indexOf]: the first position where [pat] starts,
    [None] standing for [-1]. *)
Fixpoint starts_with (pat s : jsstring) : bool :=
  match pat, s with
  | [], _ => true
  | _ :: _, [] => false
  | p :: pat', c :: s' => (p =? c)%N && starts_with pat' s'
  end.

Fixpoint indexOf (s pat : jsstring) : option nat :=
  if starts_with pat s then Some O
  else
    match s with
    | [] => None
    | _ :: s' => S <$> indexOf s' pat
    end.

(** [Array.prototype.join(sep)] on an array of strings. *)
Fixpoint array_join (sep : jsstring) (a : list jsstring) : jsstring :=
  match a with
  | [] => []
  | [x] => x
  | x :: rest => x ++ sep ++ array_join sep rest
  end.


(** ** [JSON.parse]

    A recursive-descent parser of the JSON grammar over code units.
    Numbers are integers; a number with a fraction or an exponent is not
    covered and the parser gives up on it. *)
Inductive json :=
| JNull
| JBool (b : bool)
| JNumber (z : Z)
| JString (s : jsstring)
| JArray (items : list json)
| JObject (members : list (jsstring * json)).

Definition is_ws (c : N) : bool :=
  ((c =? 0x20) || (c =? 0x09) || (c =? 0x0A) || (c =? 0x0D))%N.

Fixpoint skip_ws (s : jsstring) : jsstring :=
  match s with
  | c :: s' => if is_ws c then skip_ws s' else s
  | [] => []
  end.

(** [s] without its prefix [pat]. *)
Fixpoint strip_prefix (pat s : jsstring) : option jsstring :=
  match pat, s with
  | [], _ => Some s
  | _ :: _, [] => None
  | p :: pat', c :: s' => if (p =? c)%N then strip_prefix pat' s' else None
  end.

Definition hex_digit (c : N) : option N :=
  if ((0x30 <=? c) && (c <=? 0x39))%N then Some (c - 0x30)%N
  else if ((0x41 <=? c) && (c <=? 0x46))%N then Some (c - 0x41 + 10)%N
  else if ((0x61 <=? c) && (c <=? 0x66))%N then Some (c - 0x61 + 10)%N
  else None.

(** The character an escape letter stands for: quote, backslash, slash,
    b, f, n, r, t. *)
Definition simple_escape (e : N) : option N :=
  if (e =? 0x22)%N then Some 0x22%N
  else if (e =? 0x5C)%N then Some 0x5C%N
  else if (e =? 0x2F)%N then Some 0x2F%N
  else if (e =? 0x62)%N then Some 0x08%N
  else if (e =? 0x66)%N then Some 0x0C%N
  else if (e =? 0x6E)%N then Some 0x0A%N
  else if (e =? 0x72)%N then Some 0x0D%N
  else if (e =? 0x74)%N then Some 0x09%N
  else None.

(** A string, from just after its opening quote: its characters and what
    follows the closing quote.  A raw control character is an error. *)
Fixpoint parse_string (s : jsstring) : option (jsstring * jsstring) :=
  match s with
  | [] => None
  | c :: s' =>
    if (c =? 0x22)%N then Some ([], s')
    else if (c =? 0x5C)%N then
      match s' with
      | [] => None
      | e :: s'' =>
        if (e =? 0x75)%N then
          match s'' with
          | h1 :: h2 :: h3 :: h4 :: s''' =>
            match hex_digit h1, hex_digit h2, hex_digit h3, hex_digit h4 with
            | Some d1, Some d2, Some d3, Some d4 =>
              match parse_string s''' with
              | Some (str, rest) =>
                Some ((d1 * 4096 + d2 * 256 + d3 * 16 + d4)%N :: str, rest)
              | None => None
              end
            | _, _, _, _ => None
            end
          | _ => None
          end
        else
          match simple_escape e, parse_string s'' with
          | Some x, Some (str, rest) => Some (x :: str, rest)
          | _, _ => None
          end
      end
    else if (c <? 0x20)%N then None
    else
      match parse_string s' with
      | Some (str, rest) => Some (c :: str, rest)
      | None => None
      end
  end.

Definition is_digit (c : N) : bool := ((0x30 <=? c) && (c <=? 0x39))%N.

Fixpoint parse_digits (acc : Z) (s : jsstring) : Z * jsstring :=
  match s with
  | c :: s' =>
    if is_digit c then parse_digits (acc * 10 + Z.of_N (c - 0x30)) s' else (acc, s)
  | [] => (acc, [])
  end.

(** What may not follow the integer part in this model. *)
Definition starts_fraction (s : jsstring) : bool :=
  match s with
  | c :: _ => ((c =? 0x2E) || (c =? 0x65) || (c =? 0x45))%N
  | [] => false
  end.

Definition parse_unsigned (s : jsstring) : option (Z * jsstring) :=
  match s with
  | c :: s' =>
    if (c =? 0x30)%N then
      if starts_fraction s' then None else Some (0%Z, s')
    else if is_digit c then
      let '(z, rest) := parse_digits 0 s in
      if starts_fraction rest then None else Some (z, rest)
    else None
  | [] => None
  end.

Definition parse_number (s : jsstring) : option (Z * jsstring) :=
  match s with
  | c :: s' =>
    if (c =? 0x2D)%N then
      match parse_unsigned s' with
      | Some (z, rest) => Some ((- z)%Z, rest)
      | None => None
      end
    else parse_unsigned s
  | [] => None
  end.

(** A value, the items of an array after its bracket, the members of an
    object after its brace; each with the text left over.  The fuel goes
    down with every nesting and every item. *)
Fixpoint parse_value (fuel : nat) (s : jsstring) : option (json * jsstring) :=
  match fuel with
  | O => None
  | S fuel' =>
    let s := skip_ws s in
    match strip_prefix (js "null") s with
    | Some rest => Some (JNull, rest)
    | None =>
    match strip_prefix (js "true") s with
    | Some rest => Some (JBool true, rest)
    | None =>
    match strip_prefix (js "false") s with
    | Some rest => Some (JBool false, rest)
    | None =>
    match s with
    | [] => None
    | c :: s' =>
      if (c =? 0x22)%N then
        match parse_string s' with
        | Some (str, rest) => Some (JString str, rest)
        | None => None
        end
      else if (c =? 0x5B)%N then
        match strip_prefix [0x5D%N] (skip_ws s') with
        | Some rest => Some (JArray [], rest)
        | None =>
          match parse_items fuel' s' with
          | Some (items, rest) => Some (JArray items, rest)
          | None => None
          end
        end
      else if (c =? 0x7B)%N then
        match strip_prefix [0x7D%N] (skip_ws s') with
        | Some rest => Some (JObject [], rest)
        | None =>
          match parse_members fuel' s' with
          | Some (members, rest) => Some (JObject members, rest)
          | None => None
          end
        end
      else
        match parse_number s with
        | Some (z, rest) => Some (JNumber z, rest)
        | None => None
        end
    end end end end
  end
with parse_items (fuel : nat) (s : jsstring) : option (list json * jsstring) :=
  match fuel with
  | O => None
  | S fuel' =>
    match parse_value fuel' s with
    | Some (v, rest) =>
      match skip_ws rest with
      | c :: rest' =>
        if (c =? 0x5D)%N then Some ([v], rest')
        else if (c =? 0x2C)%N then
          match parse_items fuel' rest' with
          | Some (vs, rest'') => Some (v :: vs, rest'')
          | None => None
          end
        else None
      | [] => None
      end
    | None => None
    end
  end
with parse_members (fuel : nat) (s : jsstring)
  : option (list (jsstring * json) * jsstring) :=
  match fuel with
  | O => None
  | S fuel' =>
    match skip_ws s with
    | q :: s' =>
      if (q =? 0x22)%N then
        match parse_string s' with
        | Some (key, rest) =>
          match skip_ws rest with
          | colon :: rest' =>
            if (colon =? 0x3A)%N then
              match parse_value fuel' rest' with
              | Some (v, rest'') =>
                match skip_ws rest'' with
                | c :: rest''' =>
                  if (c =? 0x7D)%N then Some ([(key, v)], rest''')
                  else if (c =? 0x2C)%N then
                    match parse_members fuel' rest''' with
                    | Some (ms, rest4) => Some ((key, v) :: ms, rest4)
                    | None => None
                    end
                  else None
                | [] => None
                end
              | None => None
              end
            else None
          | [] => None
          end
        | None => None
        end
      else None
    | [] => None
    end
  end.

(** The whole text is one value; [None] is a [SyntaxError]. *)
Definition parse_json (text : jsstring) : option json :=
  match parse_value (2 * length text + 2) text with
  | Some (v, rest) =>
    match skip_ws rest with
    | [] => Some v
    | _ :: _ => None
    end
  | None => None
  end.

(** A property of a parsed object; a later member with the same key wins. *)
Fixpoint member (key : jsstring) (members : list (jsstring * json)) : option json :=
  match members with
  | [] => None
  | (k, v) :: rest =>
    match member key rest with
    | Some v' => Some v'
    | None => if bool_decide (k = key) then Some v else None
    end
  end.

(** ** [Buffer.from(s, 'base64')]

    Node's decoder: characters outside the alphabet are skipped, the
    padding character ends the input, an incomplete last group gives the
    bytes it determines.  It does not throw on a string. *)
Definition base64_value (c : N) : option N :=
  if ((0x41 <=? c) && (c <=? 0x5A))%N then Some (c - 0x41)%N
  else if ((0x61 <=? c) && (c <=? 0x7A))%N then Some (c - 0x61 + 26)%N
  else if ((0x30 <=? c) && (c <=? 0x39))%N then Some (c - 0x30 + 52)%N
  else if ((c =? 0x2B) || (c =? 0x2D))%N then Some 62%N
  else if ((c =? 0x2F) || (c =? 0x5F))%N then Some 63%N
  else None.

Fixpoint base64_sextets (s : jsstring) : list N :=
  match s with
  | [] => []
  | c :: s' =>
    if (c =? 0x3D)%N then []
    else
      match base64_value c with
      | Some v => v :: base64_sextets s'
      | None => base64_sextets s'
      end
  end.

Definition octet (n : N) : byte :=
  match Byte.of_N (N.land n 0xFF) with
  | Some b => b
  | None => Byte.x00
  end.

Fixpoint base64_octets (sextets : list N) : Buffer :=
  match sextets with
  | a :: b :: c :: d :: rest =>
    octet (N.lor (N.shiftl a 2) (N.shiftr b 4))
    :: octet (N.lor (N.shiftl b 4) (N.shiftr c 2))
    :: octet (N.lor (N.shiftl c 6) d)
    :: base64_octets rest
  | [a; b; c] =>
    [octet (N.lor (N.shiftl a 2) (N.shiftr b 4));
     octet (N.lor (N.shiftl b 4) (N.shiftr c 2))]
  | [a; b] => [octet (N.lor (N.shiftl a 2) (N.shiftr b 4))]
  | _ => []
  end.

Definition Buffer_from_base64 (s : jsstring) : Buffer :=
  base64_octets (base64_sextets s).

(** Source text with the apostrophe standing for the double quote, as
    bytes. *)
Definition unquote (c : ascii) : ascii :=
  if Ascii.eqb c "'"%char then "034"%char else c.

Definition wire (s : string) : Buffer :=
  list_byte_of_string (string_of_list_ascii (map unquote (list_ascii_of_string s))).


(** ** [path.join] and [path.normalize] (POSIX)

    A path is cut at its separators; the segments are pushed on a stack,
    an empty segment or [.] changing nothing and [..] popping the last
    segment unless there is none to pop (then it is kept if the path is
    relative and dropped if it is absolute). *)
Module Path.

Abbreviation chars := (list ascii).

Definition slash : ascii := "/"%char.
Definition dot : chars := ["."%char].
Definition dotdot : chars := ["."%char; "."%char].

Fixpoint split (s : chars) : list chars :=
  match s with
  | [] => [[]]
  | c :: s' =>
    if Ascii.eqb c slash then [] :: split s'
    else
      match split s' with
      | seg :: segs => (c :: seg) :: segs
      | [] => [[c]]
      end
  end.

Fixpoint unsplit (segs : list chars) : chars :=
  match segs with
  | [] => []
  | [seg] => seg
  | seg :: rest => seg ++ slash :: unsplit rest
  end.

Definition step (allowAboveRoot : bool) (stack : list chars) (seg : chars) : list chars :=
  if bool_decide (seg = []) || bool_decide (seg = dot) then stack
  else if bool_decide (seg = dotdot) then
    match stack with
    | top :: below =>
      if bool_decide (top = dotdot)
      then (if allowAboveRoot then dotdot :: stack else stack)
      else below
    | [] => if allowAboveRoot then [dotdot] else []
    end
  else seg :: stack.

(** The segments that remain, first one first. *)
Definition resolve (allowAboveRoot : bool) (segs : list chars) : list chars :=
  rev (fold_left (step allowAboveRoot) segs []).

Definition isAbsolute (path : chars) : bool :=
  match path with
  | c :: _ => Ascii.eqb c slash
  | [] => false
  end.

Definition trailingSeparator (path : chars) : bool :=
  match last path with
  | Some c => Ascii.eqb c slash
  | None => false
  end.

(** The path made of the segments that remain. *)
Definition assemble (absolute trailing : bool) (segs : list chars) : chars :=
  match unsplit segs with
  | [] =>
    if absolute then [slash]
    else if trailing then dot ++ [slash] else dot
  | p =>
    (if absolute then [slash] else []) ++ p ++ (if trailing then [slash] else [])
  end.

Definition normalize_chars (path : chars) : chars :=
  match path with
  | [] => dot
  | _ :: _ =>
    assemble (isAbsolute path) (trailingSeparator path)
      (resolve (negb (isAbsolute path)) (split path))
  end.

(** The arguments of [join] that count: the non-empty ones. *)
Definition parts (args : list chars) : list chars :=
  filter (fun arg => arg <> []) args.

Definition join_chars (args : list chars) : chars :=
  match parts args with
  | [] => dot
  | joined => normalize_chars (unsplit joined)
  end.

Definition normalize (path : string) : string :=
  string_of_list_ascii (normalize_chars (list_ascii_of_string path)).

Definition join (args : list string) : string :=
  string_of_list_ascii (join_chars (map list_ascii_of_string args)).

(** A segment has no separator in it; a segment that is kept on the stack
    is neither empty nor [.]. *)
Definition slash_free (seg : chars) : Prop := slash ∉ seg.

Definition kept (seg : chars) : Prop := seg <> [] /\ seg <> dot.

(** Whether the first argument that counts is absolute, and whether the
    last one ends with a separator. *)
Definition first_absolute (args : list chars) : bool :=
  match head (parts args) with
  | Some h => isAbsolute h
  | None => false
  end.

Definition last_trailing (args : list chars) : bool :=
  match last (parts args) with
  | Some l => trailingSeparator l
  | None => false
  end.

(** The directory a normalized path lies in. *)
Definition dirname (path : string) : string :=
  match rev (split (list_ascii_of_string path)) with
  | _ :: [] => if isAbsolute (list_ascii_of_string path) then "/" else "."
  | _ :: [[]] => "/"
  | _ :: parents => string_of_list_ascii (unsplit (rev parents))
  | [] => "."
  end.

End Path.

(** ** The file system, as the event emitters use it *)

(** The JSON of an event.  [ImperativeEvent] and its JSON are declared
    outside the files at hand; of the fields, the source reads [time] back,
    names the file after the type and adds [loc]. *)
Record EventJson := {
  time : string;
  type : string;
  loc : string
}.

(** A file holds nothing (it has just been created), the JSON text of an
    event, or something else, on which [JSON.parse] throws. *)
Inductive FileContents :=
| EmptyFile
| JsonText (j : EventJson)
| OtherText.

Inductive SystemError :=
| ENOENT (path : string)
| EEXIST (path : string)
| EISDIR (path : string).

Record FileSystem := {
  dirs : gset string;
  files : gmap string FileContents
}.

Definition existsSync (fs : FileSystem) (path : string) : bool :=
  bool_decide (path ∈ dirs fs) || bool_decide (is_Some (files fs !! path)).

(** [fs.mkdirSync(path)], not recursive: the parent has to be there. *)
Definition mkdirSync (fs : FileSystem) (path : string) : SystemError + FileSystem :=
  if existsSync fs path then inl (EEXIST path)
  else if bool_decide (Path.dirname path ∈ dirs fs)
  then inr {| dirs := {[path]} ∪ dirs fs; files := files fs |}
  else inl (ENOENT path).

(** [fs.writeFileSync(path, contents)]; [fs.closeSync(fs.openSync(path,
    'w'))] is the same with no contents. *)
Definition writeFileSync (fs : FileSystem) (path : string) (contents : FileContents)
  : SystemError + FileSystem :=
  if bool_decide (path ∈ dirs fs) then inl (EISDIR path)
  else if bool_decide (Path.dirname path ∈ dirs fs)
  then inr {| dirs := dirs fs; files := <[path := contents]> (files fs) |}
  else inl (ENOENT path).

Definition readFileSync (fs : FileSystem) (path : string) : SystemError + FileContents :=
  match files fs !! path with
  | Some contents => inr contents
  | None => if bool_decide (path ∈ dirs fs) then inl (EISDIR path) else inl (ENOENT path)
  end.

End Platform.

(* ===================================================================== *)
(** * The daemon session: [DaemonClient.ts]                               *)
(* ===================================================================== *)

Module Daemon.
Import Platform.

(** The character sent when Ctrl+C is pressed to terminate a process. *)
Definition CTRL_C_CHAR : jsstring := [3%N].

(** Modelled from the spec: the interface [IDaemonResponse], declared
    outside the files at hand.  The request has the fields [data] reads,
    with the types of the wire format: [argv] an array of strings, [user] a
    base64 string, [stdin] a string, [stdinLength] an integer; [None] is a
    field that is absent (or [null]). *)
Record IDaemonResponse := {
  argv : option (list jsstring);
  user : option jsstring;
  stdin : option jsstring;
  stdinLength : option Z
}.

(** The options object handed to [DaemonRequest.create]. *)
Record IDaemonRequest := {
  stderr : jsstring;
  exitCode : Z
}.

(** What is written to the socket.  [DaemonRequest.create] is declared
    outside the files at hand and is kept symbolic. *)
Inductive Payload :=
| Text (s : jsstring)
| DaemonRequest_create (options : IDaemonRequest).

Inductive Exception :=
| SyntaxError
| TypeError.

(** The observable actions of a session, in the order they happen.  Calls
    to the logger, and the bookkeeping that makes [process.stdin] reusable,
    are not recorded. *)
Inductive Effect :=
| ClientWrite (p : Payload)              (* this.mClient.write(p) *)
| ClientEnd                              (* this.mClient.end() *)
| ServerClose                            (* this.mServer.close() *)
| StdinPush (chunk : Buffer)             (* process.stdin.push(chunk) *)
| StdinEnd                               (* process.stdin.push(null) *)
| SetCommandLine (s : jsstring)          (* Imperative.commandLine = s *)
| Parse (args : list jsstring) (daemonResponse : IDaemonResponse)
                                         (* Imperative.parse(args, {...}) *)
| Rejected (e : Exception).              (* the promise of [data] rejects *)

(** One [DaemonClient]: the constructor's [mServer] (only its truthiness is
    used) and [mOwner], the counter [pendingStdinLength], and the inner
    ['data'] listeners that [writeToStdin] has registered on the socket and
    not yet removed, each remembered by the request whose dispatch resumes
    once its promise resolves. *)
Record DaemonClient := {
  mServer : bool;
  mOwner : jsstring;
  pendingStdinLength : number;
  listeners : list IDaemonResponse
}.

Definition new_DaemonClient (server : bool) (owner : jsstring) : DaemonClient :=
  {| mServer := server; mOwner := owner;
     pendingStdinLength := Num 0; listeners := [] |}.

Definition set_pendingStdinLength (this : DaemonClient) (n : number) : DaemonClient :=
  {| mServer := mServer this; mOwner := mOwner this;
     pendingStdinLength := n; listeners := listeners this |}.

Definition set_listeners (this : DaemonClient) (ls : list IDaemonResponse) : DaemonClient :=
  {| mServer := mServer this; mOwner := mOwner this;
     pendingStdinLength := pendingStdinLength this; listeners := ls |}.

(** The result of running one handler of the ['data'] event: the client
    after the synchronous part, the effects of that part, the effects that
    follow an [await] (they run once every handler of this event has
    returned), and the listener the handler has registered, if any. *)
Record Handled := {
  client : DaemonClient;
  now : list Effect;
  later : list Effect;
  registered : option IDaemonResponse
}.

Definition RBRACE : jsstring := [125%N].

Definition no_user_message : jsstring :=
  js "The daemon client did not supply user information or supplied bad information." ++ [10%N].

Definition wrong_user_message (requestUser : jsstring) : jsstring :=
  js "The user '" ++ requestUser ++ js "' cannot use this daemon." ++ [10%N].

(** [shutdown()] *)
Definition shutdown : list Effect :=
  [ClientWrite (Text (js "Terminating server")); ClientEnd; ServerClose].

(** The tail of [data]: [jsonData.argv.join(" ")] throws on a request
    without [argv]. *)
Definition dispatch (jsonData : IDaemonResponse) : list Effect :=
  match argv jsonData with
  | Some a => [SetCommandLine (array_join (js " ") a); Parse a jsonData]
  | None => [Rejected TypeError]
  end.

(** [writeToStdin(data, expectedLength)] up to its [await]: the client, the
    effects, and whether the promise is still pending (a listener has been
    registered).  Without the [await], [push(null)] follows at once. *)
Definition writeToStdin (this : DaemonClient) (data : Buffer) (expectedLength : number)
  : DaemonClient * list Effect * bool :=
  let this' := set_pendingStdinLength this (number_sub expectedLength (byteLength data)) in
  if gt_zero (pendingStdinLength this')
  then (this', [StdinPush data], true)
  else (this', [StdinPush data; StdinEnd], false).

(** The inner [listener(data)]: the client, the effects, and whether it has
    removed itself and resolved the promise. *)
Definition listener (outer : DaemonClient) (data : Buffer)
  : DaemonClient * list Effect * bool :=
  let outer' := set_pendingStdinLength outer
                  (number_sub (pendingStdinLength outer) (byteLength data)) in
  (outer', [StdinPush data], le_zero (pendingStdinLength outer')).

Section Session.

(** [DaemonRequest.EOW_DELIMITER]; [JSON.parse], seen through the declared
    type of its result ([None] when it throws, or when what it returns has
    no properties to read); and [Buffer.from(s, 'base64').toString()]
    ([None] when it throws, the case of the [catch] in [data]). *)
Variable EOW_DELIMITER : jsstring.
Variable JSON_parse : jsstring -> option IDaemonResponse.
Variable base64_toString : jsstring -> option jsstring.

(** The first lines of [data]: where the JSON body ends, the text given to
    [JSON.parse], and the binary data after the delimiter.  [jsonEndIdx] is
    an index into the string, and is used as such to cut the string and, in
    [stdinData], to cut the buffer. *)
Definition jsonEndIdx (data : Buffer) : option nat :=
  indexOf (toString data) (RBRACE ++ EOW_DELIMITER).

Definition jsonText (data : Buffer) : jsstring :=
  match jsonEndIdx data with
  | Some i => take (i + 1) (toString data)
  | None => toString data
  end.

Definition stdinData (data : Buffer) : option Buffer :=
  match jsonEndIdx data with
  | Some i => Some (drop (i + 2) data)
  | None => None
  end.

(** [requestUser]: [None] is [undefined]. *)
Definition requestUser (jsonData : IDaemonResponse) : option jsstring :=
  match user jsonData with
  | Some u => base64_toString u
  | None => None
  end.

Definition reject (this : DaemonClient) (message : jsstring) : Handled :=
  {| client := this;
     now := [ClientWrite (DaemonRequest_create {| stderr := message; exitCode := 1 |});
             ClientEnd];
     later := []; registered := None |}.

(** The text [data] parses, parsed. *)
Definition decoded (data : Buffer) : option IDaemonResponse :=
  JSON_parse (jsonText data).

(** The identities [data] turns away: the [user] field is absent, it cannot
    be decoded (the [catch] branch), it decodes to the empty string, or it
    decodes to somebody else than the owner. *)
Inductive rejected_identity (owner : jsstring) (jsonData : IDaemonResponse) : Prop :=
| identity_absent :
    user jsonData = None -> rejected_identity owner jsonData
| identity_undecodable (u : jsstring) :
    user jsonData = Some u -> base64_toString u = None ->
    rejected_identity owner jsonData
| identity_empty (u : jsstring) :
    user jsonData = Some u -> base64_toString u = Some [] ->
    rejected_identity owner jsonData
| identity_mismatch (u r : jsstring) :
    user jsonData = Some u -> base64_toString u = Some r -> r <> owner ->
    rejected_identity owner jsonData.

(** The identity that passes both checks. *)
Definition authenticated (owner : jsstring) (jsonData : IDaemonResponse) : Prop :=
  requestUser jsonData = Some owner /\ owner <> [].

Definition quiet (this : DaemonClient) : Handled :=
  {| client := this; now := []; later := []; registered := None |}.

(** [data(data)], the handler of the socket's ['data'] event. *)
Definition data (this : DaemonClient) (data : Buffer) : Handled :=
  if gt_zero (pendingStdinLength this) then quiet this
  else
    match JSON_parse (jsonText data) with
    | None =>
      {| client := this; now := [Rejected SyntaxError]; later := []; registered := None |}
    | Some jsonData =>
      match requestUser jsonData with
      | None => reject this no_user_message
      | Some [] => reject this no_user_message
      | Some requestUser =>
        if negb (bool_decide (requestUser = mOwner this))
        then reject this (wrong_user_message requestUser)
        else
          match stdin jsonData with
          | Some s =>
            if negb (bool_decide (s = CTRL_C_CHAR)) then quiet this
            else if mServer this
            then {| client := this; now := shutdown; later := []; registered := None |}
            else quiet this
          | None =>
            match stdinData data with
            | Some stdinData =>
              let expectedLength :=
                match stdinLength jsonData with Some z => Num z | None => NaN end in
              let '(this', pushed, pending) := writeToStdin this stdinData expectedLength in
              if pending
              then {| client := this'; now := pushed; later := [];
                      registered := Some jsonData |}
              else {| client := this'; now := pushed; later := dispatch jsonData;
                      registered := None |}
            | None =>
              {| client := this; now := dispatch jsonData; later := []; registered := None |}
            end
          end
      end
    end.

(** The listeners of one emit that [writeToStdin] had registered before it:
    each pushes the chunk and counts it; one that resolves is dropped from
    the list and its request is dispatched after [push(null)]. *)
Fixpoint run_listeners (this : DaemonClient) (snapshot : list IDaemonResponse)
    (data : Buffer) : DaemonClient * list IDaemonResponse * list Effect * list Effect :=
  match snapshot with
  | [] => (this, [], [], [])
  | jsonData :: rest =>
    let '(this', pushed, resolved) := listener this data in
    let '(this'', kept, now', later') := run_listeners this' rest data in
    if resolved
    then (this'', kept, pushed ++ now', (StdinEnd :: dispatch jsonData) ++ later')
    else (this'', jsonData :: kept, pushed ++ now', later')
  end.

(** [mClient.emit('data', chunk)]: [this.data], which the method [run()]
    of the class binds first, then the listeners present when the emit
    began. *)
Definition emit_data (this : DaemonClient) (chunk : Buffer) : DaemonClient * list Effect :=
  let h := data this chunk in
  let '(this', kept, now', later') := run_listeners (client h) (listeners this) chunk in
  (set_listeners this' (kept ++ option_list (registered h)),
   now h ++ now' ++ later h ++ later').

(** A connection: the reads of the socket, in arrival order, each emitted
    as a ['data'] event. *)
Fixpoint run (this : DaemonClient) (reads : list Buffer) : DaemonClient * list Effect :=
  match reads with
  | [] => (this, [])
  | chunk :: rest =>
    let '(this', effects) := emit_data this chunk in
    let '(this'', effects') := run this' rest in
    (this'', effects ++ effects')
  end.

End Session.

(** ** What a trace of effects amounts to *)

(** The bytes pushed to [process.stdin]. *)
Fixpoint pushed_bytes (effects : list Effect) : Buffer :=
  match effects with
  | [] => []
  | StdinPush chunk :: rest => chunk ++ pushed_bytes rest
  | _ :: rest => pushed_bytes rest
  end.

(** The calls of [Imperative.parse]. *)
Fixpoint dispatched (effects : list Effect) : list (list jsstring) :=
  match effects with
  | [] => []
  | Parse a _ :: rest => a :: dispatched rest
  | _ :: rest => dispatched rest
  end.

Definition is_ServerClose (e : Effect) : bool :=
  match e with ServerClose => true | _ => false end.

(** [net.Server]: [close()] stops the server from accepting connections. *)
Definition listening_after (listening : bool) (effects : list Effect) : bool :=
  listening && negb (existsb is_ServerClose effects).

(** A session that is not in the middle of relaying stdin: the next chunk
    is decoded as a request. *)
Definition idle (this : DaemonClient) : Prop :=
  gt_zero (pendingStdinLength this) = false /\ listeners this = [].

(** The session while it waits for [r] more bytes on behalf of [jsonData]. *)
Definition relaying (this : DaemonClient) (jsonData : IDaemonResponse) (r : Z) : Prop :=
  listeners this = [jsonData] /\ pendingStdinLength this = Num r /\ (0 < r)%Z.

(** The session with its counter and its listeners replaced. *)
Definition after_relay (this : DaemonClient) (left : Z) (ls : list IDaemonResponse)
  : DaemonClient :=
  {| mServer := mServer this; mOwner := mOwner this;
     pendingStdinLength := Num left; listeners := ls |}.


(** ** The platform a daemon runs on *)
Module Node.

(** Modelled from the spec: the reserved end-of-word delimiter,
    [DaemonRequest.EOW_DELIMITER], declared outside the files at hand.  It
    is taken to be the form feed, one code unit and one byte, which is what
    the offset [jsonEndIdx + 2] of [data] counts on. *)
Definition EOW_DELIMITER : jsstring := [0x0C%N].

Definition as_string (v : json) : option jsstring :=
  match v with
  | JString s => Some s
  | _ => None
  end.

(** [JSON.parse] into [IDaemonResponse].  A request is an object whose
    recognised fields, where present, have the declared types; on other
    texts the result is [None]. *)
Definition as_request (v : json) : option IDaemonResponse :=
  match v with
  | JObject members =>
    match
      match member (js "argv") members with
      | None | Some JNull => Some None
      | Some (JArray items) =>
        match mapM as_string items with Some a => Some (Some a) | None => None end
      | Some _ => None
      end,
      match member (js "user") members with
      | None | Some JNull => Some None
      | Some (JString s) => Some (Some s)
      | Some _ => None
      end,
      match member (js "stdin") members with
      | None | Some JNull => Some None
      | Some (JString s) => Some (Some s)
      | Some _ => None
      end,
      match member (js "stdinLength") members with
      | None => Some None
      | Some (JNumber z) => Some (Some z)
      | Some _ => None
      end
    with
    | Some a, Some u, Some i, Some l =>
      Some {| argv := a; user := u; stdin := i; stdinLength := l |}
    | _, _, _, _ => None
    end
  | _ => None
  end.

Definition JSON_parse (text : jsstring) : option IDaemonResponse :=
  match parse_json text with
  | Some v => as_request v
  | None => None
  end.

Definition base64_toString (s : jsstring) : option jsstring :=
  Some (toString (Buffer_from_base64 s)).

Definition emit_data := emit_data EOW_DELIMITER JSON_parse base64_toString.
Definition run := run EOW_DELIMITER JSON_parse base64_toString.

End Node.

End Daemon.

(* ===================================================================== *)
(** * The imperative event emitter: [ImperativeEventEmitter.ts]           *)
(* ===================================================================== *)

Module Emitter.
Import Platform.

(** A registered callback, by name.  Calling one does not touch the
    emitter; the calls are what a watch notification returns. *)
Abbreviation Callback := nat.

(** What is thrown: an [ImperativeError] with its message and, where the
    source passes one, the error that caused it; an error of the file
    system as it is; the [SyntaxError] of [JSON.parse]. *)
Inductive Exception :=
| ImperativeError (msg : string) (causeErrors : option SystemError)
| SystemException (e : SystemError)
| SyntaxError.

(** The failures of the environment: an error of the file system, bare or
    as the cause of an [ImperativeError]. *)
Definition wraps_system_error (e : Exception) : Prop :=
  match e with
  | ImperativeError _ (Some _) => True
  | SystemException _ => True
  | _ => False
  end.

(** A watcher made by [fs.watch(filename, listener)]; the listener of
    [setupWatcher] is a closure over [eventType] and [callbacks]. *)
Record FSWatcher := {
  filename : string;
  eventType : string;
  callbacks : list Callback;
  closed : bool
}.

(** The singleton with its static [initialized], and what it acts on: the
    file system and the watchers of this process (a watcher is known by
    its position).  The instance, made on first use with two empty maps,
    is taken to be there from the start. *)
Record World := {
  initialized : bool;
  subscriptions : gmap string (nat * list Callback);
  eventTimes : gmap string string;
  appName : option string;
  fs : FileSystem;
  watchers : list FSWatcher
}.

Definition set_initialized (w : World) (b : bool) : World :=
  {| initialized := b; subscriptions := subscriptions w; eventTimes := eventTimes w;
     appName := appName w; fs := fs w; watchers := watchers w |}.

Definition set_subscriptions (w : World) (s : gmap string (nat * list Callback)) : World :=
  {| initialized := initialized w; subscriptions := s; eventTimes := eventTimes w;
     appName := appName w; fs := fs w; watchers := watchers w |}.

Definition set_eventTimes (w : World) (t : gmap string string) : World :=
  {| initialized := initialized w; subscriptions := subscriptions w; eventTimes := t;
     appName := appName w; fs := fs w; watchers := watchers w |}.

Definition set_appName (w : World) (a : option string) : World :=
  {| initialized := initialized w; subscriptions := subscriptions w;
     eventTimes := eventTimes w; appName := a; fs := fs w; watchers := watchers w |}.

Definition set_fs (w : World) (f : FileSystem) : World :=
  {| initialized := initialized w; subscriptions := subscriptions w;
     eventTimes := eventTimes w; appName := appName w; fs := f; watchers := watchers w |}.

Definition set_watchers (w : World) (ws : list FSWatcher) : World :=
  {| initialized := initialized w; subscriptions := subscriptions w;
     eventTimes := eventTimes w; appName := appName w; fs := fs w; watchers := ws |}.

(** ** Methods run on the world and return or throw *)
Inductive Result (A : Type) :=
| Returned (a : A)
| Thrown (e : Exception).
Arguments Returned {A} a.
Arguments Thrown {A} e.

Definition M (A : Type) : Type := World -> World * Result A.

Definition ret {A : Type} (a : A) : M A := fun w => (w, Returned a).

Definition throw {A : Type} (e : Exception) : M A := fun w => (w, Thrown e).

Definition bind {A B : Type} (m : M A) (k : A -> M B) : M B :=
  fun w =>
    match m w with
    | (w', Returned a) => k a w'
    | (w', Thrown e) => (w', Thrown e)
    end.

Notation "x <- m ;; k" := (bind m (fun x => k))
  (at level 100, m at next level, right associativity).
Notation "m ;; k" := (bind m (fun _ => k))
  (at level 100, right associativity).

Definition get : M World := fun w => (w, Returned w).
Definition modify (f : World -> World) : M unit := fun w => (f w, Returned tt).

(** [fs.watch(filename, listener)]: the file has to exist. *)
Definition fs_watch (filename eventType : string) (callbacks : list Callback) : M nat :=
  fun w =>
    if existsSync (fs w) filename
    then (set_watchers w (watchers w ++
            [{| filename := filename; eventType := eventType;
                callbacks := callbacks; closed := false |}]),
          Returned (length (watchers w)))
    else (w, Thrown (SystemException (ENOENT filename))).

Definition close_watcher (id : nat) (w : World) : World :=
  set_watchers w
    (alter (fun x => {| filename := filename x; eventType := eventType x;
                        callbacks := callbacks x; closed := true |}) id (watchers w)).

(** [FSWatcher.prototype.close], called on [this].  It closes the handle of
    a watcher; on an object that is no watcher there is no handle and
    nothing is closed. *)
Inductive Receiver :=
| WatcherObject (id : nat)
| OtherObject.

Definition FSWatcher_close (this : Receiver) (w : World) : World :=
  match this with
  | WatcherObject id => close_watcher id w
  | OtherObject => w
  end.

(** [IImperativeRegisteredAction]: an object with a [close] function.
    [action.close()] calls that function on the action itself. *)
Record IImperativeRegisteredAction := {
  close : Receiver -> World -> World
}.

Definition dispose (action : IImperativeRegisteredAction) (w : World) : World :=
  close action OtherObject w.

(** The time of the contents: the empty string for an empty file, else
    [JSON.parse(eventContents).time]; [None] when [JSON.parse] throws. *)
Definition contents_time (eventContents : FileContents) : option string :=
  match eventContents with
  | EmptyFile => Some EmptyString
  | JsonText j => Some (time j)
  | OtherText => None
  end.

Section Emitter.

(** [ImperativeConfig.instance.cliHome], [os.homedir()], and the values of
    the enums [ImperativeUserEvents] and [ImperativeSharedEvents], which
    are declared outside the files at hand. *)
Variable cliHome : string.
Variable homedir : string.
Variable ImperativeUserEvents : list string.
Variable ImperativeSharedEvents : list string.

Definition already_initialized : Exception :=
  ImperativeError "Only one instance of the Imperative Event Emitter is allowed" None.

Definition not_initialized : Exception :=
  ImperativeError "You must initialize the instance before using any of its methods." None.

(** [initialize(appName, options)]; the logger is not modelled, and
    [ConfigUtils.initImpUtils] is taken to return. *)
Definition initialize (name : option string) : M unit :=
  w <- get ;;
  if initialized w then throw already_initialized
  else
    modify (fun w => set_initialized w true) ;;
    modify (fun w => set_appName w name).

Definition ensureClassInitialized : M unit :=
  w <- get ;;
  if negb (initialized w) then throw not_initialized else ret tt.

Definition ensureEventsDirExists (directoryPath : string) : M unit :=
  w <- get ;;
  if negb (existsSync (fs w) directoryPath) then
    match mkdirSync (fs w) directoryPath with
    | inr fs' => modify (fun w => set_fs w fs')
    | inl err =>
      throw (ImperativeError
               ("Unable to create '.events' directory. Path: " ++ directoryPath)
               (Some err))
    end
  else ret tt.

Definition ensureEventFileExists (filePath : string) : M unit :=
  w <- get ;;
  if negb (existsSync (fs w) filePath) then
    match writeFileSync (fs w) filePath EmptyFile with
    | inr fs' => modify (fun w => set_fs w fs')
    | inl err =>
      throw (ImperativeError ("Unable to create event file. Path: " ++ filePath) (Some err))
    end
  else ret tt.

Definition isUserEvent (eventType : string) : bool :=
  bool_decide (eventType ∈ ImperativeUserEvents).

Definition isSharedEvent (eventType : string) : bool :=
  bool_decide (eventType ∈ ImperativeSharedEvents).

Definition isCustomEvent (eventType : string) : bool :=
  negb (isUserEvent eventType) && negb (isSharedEvent eventType).

Definition getSharedEventDir : string := Path.join [cliHome; ".events"].

Definition getUserEventDir : string := Path.join [homedir; ".zowe"; ".events"].

Definition getEventDir (eventType : string) : string :=
  if isUserEvent eventType then getUserEventDir
  else if isSharedEvent eventType then getSharedEventDir
  else getSharedEventDir.

(** [initEvent(eventType)]: the event as [toJson()] gives it, with the time
    of its making read off the clock ([now]).  [ImperativeEvent] is
    declared outside the files at hand; of its JSON only [time] is read
    back, by the listener of [setupWatcher]. *)
Definition initEvent (eventType : string) (now : string) : M EventJson :=
  ensureClassInitialized ;;
  ret {| time := now; type := eventType; loc := EmptyString |}.

(** [writeEvent(location, event)] *)
Definition writeEvent (location : string) (event : EventJson) : M unit :=
  let eventPath := Path.join [location; type event] in
  let eventJson := {| time := time event; type := type event; loc := location |} in
  ensureEventsDirExists location ;;
  w <- get ;;
  match writeFileSync (fs w) eventPath (JsonText eventJson) with
  | inr fs' => modify (fun w => set_fs w fs')
  | inl err => throw (SystemException err)
  end.

(** The listener that [setupWatcher] hands to [fs.watch]: it returns the
    callbacks it has called, in the order of the calls. *)
Definition listener (eventType : string) (callbacks : list Callback) : M (list Callback) :=
  w <- get ;;
  match readFileSync (fs w) (Path.join [getEventDir eventType; eventType]) with
  | inl err => throw (SystemException err)
  | inr eventContents =>
    match contents_time eventContents with
    | None => throw SyntaxError
    | Some eventTime =>
      if negb (bool_decide (eventTimes w !! eventType = Some eventTime)) then
        modify (fun w => set_eventTimes w (<[eventType := eventTime]> (eventTimes w))) ;;
        ret callbacks
      else ret []
    end
  end.

(** [setupWatcher(eventType, callbacks)] *)
Definition setupWatcher (eventType : string) (callbacks : list Callback) : M nat :=
  let dir := getEventDir eventType in
  ensureEventsDirExists dir ;;
  ensureEventFileExists (Path.join [dir; eventType]) ;;
  watcher <- fs_watch (Path.join [dir; eventType]) eventType callbacks ;;
  modify (fun w => set_subscriptions w (<[eventType := (watcher, callbacks)]> (subscriptions w))) ;;
  ret watcher.

(** [emitEvent(eventType)] *)
Definition emitEvent (eventType : string) (now : string) : M unit :=
  theEvent <- initEvent eventType now ;;
  if isCustomEvent eventType then
    throw (ImperativeError
             ("Unable to determine the type of event. Event: " ++ eventType) None)
  else writeEvent (getEventDir eventType) theEvent.

(** [emitCustomEvent(eventType)] *)
Definition emitCustomEvent (eventType : string) (now : string) : M unit :=
  theEvent <- initEvent eventType now ;;
  if negb (isCustomEvent eventType) then
    throw (ImperativeError
             ("Operation not allowed. Event is considered protected. Event: " ++ eventType)
             None)
  else writeEvent getSharedEventDir theEvent.

(** [subscribe(eventType, callback)]: the action returned is
    [{ close: watcher.close }], the function being the one every watcher
    inherits. *)
Definition subscribe (eventType : string) (callback : Callback)
  : M IImperativeRegisteredAction :=
  ensureClassInitialized ;;
  w <- get ;;
  watcher <-
    match subscriptions w !! eventType with
    | Some (watcherToClose, callbacks) =>
      modify (close_watcher watcherToClose) ;;
      setupWatcher eventType (callbacks ++ [callback])
    | None => setupWatcher eventType [callback]
    end ;;
  ret {| close := FSWatcher_close |}.

(** [unsubscribe(eventType)] *)
Definition unsubscribe (eventType : string) : M unit :=
  ensureClassInitialized ;;
  w <- get ;;
  match subscriptions w !! eventType with
  | Some (watcherToClose, _) =>
    modify (close_watcher watcherToClose) ;;
    modify (fun w => set_subscriptions w (delete eventType (subscriptions w)))
  | None => ret tt
  end ;;
  w <- get ;;
  if bool_decide (is_Some (eventTimes w !! eventType))
  then modify (fun w => set_eventTimes w (delete eventType (eventTimes w)))
  else ret tt.

(** A native notification for the watcher [id]: its listener runs, unless
    the watcher has been closed. *)
Definition fire (id : nat) : M (list Callback) :=
  w <- get ;;
  match watchers w !! id with
  | Some watcher =>
    if closed watcher then ret [] else listener (eventType watcher) (callbacks watcher)
  | None => ret []
  end.

(** [n] native notifications in a row for the watcher [id], nothing else
    happening in between: all the calls made, in order. *)
Fixpoint notifications (id : nat) (n : nat) : M (list Callback) :=
  match n with
  | O => ret []
  | S n' =>
    first <- fire id ;;
    others <- notifications id n' ;;
    ret (first ++ others)
  end.

End Emitter.

(** Another process overwrites a file. *)
Definition written_elsewhere (path : string) (contents : FileContents) (w : World) : World :=
  set_fs w {| dirs := dirs (fs w); files := <[path := contents]> (files (fs w)) |}.

(** The world of a process that has not touched the emitter. *)
Definition fresh (f : FileSystem) : World :=
  {| initialized := false; subscriptions := ∅; eventTimes := ∅; appName := None;
     fs := f; watchers := [] |}.


(** ** Invariants and uses of the emitter *)

(** The open watchers are the ones the map records: an open watcher is the
    entry of its event, with its callbacks. *)
Definition watched (w : World) : Prop :=
  forall (id : nat) (x : FSWatcher),
    watchers w !! id = Some x -> closed x = false ->
    subscriptions w !! eventType x = Some (id, callbacks x).

(** Two worlds that differ at most in the file system. *)
Definition same_emitter (w w' : World) : Prop :=
  initialized w' = initialized w /\ subscriptions w' = subscriptions w /\
  eventTimes w' = eventTimes w /\ appName w' = appName w /\ watchers w' = watchers w.

(** A file system that has kept every directory and every file of another,
    with their contents. *)
Definition keeps_files (f f' : FileSystem) : Prop :=
  dirs f ⊆ dirs f' /\
  forall (p : string) (c : FileContents), files f !! p = Some c -> files f' !! p = Some c.

Section Uses.

Variable cliHome : string.
Variable homedir : string.
Variable ImperativeUserEvents : list string.
Variable ImperativeSharedEvents : list string.

(** The file of an event, and the watcher [setupWatcher] makes for it. *)
Definition eventFile (eventType : string) : string :=
  Path.join [getEventDir cliHome homedir ImperativeUserEvents ImperativeSharedEvents eventType;
             eventType].

Definition new_watcher (eventType : string) (callbacks : list Callback) : FSWatcher :=
  {| filename := eventFile eventType; eventType := eventType;
     callbacks := callbacks; closed := false |}.

(** What a process does with the emitter: it calls a method, a native
    notification comes in for one of its watchers, it calls the [close] of
    an action that [subscribe] has returned, on some receiver, or another
    process writes a file. *)
Inductive Use :=
| Initialize (name : option string)
| Subscribe (eventType : string) (callback : Callback)
| Unsubscribe (eventType : string)
| EmitEvent (eventType : string) (now : string)
| EmitCustomEvent (eventType : string) (now : string)
| Notification (id : nat)
| Close (this : Receiver)
| WrittenElsewhere (path : string) (contents : FileContents).

(** The world after one use, whether the method returns or throws. *)
Definition use (w : World) (u : Use) : World :=
  match u with
  | Initialize name => fst (initialize name w)
  | Subscribe eventType callback =>
    fst (subscribe cliHome homedir ImperativeUserEvents ImperativeSharedEvents
           eventType callback w)
  | Unsubscribe eventType => fst (unsubscribe eventType w)
  | EmitEvent eventType now =>
    fst (emitEvent cliHome homedir ImperativeUserEvents ImperativeSharedEvents
           eventType now w)
  | EmitCustomEvent eventType now =>
    fst (emitCustomEvent cliHome ImperativeUserEvents ImperativeSharedEvents
           eventType now w)
  | Notification id =>
    fst (fire cliHome homedir ImperativeUserEvents ImperativeSharedEvents id w)
  | Close this => FSWatcher_close this w
  | WrittenElsewhere path contents => written_elsewhere path contents w
  end.

(** The world after a sequence of uses. *)
Definition uses (w : World) (us : list Use) : World := fold_left use us w.

End Uses.
End Emitter.

(* ===================================================================== *)
(** * The event helpers: [EventUtils.ts]                                  *)
(* ===================================================================== *)

Module Utils.
Import Platform.

(** Modelled from the spec: the enum [EventTypes], declared outside the
    files at hand, with a member for each scope of an event.  The two
    custom members are those [getEventDir] names; the other two stand for
    the user and the shared scope. *)
Inductive EventTypes :=
| UserEvents
| SharedEvents
| CustomSharedEvents
| CustomUserEvents.

Abbreviation EventCallback := nat.

(** [EventCallback[] | EventCallback] *)
Inductive Callbacks :=
| Many (cbs : list EventCallback)
| One (cb : EventCallback).

Inductive Exception :=
| ImperativeError (msg : string) (causeErrors : option SystemError)
| SystemException (e : SystemError)
| TypeError.

(** An [Event] object, with the fields its constructor is given. *)
Record Event := {
  eventTime : string;
  eventName : string;
  eventType : EventTypes;
  appName : string;
  filePath : string;
  subscriptions : list nat
}.

(** A watcher made by [fs.watch(filename, listener)]; the listener of
    [setupWatcher] is a closure over the [Event] object it found in the
    map (known by its place among the objects), the event name and the
    callbacks. *)
Record FSWatcher := {
  filename : string;
  event : nat;
  name : string;
  callbacks : Callbacks;
  closed : bool
}.

(** The [EventEmitter] given as [eeInst], as far as [EventUtils] uses it
    ([appName], [subscribedEvents], [eventTimes]), the [Event] objects made
    so far, the file system and the watchers of this process. *)
Record World := {
  eeInst_appName : string;
  subscribedEvents : gmap string nat;
  eventTimes : gmap string string;
  events : list Event;
  fs : FileSystem;
  watchers : list FSWatcher
}.

Definition set_subscribedEvents (w : World) (s : gmap string nat) : World :=
  {| eeInst_appName := eeInst_appName w; subscribedEvents := s;
     eventTimes := eventTimes w; events := events w; fs := fs w;
     watchers := watchers w |}.

Definition set_eventTimes (w : World) (t : gmap string string) : World :=
  {| eeInst_appName := eeInst_appName w; subscribedEvents := subscribedEvents w;
     eventTimes := t; events := events w; fs := fs w; watchers := watchers w |}.

Definition set_events (w : World) (es : list Event) : World :=
  {| eeInst_appName := eeInst_appName w; subscribedEvents := subscribedEvents w;
     eventTimes := eventTimes w; events := es; fs := fs w; watchers := watchers w |}.

Definition set_fs (w : World) (f : FileSystem) : World :=
  {| eeInst_appName := eeInst_appName w; subscribedEvents := subscribedEvents w;
     eventTimes := eventTimes w; events := events w; fs := f; watchers := watchers w |}.

Definition set_watchers (w : World) (ws : list FSWatcher) : World :=
  {| eeInst_appName := eeInst_appName w; subscribedEvents := subscribedEvents w;
     eventTimes := eventTimes w; events := events w; fs := fs w; watchers := ws |}.

Inductive Result (A : Type) :=
| Returned (a : A)
| Thrown (e : Exception).
Arguments Returned {A} a.
Arguments Thrown {A} e.

Definition M (A : Type) : Type := World -> World * Result A.

Definition ret {A : Type} (a : A) : M A := fun w => (w, Returned a).

Definition throw {A : Type} (e : Exception) : M A := fun w => (w, Thrown e).

Definition bind {A B : Type} (m : M A) (k : A -> M B) : M B :=
  fun w =>
    match m w with
    | (w', Returned a) => k a w'
    | (w', Thrown e) => (w', Thrown e)
    end.

Notation "x <- m ;; k" := (bind m (fun x => k))
  (at level 100, m at next level, right associativity).
Notation "m ;; k" := (bind m (fun _ => k))
  (at level 100, right associativity).

Definition get : M World := fun w => (w, Returned w).
Definition modify (f : World -> World) : M unit := fun w => (f w, Returned tt).

(** [fs.watch(filename, listener)]: the file has to exist. *)
Definition fs_watch (filename : string) (event : nat) (name : string)
    (callbacks : Callbacks) : M nat :=
  fun w =>
    if existsSync (fs w) filename
    then (set_watchers w (watchers w ++
            [{| filename := filename; event := event; name := name;
                callbacks := callbacks; closed := false |}]),
          Returned (length (watchers w)))
    else (w, Thrown (SystemException (ENOENT filename))).

(** The action [createSubscription] returns: its [close] calls
    [eeInst.unsubscribe(eventName)], a method declared outside the files
    at hand. *)
Inductive IRegisteredAction :=
| close_unsubscribes (eventName : string).

(** [getEventDir(eventType, appName)] *)
Definition getEventDir (eventType : EventTypes) (appName : string) : string :=
  match eventType with
  | CustomSharedEvents | CustomUserEvents => Path.join [".events"; appName]
  | _ => ".events"
  end.

Definition ensureEventsDirExists (directoryPath : string) : M unit :=
  w <- get ;;
  if negb (existsSync (fs w) directoryPath) then
    match mkdirSync (fs w) directoryPath with
    | inr fs' => modify (fun w => set_fs w fs')
    | inl err =>
      throw (ImperativeError
               ("Unable to create '.events' directory. Path: " ++ directoryPath)
               (Some err))
    end
  else ret tt.

Definition ensureFileExists (filePath : string) : M unit :=
  w <- get ;;
  if negb (existsSync (fs w) filePath) then
    match writeFileSync (fs w) filePath EmptyFile with
    | inr fs' => modify (fun w => set_fs w fs')
    | inl err =>
      throw (ImperativeError ("Unable to create event file. Path: " ++ filePath) (Some err))
    end
  else ret tt.

Section Utils.

(** [ConfigUtils.getZoweDir()] *)
Variable zoweDir : string.

(** [createSubscription(eeInst, eventName, eventType)], the clock reading
    [now]. *)
Definition createSubscription (eventName : string) (eventType : EventTypes)
    (now : string) : M IRegisteredAction :=
  w <- get ;;
  let dir := getEventDir eventType (eeInst_appName w) in
  ensureEventsDirExists (Path.join [zoweDir; ".events"]) ;;
  ensureEventsDirExists (Path.join [zoweDir; dir]) ;;
  let filePath := Path.join [zoweDir; dir; eventName] in
  ensureFileExists filePath ;;
  let newEvent :=
    {| eventTime := now; eventName := eventName; eventType := eventType;
       appName := eeInst_appName w; filePath := filePath; subscriptions := [] |} in
  w' <- get ;;
  let e := length (events w') in
  modify (fun w => set_events w (events w ++ [newEvent])) ;;
  modify (fun w => set_subscribedEvents w (<[eventName := e]> (subscribedEvents w))) ;;
  ret (close_unsubscribes eventName).

End Utils.

(** [setupWatcher(eeInst, eventName, callbacks)]; on a name that is not in
    the map, [event] is [undefined] and reading its [filePath] throws. *)
Definition setupWatcher (eventName : string) (callbacks : Callbacks) : M nat :=
  w <- get ;;
  match subscribedEvents w !! eventName with
  | None => throw TypeError
  | Some e =>
    match events w !! e with
    | None => throw TypeError
    | Some ev =>
      watcher <- fs_watch (filePath ev) e eventName callbacks ;;
      modify (fun w => set_events w
        (alter (fun x => {| eventTime := eventTime x; eventName := Utils.eventName x;
                            eventType := eventType x; appName := appName x;
                            filePath := filePath x;
                            subscriptions := subscriptions x ++ [watcher] |})
               e (events w))) ;;
      ret watcher
    end
  end.

Definition calls (callbacks : Callbacks) : list EventCallback :=
  match callbacks with
  | Many cbs => cbs
  | One cb => [cb]
  end.

(** The listener that [setupWatcher] hands to [fs.watch]: it returns the
    callbacks it has called, in the order of the calls.  It compares with
    the [eventTime] of the [Event] object; the file is not read. *)
Definition listener (e : nat) (eventName : string) (callbacks : Callbacks)
  : M (list EventCallback) :=
  w <- get ;;
  match events w !! e with
  | None => throw TypeError
  | Some ev =>
    if negb (bool_decide (eventTimes w !! eventName = Some (eventTime ev))) then
      modify (fun w => set_eventTimes w (<[eventName := eventTime ev]> (eventTimes w))) ;;
      ret (calls callbacks)
    else ret []
  end.

(** A native notification for the watcher [id]. *)
Definition fire (id : nat) : M (list EventCallback) :=
  w <- get ;;
  match watchers w !! id with
  | Some watcher =>
    if closed watcher then ret []
    else listener (event watcher) (name watcher) (callbacks watcher)
  | None => ret []
  end.

(** Another process overwrites a file. *)
Definition written_elsewhere (path : string) (contents : FileContents) (w : World) : World :=
  set_fs w {| dirs := dirs (fs w); files := <[path := contents]> (files (fs w)) |}.

(** The world of an emitter that has no subscription yet. *)
Definition fresh (appName : string) (f : FileSystem) : World :=
  {| eeInst_appName := appName; subscribedEvents := ∅; eventTimes := ∅;
     events := []; fs := f; watchers := [] |}.

End Utils.

(* ===================================================================== *)
(** * Sample inputs                                                       *)
(* ===================================================================== *)

Module Samples.
Import Platform.

(** ** A daemon owned by [ibmuser] *)

Definition owner : jsstring := js "ibmuser".

Definition session : Daemon.DaemonClient := Daemon.new_DaemonClient true owner.

(** A request without identity. *)
Definition anonymous_request : Buffer := wire "{'argv':['zos-jobs','list','jobs']}".

Definition anonymous : Daemon.IDaemonResponse :=
  {| Daemon.argv := Some [js "zos-jobs"; js "list"; js "jobs"]; Daemon.user := None;
     Daemon.stdin := None; Daemon.stdinLength := None |}.

(** Ctrl+C of the user [nobody]. *)
Definition foreign_interrupt_request : Buffer :=
  wire "{'stdin':'\u0003','user':'bm9ib2R5'}".

Definition foreign_interrupt : Daemon.IDaemonResponse :=
  {| Daemon.argv := None; Daemon.user := Some (js "bm9ib2R5");
     Daemon.stdin := Some Daemon.CTRL_C_CHAR; Daemon.stdinLength := None |}.

(** Ctrl+C without identity, and Ctrl+C of the owner. *)
Definition anonymous_interrupt_request : Buffer := wire "{'stdin':'\u0003'}".

Definition anonymous_interrupt : Daemon.IDaemonResponse :=
  {| Daemon.argv := None; Daemon.user := None;
     Daemon.stdin := Some Daemon.CTRL_C_CHAR; Daemon.stdinLength := None |}.

Definition interrupt_request : Buffer :=
  wire "{'stdin':'\u0003','user':'aWJtdXNlcg=='}".

Definition interrupt : Daemon.IDaemonResponse :=
  {| Daemon.argv := None; Daemon.user := Some (js "aWJtdXNlcg==");
     Daemon.stdin := Some Daemon.CTRL_C_CHAR; Daemon.stdinLength := None |}.

(** A late reply to a prompt. *)
Definition reply_request : Buffer := wire "{'stdin':'y','user':'aWJtdXNlcg=='}".

Definition reply : Daemon.IDaemonResponse :=
  {| Daemon.argv := None; Daemon.user := Some (js "aWJtdXNlcg==");
     Daemon.stdin := Some (js "y"); Daemon.stdinLength := None |}.

(** An upload of five bytes from stdin, the first two in the read of the
    request. *)
Definition upload_body : Buffer :=
  wire "{'argv':['upload','stds','A.B'],'user':'aWJtdXNlcg==','stdinLength':5".

Definition upload_json : Buffer := upload_body ++ ["}"%byte].

Definition upload : Daemon.IDaemonResponse :=
  {| Daemon.argv := Some [js "upload"; js "stds"; js "A.B"];
     Daemon.user := Some (js "aWJtdXNlcg==");
     Daemon.stdin := None; Daemon.stdinLength := Some 5%Z |}.

Definition upload_request : Buffer := upload_json ++ Byte.x0c :: ascii_bytes "he".

(** The same upload to a data set whose name has a letter outside ASCII
    (two bytes in UTF-8, one code unit in the string), with one byte of
    stdin. *)
Definition accented_json : Buffer :=
  wire "{'argv':['upload','stds','CAF" ++ [Byte.xc3; Byte.x89]
  ++ wire "'],'user':'aWJtdXNlcg==','stdinLength':1}".

Definition accented : Daemon.IDaemonResponse :=
  {| Daemon.argv := Some [js "upload"; js "stds"; js "CAF" ++ [0xC9%N]];
     Daemon.user := Some (js "aWJtdXNlcg==");
     Daemon.stdin := None; Daemon.stdinLength := Some 1%Z |}.

Definition accented_request : Buffer := accented_json ++ Byte.x0c :: ascii_bytes "X".

(** ** A home directory with a Zowe directory in it *)

Definition home : FileSystem :=
  {| dirs := {["/"; "/home"; "/home/u"; "/home/u/.zowe"]}%string; files := ∅ |}.

Definition cliHome : string := "/home/u/.zowe".
Definition homedir : string := "/home/u".
Definition userEvents : list string := ["onVaultChanged"]%string.
Definition sharedEvents : list string := ["onCredentialManagerChanged"]%string.

(** The imperative emitter, initialized for the application [app]. *)
Definition initialized_emitter : Emitter.World :=
  fst (Emitter.initialize (Some "app"%string) (Emitter.fresh home)).

Definition subscribe := Emitter.subscribe cliHome homedir userEvents sharedEvents.
Definition emitEvent := Emitter.emitEvent cliHome homedir userEvents sharedEvents.
Definition emitCustomEvent := Emitter.emitCustomEvent cliHome userEvents sharedEvents.
Definition fire := Emitter.fire cliHome homedir userEvents sharedEvents.

(** ... with the callback 7 subscribed to [onVaultChanged]. *)
Definition subscribed_emitter : Emitter.World :=
  fst (subscribe "onVaultChanged"%string 7 initialized_emitter).

(** An emitter of [EventUtils] for the application [app], with the
    callbacks 1 and 2 watching the custom event [myEvent], made at T0. *)
Definition watching_utils : Utils.World :=
  fst (Utils.bind
         (Utils.createSubscription cliHome "myEvent" Utils.CustomSharedEvents "T0")
         (fun _ => Utils.setupWatcher "myEvent" (Utils.Many [1; 2]))
         (Utils.fresh "app" home))%string.

(** What another process writes when it emits [myEvent] at T1. *)
Definition emitted_at_T1 : FileContents :=
  JsonText {| time := "T1"; type := "myEvent"; loc := EmptyString |}%string.

End Samples.

(* ===================================================================== *)
(** * Further sample inputs                                               *)
(* ===================================================================== *)

Module Scenarios.
Import Platform Samples.

(** ** Sessions *)

(** A session made without a server, and a daemon whose owner is the empty
    string. *)
Definition serverless : Daemon.DaemonClient := Daemon.new_DaemonClient false owner.

Definition ownerless : Daemon.DaemonClient := Daemon.new_DaemonClient true [].

(** An upload that declares a hundred bytes of stdin and brings none in
    the read of the request. *)
Definition long_upload_body : Buffer :=
  wire "{'argv':['upload','stds','A.B'],'user':'aWJtdXNlcg==','stdinLength':100".

Definition long_upload : Daemon.IDaemonResponse :=
  {| Daemon.argv := Some [js "upload"; js "stds"; js "A.B"];
     Daemon.user := Some (js "aWJtdXNlcg==");
     Daemon.stdin := None; Daemon.stdinLength := Some 100%Z |}.

Definition long_upload_request : Buffer := long_upload_body ++ ["}"%byte; Byte.x0c].

(** The session once it has read that request. *)
Definition uploading : Daemon.DaemonClient :=
  fst (Daemon.Node.emit_data session long_upload_request).



(** A request of the user [nobody]. *)
Definition foreign_request : Buffer :=
  wire "{'argv':['zos-jobs','list','jobs'],'user':'bm9ib2R5'}".

Definition foreign : Daemon.IDaemonResponse :=
  {| Daemon.argv := Some [js "zos-jobs"; js "list"; js "jobs"];
     Daemon.user := Some (js "bm9ib2R5");
     Daemon.stdin := None; Daemon.stdinLength := None |}.

(** A request whose [user] field is the empty string. *)
Definition blank_user_request : Buffer := wire "{'argv':['zos-jobs'],'user':''}".

Definition blank_user : Daemon.IDaemonResponse :=
  {| Daemon.argv := Some [js "zos-jobs"]; Daemon.user := Some [];
     Daemon.stdin := None; Daemon.stdinLength := None |}.

(** The first half of a request, cut by the transport. *)
Definition truncated_request : Buffer := wire "{'argv':['zos-jobs','li".

(** ** Emitters *)

Local Open Scope string_scope.

(** The sample emitter once the callback 8 has subscribed to
    [onVaultChanged] as well. *)
Definition twice_subscribed : Emitter.World :=
  fst (subscribe "onVaultChanged" 8 subscribed_emitter).

(** The sample emitter after [onVaultChanged] has been emitted at T1, and
    after the notification of that emission. *)
Definition emitted_emitter : Emitter.World :=
  fst (emitEvent "onVaultChanged" "T1" subscribed_emitter).

Definition delivered_emitter : Emitter.World := fst (fire 0 emitted_emitter).



(** ** Emitters of [EventUtils] *)

(** [myEvent] subscribed once, at T0, and watched twice: by the callback 1,
    then by the callback 2. *)
Definition watched_twice : Utils.World :=
  fst (Utils.bind
         (Utils.createSubscription cliHome "myEvent" Utils.CustomSharedEvents "T0")
         (fun _ => Utils.bind (Utils.setupWatcher "myEvent" (Utils.One 1))
         (fun _ => Utils.setupWatcher "myEvent" (Utils.One 2)))
         (Utils.fresh "app" home)).

(** [myEvent] subscribed and watched by the callback 1 at T0, then
    subscribed again and watched by the callback 2 at T1. *)
Definition subscribed_twice : Utils.World :=
  fst (Utils.bind
         (Utils.createSubscription cliHome "myEvent" Utils.CustomSharedEvents "T0")
         (fun _ => Utils.bind (Utils.setupWatcher "myEvent" (Utils.One 1))
         (fun _ => Utils.bind
           (Utils.createSubscription cliHome "myEvent" Utils.CustomSharedEvents "T1")
         (fun _ => Utils.setupWatcher "myEvent" (Utils.One 2))))
         (Utils.fresh "app" home)).

End Scenarios.

(* ===================================================================== *)
(** * Properties of the daemon session                                    *)
(* ===================================================================== *)

Module DaemonSpec.
Import Platform Daemon.

Lemma set_listeners_same (this : DaemonClient) :
  set_listeners this (listeners this) = this.
Proof. by destruct this. Qed.

Lemma pushed_bytes_app (e1 e2 : list Effect) :
  pushed_bytes (e1 ++ e2) = pushed_bytes e1 ++ pushed_bytes e2.
Proof.
  induction e1 as [|e e1 IH]; [done|].
  destruct e; simpl; rewrite ?IH; try done.
  by rewrite app_assoc.
Qed.

Lemma dispatched_app (e1 e2 : list Effect) :
  dispatched (e1 ++ e2) = dispatched e1 ++ dispatched e2.
Proof.
  induction e1 as [|e e1 IH]; [done|].
  destruct e; simpl; by rewrite ?IH.
Qed.

Lemma pushed_bytes_dispatch (jsonData : IDaemonResponse) :
  pushed_bytes (dispatch jsonData) = [].
Proof. unfold dispatch. by destruct (argv jsonData). Qed.

Lemma ServerClose_dispatch (jsonData : IDaemonResponse) :
  existsb is_ServerClose (dispatch jsonData) = false.
Proof. unfold dispatch. by destruct (argv jsonData). Qed.

(** The inner listeners leave the constructor's fields alone and never
    close the server. *)
Lemma run_listeners_spec (this : DaemonClient) (snapshot : list IDaemonResponse)
    (chunk : Buffer) :
  let '(this', _, now', later') := run_listeners this snapshot chunk in
  mOwner this' = mOwner this /\ mServer this' = mServer this /\
  listeners this' = listeners this /\
  existsb is_ServerClose now' = false /\ existsb is_ServerClose later' = false.
Proof.
  revert this. induction snapshot as [|jsonData rest IH]; intros this; simpl; [done|].
  specialize (IH (set_pendingStdinLength this
    (number_sub (pendingStdinLength this) (byteLength chunk)))).
  destruct (run_listeners _ rest chunk) as [[[this'' kept] now'] later'].
  destruct IH as (? & ? & ? & ? & ?).
  destruct (le_zero _); simpl; rewrite ?existsb_app, ?ServerClose_dispatch; by repeat split.
Qed.

Lemma byteLength_app (a b : Buffer) :
  byteLength (a ++ b) = (byteLength a + byteLength b)%Z.
Proof. unfold byteLength. rewrite length_app. lia. Qed.

Lemma byteLength_nonneg (a : Buffer) : (0 <= byteLength a)%Z.
Proof. unfold byteLength. lia. Qed.

Lemma byteLength_pos (a : Buffer) : a <> [] -> (0 < byteLength a)%Z.
Proof. unfold byteLength. destruct a; [done|]. simpl. lia. Qed.

(** ** Decoding a buffer that starts with ASCII bytes *)

Lemma is_ascii_forallb (a : Buffer) :
  forallb (fun b => (Byte.to_N b <? 0x80)%N) a = true -> Forall is_ascii a.
Proof.
  induction a as [|b a IH]; simpl; [done|].
  intros [Hb Ha]%andb_true_iff. constructor; [|by apply IH].
  by apply N.ltb_lt.
Qed.

Lemma utf8_decode_ascii_app (a rest : Buffer) :
  Forall is_ascii a ->
  utf8_decode utf8_init (a ++ rest) = map Byte.to_N a ++ utf8_decode utf8_init rest.
Proof.
  induction 1 as [|b a Hb _ IH]; [done|]. simpl.
  unfold utf8_step, utf8_lead. simpl.
  unfold is_ascii in Hb.
  destruct (N.leb_spec (Byte.to_N b) 0x7F) as [_|Hn]; [|lia].
  simpl. by rewrite IH.
Qed.

Lemma utf16_units_ascii (a : Buffer) :
  Forall is_ascii a ->
  concat (map utf16_units (map Byte.to_N a)) = map Byte.to_N a.
Proof.
  induction 1 as [|b a Hb _ IH]; [done|]. simpl. rewrite IH.
  unfold utf16_units, is_ascii in *.
  destruct (N.ltb_spec (Byte.to_N b) 0x10000) as [_|Hn]; [done|lia].
Qed.

Lemma toString_ascii_app (a rest : Buffer) :
  Forall is_ascii a ->
  toString (a ++ rest) = map Byte.to_N a ++ toString rest.
Proof.
  intros Ha. unfold toString.
  by rewrite utf8_decode_ascii_app, map_app, concat_app, utf16_units_ascii.
Qed.

(** The first [c] followed by [d], when [d] does not occur before. *)
Lemma indexOf_first (j0 rest : jsstring) (c d : N) :
  d ∉ j0 -> d <> c ->
  indexOf (j0 ++ c :: d :: rest) [c; d] = Some (length j0).
Proof.
  intros Hj Hd. induction j0 as [|x j0 IH]; simpl.
  - by rewrite !N.eqb_refl.
  - apply not_elem_of_cons in Hj as [Hx Hj].
    rewrite (IH Hj). simpl.
    destruct (c =? x)%N; [|done]. simpl.
    destruct j0 as [|y j0]; simpl.
    + by rewrite (proj2 (N.eqb_neq d c)).
    + apply not_elem_of_cons in Hj as [Hy _].
      by rewrite (proj2 (N.eqb_neq d y)).
Qed.

Section Session.

Variable EOW_DELIMITER : jsstring.
Variable JSON_parse : jsstring -> option IDaemonResponse.
Variable base64_toString : jsstring -> option jsstring.

Local Abbreviation requestUser := (Daemon.requestUser base64_toString).
Local Abbreviation decoded := (Daemon.decoded EOW_DELIMITER JSON_parse).
Local Abbreviation stdinData := (Daemon.stdinData EOW_DELIMITER).
Local Abbreviation jsonText := (Daemon.jsonText EOW_DELIMITER).
Local Abbreviation rejected_identity := (Daemon.rejected_identity base64_toString).
Local Abbreviation authenticated := (Daemon.authenticated base64_toString).
Local Abbreviation data := (Daemon.data EOW_DELIMITER JSON_parse base64_toString).
Local Abbreviation emit_data := (Daemon.emit_data EOW_DELIMITER JSON_parse base64_toString).
Local Abbreviation run := (Daemon.run EOW_DELIMITER JSON_parse base64_toString).

(** Every identity is either authenticated or rejected, never both. *)
Lemma rejected_iff_not_authenticated (owner : jsstring) (jsonData : IDaemonResponse) :
  rejected_identity owner jsonData <-> ~ authenticated owner jsonData.
Proof.
  unfold Daemon.authenticated, Daemon.requestUser. split.
  - intros [H1|u H1 H2|u H1 H2|u r H1 H2 H3] [Hu Ho]; rewrite H1 in Hu; congruence.
  - intros Hn. destruct (user jsonData) as [u|] eqn:Eu; [|by apply identity_absent].
    destruct (base64_toString u) as [r|] eqn:Er; [|by eapply identity_undecodable].
    destruct r as [|c r]; [by eapply identity_empty|].
    eapply identity_mismatch; [done..|]. intros <-. by apply Hn.
Qed.

(** With no listener on the socket, an emit is one call of [data]. *)
Lemma emit_data_no_listener (this : DaemonClient) (chunk : Buffer) :
  listeners this = [] ->
  emit_data this chunk =
    (set_listeners (client (data this chunk)) (option_list (registered (data this chunk))),
     now (data this chunk) ++ later (data this chunk)).
Proof.
  intros Hl. unfold Daemon.emit_data. rewrite Hl. simpl. by rewrite app_nil_r.
Qed.

(** [data] on a rejected identity. *)
Lemma data_rejected (this : DaemonClient) (chunk : Buffer) (jsonData : IDaemonResponse) :
  gt_zero (pendingStdinLength this) = false ->
  decoded chunk = Some jsonData ->
  rejected_identity (mOwner this) jsonData ->
  exists message, data this chunk = reject this message.
Proof.
  intros Hp Hd Hr. unfold Daemon.data. unfold Daemon.decoded in Hd. rewrite Hp, Hd.
  unfold Daemon.requestUser.
  destruct Hr as [H1|u H1 H2|u H1 H2|u r H1 H2 H3]; rewrite H1; simpl; rewrite ?H2; eauto.
  destruct r as [|c r]; [eauto|].
  rewrite bool_decide_eq_false_2 by done. simpl. eauto.
Qed.

(** [data] on an authenticated request. *)
Lemma data_authenticated (this : DaemonClient) (chunk : Buffer) (jsonData : IDaemonResponse) :
  gt_zero (pendingStdinLength this) = false ->
  decoded chunk = Some jsonData ->
  authenticated (mOwner this) jsonData ->
  data this chunk =
    match stdin jsonData with
    | Some s =>
      if negb (bool_decide (s = CTRL_C_CHAR)) then quiet this
      else if mServer this
      then {| client := this; now := shutdown; later := []; registered := None |}
      else quiet this
    | None =>
      match stdinData chunk with
      | Some stdinData =>
        let expectedLength :=
          match stdinLength jsonData with Some z => Num z | None => NaN end in
        let '(this', pushed, pending) := writeToStdin this stdinData expectedLength in
        if pending
        then {| client := this'; now := pushed; later := []; registered := Some jsonData |}
        else {| client := this'; now := pushed; later := dispatch jsonData;
                registered := None |}
      | None =>
        {| client := this; now := dispatch jsonData; later := []; registered := None |}
      end
    end.
Proof.
  intros Hp Hd [Hu Ho]. unfold Daemon.data. unfold Daemon.decoded in Hd.
  rewrite Hp, Hd, Hu.
  destruct (mOwner this) as [|c o] eqn:Eo; [done|].
  by rewrite bool_decide_eq_true_2.
Qed.

(** [data] leaves the constructor's fields and the listeners alone. *)
Lemma data_client_fields (this : DaemonClient) (chunk : Buffer) :
  mOwner (client (data this chunk)) = mOwner this /\
  mServer (client (data this chunk)) = mServer this /\
  listeners (client (data this chunk)) = listeners this.
Proof.
  unfold Daemon.data, reject, quiet, writeToStdin.
  repeat (case_match; simplify_eq; simpl; try done).
Qed.

(** [data] closes the server only on the interrupt of an authenticated
    request. *)
Lemma data_ServerClose (this : DaemonClient) (chunk : Buffer) :
  existsb is_ServerClose (now (data this chunk) ++ later (data this chunk)) = true ->
  exists jsonData,
    decoded chunk = Some jsonData /\ authenticated (mOwner this) jsonData /\
    stdin jsonData = Some CTRL_C_CHAR.
Proof.
  unfold Daemon.data, Daemon.decoded, Daemon.authenticated, reject, quiet, writeToStdin.
  destruct (gt_zero _); [done|].
  destruct (JSON_parse _) as [jsonData|]; [|done].
  destruct (requestUser jsonData) as [[|c r]|] eqn:Eu; [done| |done].
  case_bool_decide as Ho; simpl; [|done].
  destruct (stdin jsonData) as [s|] eqn:Es.
  - case_bool_decide as Hs; simpl; [|done]. subst s.
    intros _. exists jsonData. rewrite <- Ho. by repeat split.
  - repeat (case_match; simplify_eq; simpl;
            rewrite ?existsb_app, ?ServerClose_dispatch; try done).
Qed.

Lemma emit_data_ServerClose (this : DaemonClient) (chunk : Buffer) :
  existsb is_ServerClose (snd (emit_data this chunk)) = true ->
  exists jsonData,
    decoded chunk = Some jsonData /\ authenticated (mOwner this) jsonData /\
    stdin jsonData = Some CTRL_C_CHAR.
Proof.
  unfold Daemon.emit_data.
  pose proof (run_listeners_spec (client (data this chunk)) (listeners this) chunk) as Hl.
  destruct (run_listeners _ _ _) as [[[this' kept] now'] later'].
  destruct Hl as (_ & _ & _ & Hn & Hl). simpl.
  rewrite !existsb_app, Hn, Hl, orb_false_r. simpl. intros H.
  apply data_ServerClose. rewrite existsb_app. by destruct (existsb _ (now _)).
Qed.

Lemma emit_data_mOwner (this : DaemonClient) (chunk : Buffer) :
  mOwner (fst (emit_data this chunk)) = mOwner this.
Proof.
  unfold Daemon.emit_data.
  pose proof (run_listeners_spec (client (data this chunk)) (listeners this) chunk) as Hl.
  destruct (run_listeners _ _ _) as [[[this' kept] now'] later'].
  destruct Hl as (Ho & _). simpl. rewrite Ho. apply data_client_fields.
Qed.

(** Over a whole connection, the server is closed only if one of the reads
    decodes to an interrupt request of the owner. *)
Lemma run_ServerClose (reads : list Buffer) (this : DaemonClient) :
  existsb is_ServerClose (snd (run this reads)) = true ->
  exists chunk jsonData,
    In chunk reads /\ decoded chunk = Some jsonData /\
    authenticated (mOwner this) jsonData /\ stdin jsonData = Some CTRL_C_CHAR.
Proof.
  revert this. induction reads as [|chunk rest IH]; intros this; simpl; [done|].
  pose proof (emit_data_ServerClose this chunk) as Hc.
  pose proof (emit_data_mOwner this chunk) as Ho.
  destruct (emit_data this chunk) as [this' effects]. simpl in Hc, Ho.
  specialize (IH this').
  destruct (run this' rest) as [this'' effects']. simpl in *.
  rewrite existsb_app. intros [H|H]%orb_true_iff.
  - destruct (Hc H) as (jsonData & ?). exists chunk, jsonData. tauto.
  - destruct (IH H) as (c & jsonData & ? & ? & ? & ?).
    exists c, jsonData. rewrite <- Ho. tauto.
Qed.

(** C2.  A request whose identity is absent, cannot be decoded, is empty or
    is not the owner's is answered with a failure response (a message on
    stderr, exit code 1) and the end of the connection; nothing is
    dispatched, the server is not closed and the session is as before. *)
Theorem unauthenticated_request_is_rejected
    (this : DaemonClient) (chunk : Buffer) (jsonData : IDaemonResponse) :
  idle this ->
  decoded chunk = Some jsonData ->
  rejected_identity (mOwner this) jsonData ->
  exists message,
    emit_data this chunk =
      (this, [ClientWrite (DaemonRequest_create {| stderr := message; exitCode := 1 |});
              ClientEnd]) /\
    dispatched (snd (emit_data this chunk)) = [].
Proof.
  intros [Hp Hl] Hd Hr.
  destruct (data_rejected this chunk jsonData Hp Hd Hr) as [message Hm].
  exists message. rewrite emit_data_no_listener, Hm by done. simpl.
  by rewrite <- Hl, set_listeners_same.
Qed.

(** C4, amended.  An interrupt request (its [stdin] field is the Ctrl+C
    character) of the owner, on a session that has a server: the session
    writes the termination notice, ends the connection and closes the
    server, which no longer listens. *)
Theorem interrupt_of_owner_shuts_down
    (this : DaemonClient) (chunk : Buffer) (jsonData : IDaemonResponse) :
  idle this ->
  mServer this = true ->
  decoded chunk = Some jsonData ->
  authenticated (mOwner this) jsonData ->
  stdin jsonData = Some CTRL_C_CHAR ->
  emit_data this chunk =
    (this, [ClientWrite (Text (js "Terminating server")); ClientEnd; ServerClose]) /\
  listening_after true (snd (emit_data this chunk)) = false.
Proof.
  intros [Hp Hl] Hs Hd Ha Hc.
  rewrite emit_data_no_listener, (data_authenticated this chunk jsonData) by done.
  rewrite Hc, Hs. simpl. by rewrite <- Hl, set_listeners_same.
Qed.

(** C8.  An authenticated request with a [stdin] field other than the
    Ctrl+C character is ignored: no effect at all (nothing written, nothing
    dispatched, the connection not ended) and the session unchanged. *)
Theorem stray_stdin_is_ignored
    (this : DaemonClient) (chunk : Buffer) (jsonData : IDaemonResponse) (s : jsstring) :
  idle this ->
  decoded chunk = Some jsonData ->
  authenticated (mOwner this) jsonData ->
  stdin jsonData = Some s ->
  s <> CTRL_C_CHAR ->
  emit_data this chunk = (this, []).
Proof.
  intros [Hp Hl] Hd Ha Hs Hc.
  rewrite emit_data_no_listener, (data_authenticated this chunk jsonData) by done.
  rewrite Hs, bool_decide_eq_false_2 by done. simpl.
  by rewrite <- Hl, set_listeners_same.
Qed.

(** C9.  An interrupt request with a rejected identity is answered with
    exit code 1 and the server keeps listening; and over any connection the
    server is closed only if some read decodes to an interrupt request
    whose identity is the owner's. *)
Theorem no_shutdown_without_authentication :
  (forall (this : DaemonClient) (chunk : Buffer) (jsonData : IDaemonResponse),
     idle this ->
     decoded chunk = Some jsonData ->
     stdin jsonData = Some CTRL_C_CHAR ->
     rejected_identity (mOwner this) jsonData ->
     (exists message,
        emit_data this chunk =
          (this, [ClientWrite (DaemonRequest_create {| stderr := message; exitCode := 1 |});
                  ClientEnd])) /\
     listening_after true (snd (emit_data this chunk)) = true) /\
  (forall (this : DaemonClient) (reads : list Buffer),
     listening_after true (snd (run this reads)) = false ->
     exists chunk jsonData,
       In chunk reads /\ decoded chunk = Some jsonData /\
       authenticated (mOwner this) jsonData /\ stdin jsonData = Some CTRL_C_CHAR).
Proof.
  split.
  - intros this chunk jsonData [Hp Hl] Hd _ Hr.
    destruct (data_rejected this chunk jsonData Hp Hd Hr) as [message Hm].
    rewrite emit_data_no_listener, Hm by done. simpl.
    rewrite <- Hl, set_listeners_same. eauto.
  - intros this reads H. apply run_ServerClose.
    unfold listening_after in H. simpl in H. by apply negb_false_iff.
Qed.

(** ** Relaying stdin *)


(** A chunk that arrives while the session relays: [data] returns at once
    and the listener pushes the whole chunk, whatever its length. *)
Lemma emit_data_relaying (this : DaemonClient) (jsonData : IDaemonResponse) (r : Z)
    (chunk : Buffer) :
  relaying this jsonData r ->
  emit_data this chunk =
    if (r - byteLength chunk <=? 0)%Z
    then (after_relay this (r - byteLength chunk) [],
          [StdinPush chunk; StdinEnd] ++ dispatch jsonData)
    else (after_relay this (r - byteLength chunk) [jsonData], [StdinPush chunk]).
Proof.
  intros (Hl & Hp & Hr). unfold Daemon.emit_data, Daemon.data.
  rewrite Hp, Hl. simpl. rewrite (proj2 (Z.ltb_lt 0 r) Hr). simpl.
  rewrite Hp. simpl. unfold after_relay, set_listeners.
  destruct (r - byteLength chunk <=? 0)%Z; simpl; by rewrite ?app_nil_r.
Qed.

Lemma run_relaying (pre : list Buffer) (last : Buffer) (this : DaemonClient)
    (jsonData : IDaemonResponse) (r : Z) :
  relaying this jsonData r ->
  (byteLength (concat pre) < r <= byteLength (concat pre) + byteLength last)%Z ->
  run this (pre ++ [last]) =
    (after_relay this (r - byteLength (concat pre) - byteLength last) [],
     map StdinPush pre ++ [StdinPush last; StdinEnd] ++ dispatch jsonData).
Proof.
  revert this r. induction pre as [|c pre IH]; intros this r Hr Hb; simpl in *.
  - rewrite (emit_data_relaying this jsonData r last Hr).
    change (byteLength []) with 0%Z in *.
    rewrite (proj2 (Z.leb_le _ _)) by lia. simpl.
    rewrite app_nil_r, Z.sub_0_r. done.
  - rewrite byteLength_app in Hb.
    pose proof (byteLength_nonneg (concat pre)).
    rewrite (emit_data_relaying this jsonData r c Hr).
    rewrite (proj2 (Z.leb_gt _ _)) by lia.
    rewrite (IH (after_relay this (r - byteLength c) [jsonData]) (r - byteLength c)%Z).
    + simpl. unfold after_relay. simpl. rewrite byteLength_app.
      f_equal. f_equal. f_equal. lia.
    + unfold relaying. simpl. split_and!; [done..|lia].
    + lia.
Qed.

(** The first chunk of an authenticated request that brings stdin. *)
Lemma emit_data_request_with_stdin (this : DaemonClient) (chunk : Buffer)
    (jsonData : IDaemonResponse) (s0 : Buffer) (L : Z) :
  idle this ->
  decoded chunk = Some jsonData ->
  authenticated (mOwner this) jsonData ->
  stdin jsonData = None ->
  stdinLength jsonData = Some L ->
  stdinData chunk = Some s0 ->
  emit_data this chunk =
    if (0 <? L - byteLength s0)%Z
    then (after_relay this (L - byteLength s0) [jsonData], [StdinPush s0])
    else (after_relay this (L - byteLength s0) [],
          [StdinPush s0; StdinEnd] ++ dispatch jsonData).
Proof.
  intros [Hp Hl] Hd Ha Hs HL H0.
  rewrite emit_data_no_listener, (data_authenticated this chunk jsonData) by done.
  rewrite Hs, H0, HL. unfold writeToStdin, after_relay. simpl.
  destruct (0 <? L - byteLength s0)%Z; simpl; by rewrite ?app_nil_r.
Qed.

(** A whole connection: the request with the first slice [s0] of its stdin,
    then reads [pre] that leave the counter positive, then a read [last]
    that brings it to zero or below.  Every byte read is pushed. *)
Lemma run_request_with_stdin (this : DaemonClient) (chunk : Buffer)
    (jsonData : IDaemonResponse) (s0 : Buffer) (L : Z) (pre : list Buffer) (last : Buffer) :
  idle this ->
  decoded chunk = Some jsonData ->
  authenticated (mOwner this) jsonData ->
  stdin jsonData = None ->
  stdinLength jsonData = Some L ->
  stdinData chunk = Some s0 ->
  (byteLength s0 + byteLength (concat pre) < L
     <= byteLength s0 + byteLength (concat pre) + byteLength last)%Z ->
  run this (chunk :: pre ++ [last]) =
    (after_relay this (L - byteLength s0 - byteLength (concat pre) - byteLength last) [],
     StdinPush s0 :: map StdinPush pre ++ [StdinPush last; StdinEnd] ++ dispatch jsonData).
Proof.
  intros Hi Hd Ha Hs HL H0 Hb.
  pose proof (byteLength_nonneg (concat pre)).
  change (run this (chunk :: pre ++ [last])) with
    (let '(this', effects) := emit_data this chunk in
     let '(this'', effects') := run this' (pre ++ [last]) in
     (this'', effects ++ effects')).
  rewrite (emit_data_request_with_stdin this chunk jsonData s0 L) by done.
  rewrite (proj2 (Z.ltb_lt _ _)) by lia.
  rewrite (run_relaying pre last _ jsonData (L - byteLength s0)%Z).
  - done.
  - unfold relaying. simpl. split_and!; [done..|lia].
  - lia.
Qed.

Lemma pushed_bytes_map_StdinPush (cs : list Buffer) (rest : list Effect) :
  pushed_bytes (map StdinPush cs ++ rest) = concat cs ++ pushed_bytes rest.
Proof. induction cs as [|c cs IH]; simpl; [done|]. by rewrite IH, app_assoc. Qed.

(** C10.  When the read that completes the declared length [L] brings more
    bytes than were missing, every byte of it is pushed all the same: the
    counter ends below zero and stdin has received more than [L] bytes. *)
Theorem overlong_chunk_is_pushed_whole
    (this : DaemonClient) (chunk : Buffer) (jsonData : IDaemonResponse)
    (s0 : Buffer) (L : Z) (pre : list Buffer) (last : Buffer) :
  idle this ->
  decoded chunk = Some jsonData ->
  authenticated (mOwner this) jsonData ->
  stdin jsonData = None ->
  stdinLength jsonData = Some L ->
  stdinData chunk = Some s0 ->
  (byteLength s0 + byteLength (concat pre) < L)%Z ->
  (L - byteLength s0 - byteLength (concat pre) < byteLength last)%Z ->
  let '(this', effects) := run this (chunk :: pre ++ [last]) in
  pushed_bytes effects = s0 ++ concat pre ++ last /\
  (L < byteLength (pushed_bytes effects))%Z /\
  exists left, pendingStdinLength this' = Num left /\ (left < 0)%Z.
Proof.
  intros Hi Hd Ha Hs HL H0 H1 H2.
  rewrite (run_request_with_stdin this chunk jsonData s0 L pre last) by (done || lia).
  assert (pushed_bytes (StdinPush s0 :: map StdinPush pre ++
            [StdinPush last; StdinEnd] ++ dispatch jsonData) = s0 ++ concat pre ++ last) as ->.
  { simpl. rewrite pushed_bytes_map_StdinPush. simpl.
    by rewrite pushed_bytes_dispatch, app_nil_r. }
  split; [done|]. rewrite !byteLength_app. split; [lia|].
  eexists. split; [done|]. lia.
Qed.

(** ** Requests whose JSON text is ASCII *)

(** For such a request the index into the string is the offset into the
    buffer: the text handed to [JSON.parse] is the JSON body and
    [stdinData] is what follows the delimiter. *)
Lemma ascii_request_split (json0 : Buffer) (delimiter : byte) (s0 : Buffer) :
  EOW_DELIMITER = [Byte.to_N delimiter] ->
  is_ascii delimiter ->
  Byte.to_N delimiter <> 125%N ->
  Forall is_ascii json0 ->
  Byte.to_N delimiter ∉ map Byte.to_N json0 ->
  jsonText (json0 ++ "}"%byte :: delimiter :: s0) = map Byte.to_N (json0 ++ ["}"%byte]) /\
  stdinData (json0 ++ "}"%byte :: delimiter :: s0) = Some s0.
Proof.
  intros HE Hd Hne Hj Hn.
  assert (Daemon.jsonEndIdx EOW_DELIMITER (json0 ++ "}"%byte :: delimiter :: s0)
          = Some (length json0)) as Hi.
  { unfold Daemon.jsonEndIdx.
    change (json0 ++ "}"%byte :: delimiter :: s0)
      with (json0 ++ ["}"%byte; delimiter] ++ s0).
    rewrite app_assoc, toString_ascii_app.
    - rewrite map_app, <- app_assoc, HE. simpl.
      rewrite indexOf_first by done. by rewrite length_map.
    - apply Forall_app. split; [done|].
      constructor; [by vm_compute|]. constructor; [done|constructor]. }
  unfold Daemon.jsonText, Daemon.stdinData. rewrite Hi. split.
  - change (json0 ++ "}"%byte :: delimiter :: s0)
      with (json0 ++ ["}"%byte] ++ delimiter :: s0).
    rewrite app_assoc, toString_ascii_app.
    + rewrite take_app_length'; [done|]. rewrite length_map, length_app. simpl. lia.
    + apply Forall_app. split; [done|]. constructor; [by vm_compute|constructor].
  - f_equal.
    change (json0 ++ "}"%byte :: delimiter :: s0)
      with (json0 ++ ["}"%byte; delimiter] ++ s0).
    rewrite app_assoc, drop_app_length'; [done|]. rewrite length_app. simpl. lia.
Qed.

(** A request with an ASCII JSON body that declares the length of the
    payload, and reads that cut the payload into a first slice [s0] (in the
    read of the request) and further non-empty slices [cs]: the bytes
    pushed to stdin are the payload, followed by the end of input and the
    dispatch of the request. *)
Lemma stdin_is_reassembled_when_json_is_ascii
    (this : DaemonClient) (json0 : Buffer) (delimiter : byte)
    (jsonData : IDaemonResponse) (payload s0 : Buffer) (cs : list Buffer) :
  idle this ->
  EOW_DELIMITER = [Byte.to_N delimiter] ->
  is_ascii delimiter ->
  Byte.to_N delimiter <> 125%N ->
  Forall is_ascii json0 ->
  Byte.to_N delimiter ∉ map Byte.to_N json0 ->
  JSON_parse (map Byte.to_N (json0 ++ ["}"%byte])) = Some jsonData ->
  authenticated (mOwner this) jsonData ->
  stdin jsonData = None ->
  stdinLength jsonData = Some (byteLength payload) ->
  Forall (fun c => c <> []) cs ->
  payload = s0 ++ concat cs ->
  let effects := snd (run this ((json0 ++ "}"%byte :: delimiter :: s0) :: cs)) in
  effects = map StdinPush (s0 :: cs) ++ StdinEnd :: dispatch jsonData /\
  pushed_bytes effects = payload.
Proof.
  intros Hi HE Hd Hne Hj Hn Hp Ha Hs HL Hc ->.
  destruct (ascii_request_split json0 delimiter s0 HE Hd Hne Hj Hn) as [Ht H0].
  set (chunk := json0 ++ "}"%byte :: delimiter :: s0) in *.
  assert (decoded chunk = Some jsonData) as Hdec
    by (unfold Daemon.decoded; by rewrite Ht).
  assert (forall effects,
            effects = map StdinPush (s0 :: cs) ++ StdinEnd :: dispatch jsonData ->
            effects = map StdinPush (s0 :: cs) ++ StdinEnd :: dispatch jsonData /\
            pushed_bytes effects = s0 ++ concat cs) as Hpush.
  { intros effects ->. split; [done|].
    rewrite pushed_bytes_map_StdinPush. simpl.
    by rewrite pushed_bytes_dispatch, !app_nil_r. }
  apply Hpush. clear Hpush.
  destruct cs as [|c cs _] using rev_ind.
  - simpl.
    rewrite (emit_data_request_with_stdin this chunk jsonData s0 _ Hi Hdec Ha Hs HL H0).
    simpl in *. rewrite app_nil_r, Z.sub_diag. simpl. by rewrite app_nil_r.
  - rewrite Forall_app, Forall_singleton in Hc. destruct Hc as [_ Hc].
    pose proof (byteLength_pos c Hc).
    rewrite concat_app, !byteLength_app in HL. simpl in HL.
    rewrite app_nil_r in HL.
    rewrite (run_request_with_stdin this chunk jsonData s0 _ cs c Hi Hdec Ha Hs HL H0) by lia.
    simpl. rewrite map_app, <- app_assoc. done.
Qed.

End Session.

(** ** The properties at sample requests, on the platform [Node] *)

Import Samples.

Local Abbreviation decoded := (Daemon.decoded Node.EOW_DELIMITER Node.JSON_parse).
Local Abbreviation rejected_identity := (Daemon.rejected_identity Node.base64_toString).
Local Abbreviation authenticated := (Daemon.authenticated Node.base64_toString).

Lemma session_idle : idle session.
Proof. by split. Qed.

Lemma owner_authenticated (jsonData : IDaemonResponse) :
  user jsonData = Some (js "aWJtdXNlcg==") -> authenticated (mOwner session) jsonData.
Proof.
  intros H. split; [|done]. unfold requestUser. rewrite H. by vm_compute.
Qed.

Lemma unauthenticated_request_is_rejected_witness :
  idle session /\
  decoded foreign_interrupt_request = Some foreign_interrupt /\
  rejected_identity (mOwner session) foreign_interrupt /\
  exists message,
    Node.emit_data session foreign_interrupt_request =
      (session, [ClientWrite (DaemonRequest_create {| stderr := message; exitCode := 1 |});
                 ClientEnd]) /\
    dispatched (snd (Node.emit_data session foreign_interrupt_request)) = [].
Proof.
  assert (decoded foreign_interrupt_request = Some foreign_interrupt) as Hd
    by (vm_compute; reflexivity).
  assert (rejected_identity (mOwner session) foreign_interrupt) as Hr.
  { apply (identity_mismatch _ _ _ (js "bm9ib2R5") (js "nobody"));
      [reflexivity | vm_compute; reflexivity | vm_compute; discriminate]. }
  split_and!; [exact session_idle | exact Hd | exact Hr |].
  exact (unauthenticated_request_is_rejected Node.EOW_DELIMITER Node.JSON_parse
           Node.base64_toString session foreign_interrupt_request foreign_interrupt
           session_idle Hd Hr).
Defined.

(** C4 as stated fails on a request that is not authenticated: Ctrl+C
    without identity, no [argv], on a session that has a server.  The
    request is answered with exit code 1; the server is not closed. *)
Lemma interrupt_without_identity_does_not_shut_down :
  idle session /\ mServer session = true /\
  decoded anonymous_interrupt_request = Some anonymous_interrupt /\
  stdin anonymous_interrupt = Some CTRL_C_CHAR /\ argv anonymous_interrupt = None /\
  Node.emit_data session anonymous_interrupt_request =
    (session,
     [ClientWrite (DaemonRequest_create {| stderr := no_user_message; exitCode := 1 |});
      ClientEnd]) /\
  listening_after true (snd (Node.emit_data session anonymous_interrupt_request)) = true.
Proof. split_and!; try exact session_idle; vm_compute; reflexivity. Qed.

Lemma interrupt_of_owner_shuts_down_witness :
  idle session /\ mServer session = true /\
  decoded interrupt_request = Some interrupt /\
  authenticated (mOwner session) interrupt /\
  stdin interrupt = Some CTRL_C_CHAR /\
  Node.emit_data session interrupt_request =
    (session, [ClientWrite (Text (js "Terminating server")); ClientEnd; ServerClose]) /\
  listening_after true (snd (Node.emit_data session interrupt_request)) = false.
Proof.
  assert (decoded interrupt_request = Some interrupt) as Hd by (vm_compute; reflexivity).
  assert (authenticated (mOwner session) interrupt) as Ha
    by (apply owner_authenticated; reflexivity).
  split_and!; [exact session_idle | reflexivity | exact Hd | exact Ha | reflexivity |..];
    apply (interrupt_of_owner_shuts_down Node.EOW_DELIMITER Node.JSON_parse
             Node.base64_toString session interrupt_request interrupt
             session_idle eq_refl Hd Ha eq_refl).
Defined.

Lemma stray_stdin_is_ignored_witness :
  idle session /\
  decoded reply_request = Some reply /\
  authenticated (mOwner session) reply /\
  stdin reply = Some (js "y") /\ js "y" <> CTRL_C_CHAR /\
  Node.emit_data session reply_request = (session, []).
Proof.
  assert (decoded reply_request = Some reply) as Hd by (vm_compute; reflexivity).
  assert (authenticated (mOwner session) reply) as Ha
    by (apply owner_authenticated; reflexivity).
  assert (js "y" <> CTRL_C_CHAR) as Hn by (vm_compute; discriminate).
  split_and!; [exact session_idle | exact Hd | exact Ha | reflexivity | exact Hn |].
  exact (stray_stdin_is_ignored Node.EOW_DELIMITER Node.JSON_parse Node.base64_toString
           session reply_request reply (js "y") session_idle Hd Ha eq_refl Hn).
Defined.

Lemma no_shutdown_without_authentication_witness :
  (idle session /\
   decoded foreign_interrupt_request = Some foreign_interrupt /\
   stdin foreign_interrupt = Some CTRL_C_CHAR /\
   rejected_identity (mOwner session) foreign_interrupt /\
   listening_after true (snd (Node.emit_data session foreign_interrupt_request)) = true) /\
  (listening_after true (snd (Node.run session [interrupt_request])) = false /\
   exists chunk jsonData,
     In chunk [interrupt_request] /\ decoded chunk = Some jsonData /\
     authenticated (mOwner session) jsonData /\ stdin jsonData = Some CTRL_C_CHAR).
Proof.
  assert (decoded foreign_interrupt_request = Some foreign_interrupt) as Hd
    by (vm_compute; reflexivity).
  assert (rejected_identity (mOwner session) foreign_interrupt) as Hr.
  { apply (identity_mismatch _ _ _ (js "bm9ib2R5") (js "nobody"));
      [reflexivity | vm_compute; reflexivity | vm_compute; discriminate]. }
  assert (listening_after true (snd (Node.run session [interrupt_request])) = false) as Hl
    by (vm_compute; reflexivity).
  destruct (no_shutdown_without_authentication Node.EOW_DELIMITER Node.JSON_parse
              Node.base64_toString) as [H1 H2].
  split.
  - split_and!; [exact session_idle | exact Hd | reflexivity | exact Hr |].
    exact (proj2 (H1 session foreign_interrupt_request foreign_interrupt
                    session_idle Hd eq_refl Hr)).
  - split; [exact Hl|]. exact (H2 session [interrupt_request] Hl).
Defined.

Lemma overlong_chunk_is_pushed_whole_witness :
  idle session /\
  decoded upload_request = Some upload /\
  authenticated (mOwner session) upload /\
  stdin upload = None /\ stdinLength upload = Some 5%Z /\
  Daemon.stdinData Node.EOW_DELIMITER upload_request = Some (ascii_bytes "he") /\
  let '(this', effects) :=
    Node.run session (upload_request :: [ascii_bytes "l"] ++ [ascii_bytes "lo, world"]) in
  pushed_bytes effects = ascii_bytes "he" ++ concat [ascii_bytes "l"] ++ ascii_bytes "lo, world" /\
  (5 < byteLength (pushed_bytes effects))%Z /\
  exists left, pendingStdinLength this' = Num left /\ (left < 0)%Z.
Proof.
  assert (decoded upload_request = Some upload) as Hd by (vm_compute; reflexivity).
  assert (authenticated (mOwner session) upload) as Ha
    by (apply owner_authenticated; reflexivity).
  assert (Daemon.stdinData Node.EOW_DELIMITER upload_request = Some (ascii_bytes "he")) as H0
    by (vm_compute; reflexivity).
  split_and!; [exact session_idle | exact Hd | exact Ha | reflexivity | reflexivity | exact H0 |].
  apply (overlong_chunk_is_pushed_whole Node.EOW_DELIMITER Node.JSON_parse
           Node.base64_toString session upload_request upload (ascii_bytes "he") 5
           [ascii_bytes "l"] (ascii_bytes "lo, world") session_idle Hd Ha eq_refl eq_refl H0);
    vm_compute; reflexivity.
Defined.

(** C1 at a request whose JSON body is not ASCII.  The body is one byte
    longer than its text has characters, so the buffer is cut one byte too
    early: the delimiter is pushed to stdin in front of the payload, and
    the declared length is used up before the payload is complete. *)
Theorem stdin_is_cut_at_a_character_index :
  decoded accented_request = Some accented /\
  stdinLength accented = Some 1%Z /\
  length accented_json = S (length (toString accented_json)) /\
  Daemon.stdinData Node.EOW_DELIMITER accented_request
    = Some (Byte.x0c :: ascii_bytes "X") /\
  pushed_bytes (snd (Node.run session [accented_request])) = Byte.x0c :: ascii_bytes "X" /\
  pushed_bytes (snd (Node.run session [accented_request])) <> ascii_bytes "X" /\
  pushed_bytes (snd (Node.run session [accented_json ++ [Byte.x0c]; ascii_bytes "X"]))
    = [Byte.x0c].
Proof. split_and!; try (vm_compute; reflexivity). vm_compute. discriminate. Qed.

(** The upload with an ASCII name arrives whole: in three reads by the
    general result, and in other cuts by evaluation. *)
Lemma ascii_upload_in_three_reads :
  pushed_bytes (snd (Node.run session [upload_request; ascii_bytes "l"; ascii_bytes "lo"]))
    = ascii_bytes "hello".
Proof.
  apply (stdin_is_reassembled_when_json_is_ascii Node.EOW_DELIMITER Node.JSON_parse
           Node.base64_toString session upload_body Byte.x0c upload
           (ascii_bytes "hello") (ascii_bytes "he") [ascii_bytes "l"; ascii_bytes "lo"]).
  - exact session_idle.
  - reflexivity.
  - by vm_compute.
  - by vm_compute.
  - apply is_ascii_forallb. by vm_compute.
  - apply (bool_decide_unpack _). by vm_compute.
  - by vm_compute.
  - apply owner_authenticated. reflexivity.
  - reflexivity.
  - reflexivity.
  - repeat constructor; discriminate.
  - reflexivity.
Qed.

Example ascii_upload_is_reassembled :
  pushed_bytes (snd (Node.run session [upload_request; ascii_bytes "l"; ascii_bytes "lo"]))
    = ascii_bytes "hello" /\
  pushed_bytes (snd (Node.run session
    [upload_json ++ [Byte.x0c]; ascii_bytes "hel"; ascii_bytes "lo"])) = ascii_bytes "hello" /\
  pushed_bytes (snd (Node.run session [upload_json ++ Byte.x0c :: ascii_bytes "hello"]))
    = ascii_bytes "hello".
Proof. split_and!; vm_compute; reflexivity. Qed.

End DaemonSpec.

(* ===================================================================== *)
(** * Properties of [path.join]                                           *)
(* ===================================================================== *)

Module PathSpec.
Import Platform Platform.Path.

(** ** Cutting and gluing *)

Lemma split_nonempty (s : chars) : split s <> [].
Proof. destruct s as [|c s]; simpl; [done|]. destruct (Ascii.eqb c slash); [done|]. by destruct (split s). Qed.

Lemma split_app (a b : chars) : split (a ++ slash :: b) = split a ++ split b.
Proof.
  induction a as [|c a IH]; simpl; [done|].
  destruct (Ascii.eqb c slash); [by rewrite IH|].
  rewrite IH. pose proof (split_nonempty a). by destruct (split a).
Qed.

Lemma split_slash_free (s : chars) : Forall slash_free (split s).
Proof.
  induction s as [|c s IH]; simpl.
  - repeat constructor. unfold slash_free. set_solver.
  - destruct (Ascii.eqb_spec c slash) as [->|Hc].
    + constructor; [|done]. unfold slash_free. set_solver.
    + pose proof (split_nonempty s). destruct (split s) as [|seg segs]; [done|].
      apply Forall_cons in IH as [Hseg Hsegs]. constructor; [|done].
      unfold slash_free in *. by apply not_elem_of_cons.
Qed.

Lemma split_of_slash_free (seg : chars) : slash_free seg -> split seg = [seg].
Proof.
  unfold slash_free. induction seg as [|c seg IH]; simpl; [done|]. intros H.
  destruct (Ascii.eqb_spec c slash) as [->|Hc]; [set_solver|].
  rewrite IH; [done|set_solver].
Qed.

Lemma split_unsplit (segs : list chars) :
  segs <> [] -> Forall slash_free segs -> split (unsplit segs) = segs.
Proof.
  induction segs as [|seg segs IH]; [done|]. intros _ H.
  inversion H as [|? ? Hseg Hsegs]; subst.
  destruct segs as [|seg' segs]; [by apply split_of_slash_free|].
  change (unsplit (seg :: seg' :: segs)) with (seg ++ slash :: unsplit (seg' :: segs)).
  rewrite split_app, split_of_slash_free, IH by done. done.
Qed.

(** ** The stack of segments *)

Lemma step_empty (b : bool) (stack : list chars) : step b stack [] = stack.
Proof. done. Qed.

Lemma step_dot (b : bool) (stack : list chars) : step b stack dot = stack.
Proof. done. Qed.

Lemma step_kept (b : bool) (stack : list chars) (seg : chars) :
  kept seg -> seg <> dotdot -> step b stack seg = seg :: stack.
Proof.
  intros [H1 H2] H3. unfold step.
  by rewrite !bool_decide_eq_false_2.
Qed.

Lemma step_preserves_kept (b : bool) (stack : list chars) (seg : chars) :
  Forall kept stack -> Forall kept (step b stack seg).
Proof.
  intros H. unfold step.
  case_bool_decide as H1; simpl; [done|].
  case_bool_decide as H2; simpl; [done|].
  case_bool_decide as H3; simpl.
  - destruct stack as [|top below].
    + destruct b; [|done]. by repeat constructor.
    + case_bool_decide.
      * destruct b; [|done]. constructor; [by split|done].
      * by inversion H.
  - constructor; [by split|done].
Qed.

Lemma fold_step_kept (b : bool) (segs stack : list chars) :
  Forall kept stack -> Forall kept (fold_left (step b) segs stack).
Proof.
  revert stack. induction segs as [|seg segs IH]; intros stack H; simpl; [done|].
  apply IH. by apply step_preserves_kept.
Qed.

Lemma step_false_no_dotdot (stack : list chars) (seg : chars) :
  Forall (fun x => x <> dotdot) stack -> Forall (fun x => x <> dotdot) (step false stack seg).
Proof.
  intros H. unfold step.
  case_bool_decide as H1; simpl; [done|].
  case_bool_decide as H2; simpl; [done|].
  case_bool_decide as H3; simpl.
  - destruct stack as [|top below]; [done|]. case_bool_decide; [done|]. by inversion H.
  - by constructor.
Qed.

Lemma fold_step_false_no_dotdot (segs stack : list chars) :
  Forall (fun x => x <> dotdot) stack ->
  Forall (fun x => x <> dotdot) (fold_left (step false) segs stack).
Proof.
  revert stack. induction segs as [|seg segs IH]; intros stack H; simpl; [done|].
  apply IH. by apply step_false_no_dotdot.
Qed.

Lemma dotdot_slash_free : slash_free dotdot.
Proof.
  unfold slash_free, dotdot. intros H.
  repeat (apply elem_of_cons in H as [H|H]; [discriminate|]).
  by apply elem_of_nil in H.
Qed.

Lemma fold_step_slash_free (b : bool) (segs stack : list chars) :
  Forall slash_free segs -> Forall slash_free stack ->
  Forall slash_free (fold_left (step b) segs stack).
Proof.
  revert stack. induction segs as [|seg segs IH]; intros stack Hs H; simpl; [done|].
  inversion Hs as [|? ? Hseg Hsegs]; subst. apply IH; [done|].
  unfold step.
  case_bool_decide as H1; simpl; [done|].
  case_bool_decide as H2; simpl; [done|].
  case_bool_decide as H3; simpl.
  - destruct stack as [|top below].
    + destruct b; [|done]. constructor; [apply dotdot_slash_free|done].
    + case_bool_decide.
      * destruct b; [|done]. constructor; [apply dotdot_slash_free|done].
      * by inversion H.
  - by constructor.
Qed.

(** Resolving a stretch of segments first, on its own, and then running
    what is left of it, is running the stretch: always if it was resolved
    as part of a relative path, and from the empty stack of an absolute
    path if it was resolved as an absolute one. *)
Lemma fold_step_resolved (b' b : bool) (stack segs : list chars) :
  b' = true \/ (b' = false /\ b = false /\ stack = []) ->
  fold_left (step b) (resolve b' segs) stack = fold_left (step b) segs stack.
Proof.
  intros Hb. unfold resolve.
  induction segs as [|seg segs IH] using rev_ind; [done|].
  rewrite !fold_left_app. simpl. rewrite <- IH.
  assert (Forall kept (fold_left (step b') segs [])) as Hk
    by (by apply fold_step_kept).
  assert (b' = false -> Forall (fun x => x <> dotdot) (fold_left (step b') segs [])) as Hd
    by (intros ->; by apply fold_step_false_no_dotdot).
  destruct (fold_left (step b') segs []) as [|top below] eqn:ER.
  - unfold step at 2.
    case_bool_decide as H1; simpl; [by subst|].
    case_bool_decide as H2; simpl; [by subst|].
    case_bool_decide as H3; simpl.
    + subst seg. destruct Hb as [->|(-> & -> & ->)]; done.
    + done.
  - unfold step at 2.
    case_bool_decide as H1; simpl; [by subst; rewrite step_empty|].
    case_bool_decide as H2; simpl; [by subst; rewrite step_dot|].
    inversion Hk as [|? ? Htop Hbelow]; subst.
    case_bool_decide as H3; simpl.
    + subst seg. case_bool_decide as H4.
      * subst top. destruct b'.
        -- simpl. by rewrite !fold_left_app.
        -- specialize (Hd eq_refl). by inversion Hd.
      * rewrite fold_left_app. simpl.
        rewrite (step_kept b _ top Htop H4). unfold step.
        simpl. by rewrite bool_decide_eq_false_2.
    + simpl. by rewrite !fold_left_app.
Qed.

(** ** Gluing arguments *)

Lemma unsplit_cons (seg seg' : chars) (segs : list chars) :
  unsplit (seg :: seg' :: segs) = seg ++ slash :: unsplit (seg' :: segs).
Proof. done. Qed.

Lemma unsplit_nil_inv (segs : list chars) :
  Forall (fun seg => seg <> []) segs -> unsplit segs = [] -> segs = [].
Proof.
  destruct segs as [|seg [|seg' segs]]; [done| |].
  - simpl. intros H ->. by inversion H.
  - rewrite unsplit_cons. intros _ H. by destruct seg.
Qed.

Lemma isAbsolute_unsplit (segs : list chars) :
  Forall (fun seg => seg <> []) segs ->
  isAbsolute (unsplit segs) =
    match head segs with Some h => isAbsolute h | None => false end.
Proof.
  destruct segs as [|seg [|seg' segs]]; [done..|].
  rewrite unsplit_cons. intros H. inversion H; subst. by destruct seg.
Qed.

Lemma trailingSeparator_unsplit (segs : list chars) :
  Forall (fun seg => seg <> []) segs ->
  trailingSeparator (unsplit segs) =
    match last segs with Some l => trailingSeparator l | None => false end.
Proof.
  induction segs as [|seg segs IH]; [done|]. intros H.
  inversion H as [|? ? Hseg Hsegs]; subst.
  destruct segs as [|seg' segs]; [done|].
  rewrite unsplit_cons. specialize (IH Hsegs).
  change (last (seg :: seg' :: segs)) with (last (seg' :: segs)).
  rewrite <- IH. unfold trailingSeparator.
  rewrite last_app, last_cons.
  destruct (last (unsplit (seg' :: segs))) eqn:El; [done|].
  apply last_None in El. apply unsplit_nil_inv in El; done.
Qed.

Lemma split_unsplit_args (args : list chars) :
  args <> [] -> split (unsplit args) = concat (map split args).
Proof.
  induction args as [|arg args IH]; [done|]. intros _.
  destruct args as [|arg' args]; [simpl; by rewrite app_nil_r|].
  rewrite unsplit_cons, split_app, IH by done. done.
Qed.

Lemma fold_step_split_parts (b : bool) (args stack : list chars) :
  fold_left (step b) (concat (map split (parts args))) stack =
  fold_left (step b) (concat (map split args)) stack.
Proof.
  revert stack. unfold parts.
  induction args as [|arg args IH]; intros stack; [done|].
  destruct arg as [|c arg].
  - rewrite filter_cons_False by (intros H; by apply H). simpl. apply IH.
  - rewrite filter_cons_True by done.
    change (map split ((c :: arg) :: ?l)) with (split (c :: arg) :: map split l).
    rewrite !concat_cons, !fold_left_app. apply IH.
Qed.

Lemma parts_nonempty (args : list chars) : Forall (fun seg => seg <> []) (parts args).
Proof.
  unfold parts. apply Forall_forall. intros seg Hs.
  by apply list_elem_of_filter in Hs as [? _].
Qed.

(** [join] in one formula. *)
Lemma join_chars_canonical (args : list chars) :
  parts args <> [] ->
  join_chars args =
    assemble (first_absolute args) (last_trailing args)
      (resolve (negb (first_absolute args)) (concat (map split args))).
Proof.
  intros Hp. unfold join_chars, first_absolute, last_trailing.
  pose proof (parts_nonempty args) as Hn.
  destruct (parts args) as [|p ps] eqn:Ep; [done|].
  unfold normalize_chars.
  destruct (unsplit (p :: ps)) as [|c u] eqn:Eu.
  { apply unsplit_nil_inv in Eu; done. }
  rewrite <- Eu, isAbsolute_unsplit, trailingSeparator_unsplit, split_unsplit_args by done.
  unfold resolve. by rewrite <- Ep, fold_step_split_parts, Ep.
Qed.

(** ** A path that has been assembled *)

Lemma slash_free_head (c : ascii) (seg : chars) :
  slash_free (c :: seg) -> Ascii.eqb c slash = false.
Proof.
  unfold slash_free. intros H. destruct (Ascii.eqb_spec c slash) as [->|]; [|done].
  exfalso. apply H. by left.
Qed.

Lemma slash_free_last (seg : chars) :
  slash_free seg -> trailingSeparator seg = false.
Proof.
  unfold slash_free, trailingSeparator. intros H.
  destruct (last seg) as [c|] eqn:El; [|done].
  destruct (Ascii.eqb_spec c slash) as [->|]; [|done].
  exfalso. apply H. apply last_Some in El as [l ->]. set_solver.
Qed.

Lemma kept_nonempty (segs : list chars) :
  Forall kept segs -> Forall (fun seg => seg <> []) segs.
Proof. intros H. eapply Forall_impl; [done|]. by intros seg [? _]. Qed.

Lemma isAbsolute_unsplit_kept (segs : list chars) :
  Forall kept segs -> Forall slash_free segs -> isAbsolute (unsplit segs) = false.
Proof.
  intros Hk Hs. rewrite isAbsolute_unsplit by by apply kept_nonempty.
  destruct segs as [|seg segs]; [done|]. simpl.
  apply Forall_cons in Hk as [[Hseg _] _]. apply Forall_cons in Hs as [Hs _].
  destruct seg as [|c seg]; [done|]. simpl. by eapply slash_free_head.
Qed.

Lemma trailingSeparator_unsplit_kept (segs : list chars) :
  Forall kept segs -> Forall slash_free segs -> trailingSeparator (unsplit segs) = false.
Proof.
  intros Hk Hs. rewrite trailingSeparator_unsplit by by apply kept_nonempty.
  destruct (last segs) as [l|] eqn:El; [|done].
  apply slash_free_last. eapply Forall_forall in Hs; [done|].
  apply last_Some in El as [l' ->]. set_solver.
Qed.

Lemma isAbsolute_assemble (a t : bool) (segs : list chars) :
  Forall kept segs -> Forall slash_free segs ->
  isAbsolute (assemble a t segs) = a.
Proof.
  intros Hk Hs. unfold assemble.
  pose proof (isAbsolute_unsplit_kept segs Hk Hs) as Ha.
  destruct (unsplit segs) as [|c p]; [by destruct a, t|].
  destruct a; [done|]. by destruct t.
Qed.

Lemma assemble_nonempty (a t : bool) (segs : list chars) : assemble a t segs <> [].
Proof. unfold assemble. by destruct (unsplit segs), a, t. Qed.

Lemma trailingSeparator_assemble (a t : bool) (segs : list chars) :
  Forall kept segs -> Forall slash_free segs ->
  trailingSeparator (assemble a t segs) = t \/ (a = true /\ segs = []).
Proof.
  intros Hk Hs. unfold assemble.
  pose proof (trailingSeparator_unsplit_kept segs Hk Hs) as Ht.
  destruct (unsplit segs) as [|c p] eqn:Eu.
  - apply unsplit_nil_inv in Eu; [|by apply kept_nonempty].
    destruct a; [by right|left; by destruct t].
  - left. unfold trailingSeparator in *.
    destruct t.
    + rewrite !last_app. by destruct a.
    + rewrite app_nil_r. destruct a; [|done].
      simpl app. rewrite last_cons.
      destruct (last (c :: p)) eqn:El; [done|]. by apply last_None in El.
Qed.

Lemma split_snoc_slash (p : chars) : split (p ++ [slash]) = split p ++ [[]].
Proof. by rewrite split_app. Qed.

Lemma fold_step_snoc_empty (b : bool) (segs stack : list chars) :
  fold_left (step b) (segs ++ [[]]) stack = fold_left (step b) segs stack.
Proof. by rewrite fold_left_app. Qed.

Lemma fold_step_split_assemble (b a t : bool) (segs stack : list chars) :
  Forall kept segs -> Forall slash_free segs ->
  fold_left (step b) (split (assemble a t segs)) stack = fold_left (step b) segs stack.
Proof.
  intros Hk Hs. unfold assemble.
  destruct (unsplit segs) as [|c p] eqn:Eu.
  - apply unsplit_nil_inv in Eu as ->; [|by apply kept_nonempty].
    by destruct a, t.
  - assert (segs <> []) as Hne by (intros ->; done).
    rewrite <- Eu.
    assert (split (unsplit segs) = segs) as Hsp by by apply split_unsplit.
    destruct a, t; simpl app; rewrite ?app_nil_r.
    + change (split (slash :: ?x)) with ([] :: split x).
      rewrite split_snoc_slash, Hsp. simpl. by rewrite fold_step_snoc_empty.
    + change (split (slash :: ?x)) with ([] :: split x). by rewrite Hsp.
    + by rewrite split_snoc_slash, Hsp, fold_step_snoc_empty.
    + by rewrite Hsp.
Qed.

Lemma fold_step_no_parts (b : bool) (args stack : list chars) :
  parts args = [] -> fold_left (step b) (concat (map split args)) stack = stack.
Proof. intros H. by rewrite <- fold_step_split_parts, H. Qed.

Lemma split_args_slash_free (args : list chars) :
  Forall slash_free (concat (map split args)).
Proof.
  induction args as [|arg args IH]; [done|]. simpl.
  apply Forall_app. split; [apply split_slash_free|done].
Qed.

Lemma resolve_kept (b : bool) (segs : list chars) : Forall kept (resolve b segs).
Proof. unfold resolve. apply Forall_rev. by apply fold_step_kept. Qed.

Lemma resolve_slash_free (b : bool) (segs : list chars) :
  Forall slash_free segs -> Forall slash_free (resolve b segs).
Proof. intros H. unfold resolve. apply Forall_rev. by apply fold_step_slash_free. Qed.

Lemma parts_app (a b : list chars) : parts (a ++ b) = parts a ++ parts b.
Proof. unfold parts. apply filter_app. Qed.

Lemma parts_cons_nonempty (arg : chars) (args : list chars) :
  arg <> [] -> parts (arg :: args) = arg :: parts args.
Proof. intros H. unfold parts. by rewrite filter_cons_True. Qed.

(** ** Joining in two steps *)

(** A [join] among the arguments of a [join] can be flattened, when it has
    an argument that counts and either nothing that counts comes before it
    or it is relative. *)
Lemma join_chars_nested (pre mid post : list chars) :
  parts mid <> [] ->
  parts pre = [] \/ first_absolute mid = false ->
  join_chars (pre ++ join_chars mid :: post) = join_chars (pre ++ mid ++ post).
Proof.
  intros Hmid Hcond.
  set (am := first_absolute mid).
  set (Rm := resolve (negb am) (concat (map split mid))).
  assert (join_chars mid = assemble am (last_trailing mid) Rm) as HN
    by by apply join_chars_canonical.
  assert (Forall kept Rm) as Hk by apply resolve_kept.
  assert (Forall slash_free Rm) as Hs
    by (apply resolve_slash_free, split_args_slash_free).
  set (N := join_chars mid) in *.
  assert (N <> []) as HNne by (rewrite HN; apply assemble_nonempty).
  assert (parts (pre ++ N :: post) = parts pre ++ N :: parts post) as HpL
    by by rewrite parts_app, parts_cons_nonempty.
  assert (parts (pre ++ mid ++ post) = parts pre ++ parts mid ++ parts post) as HpR
    by by rewrite !parts_app.
  rewrite !join_chars_canonical; cycle 1.
  { rewrite HpR. destruct (parts pre), (parts mid); done. }
  { rewrite HpL. by destruct (parts pre). }
  (* the first argument that counts *)
  assert (first_absolute (pre ++ N :: post) = first_absolute (pre ++ mid ++ post)) as HA.
  { unfold first_absolute. rewrite HpL, HpR.
    destruct (parts pre) as [|p ps]; [|done]. simpl.
    rewrite HN, isAbsolute_assemble by done.
    subst am. unfold first_absolute. by destruct (parts mid). }
  rewrite HA. set (A := first_absolute (pre ++ mid ++ post)) in *.
  (* the segments that remain *)
  assert (resolve (negb A) (concat (map split (pre ++ N :: post))) =
          resolve (negb A) (concat (map split (pre ++ mid ++ post)))) as HR.
  { unfold resolve. f_equal.
    rewrite !map_app, !concat_app, !fold_left_app. simpl.
    rewrite fold_left_app. f_equal.
    rewrite HN, fold_step_split_assemble by done.
    subst Rm. apply fold_step_resolved.
    destruct Hcond as [Hpre|Hrel]; [|left; subst am; by rewrite Hrel].
    destruct am eqn:Eam; [right|by left].
    split_and!; [done| |by apply fold_step_no_parts].
    subst A. unfold first_absolute. rewrite HpR, Hpre. simpl.
    subst am. unfold first_absolute in Eam.
    destruct (parts mid); [done|]. simpl in *. by rewrite Eam. }
  rewrite HR. set (R := resolve (negb A) (concat (map split (pre ++ mid ++ post)))) in *.
  (* the last argument that counts *)
  assert (parts post = [] \/ exists q qs, parts post = q :: qs)
    as [Epost|(q & qs & Epost)] by (destruct (parts post); eauto).
  - assert (last_trailing (pre ++ mid ++ post) = last_trailing mid) as HT.
    { unfold last_trailing. rewrite HpR, Epost, app_nil_r, last_app.
      destruct (last (parts mid)) eqn:El; [done|]. by apply last_None in El. }
    assert (last_trailing (pre ++ N :: post) = trailingSeparator N) as HTL.
    { unfold last_trailing. by rewrite HpL, Epost, last_app. }
    rewrite HT, HTL, HN.
    destruct (trailingSeparator_assemble am (last_trailing mid) Rm Hk Hs) as [->|[Ham HRm]];
      [done|].
    (* the inner join is the root *)
    assert (parts pre = []) as Hpre.
    { destruct Hcond as [?|Hrel]; [done|]. subst am. congruence. }
    assert (A = true) as ->.
    { subst A. unfold first_absolute. rewrite HpR, Hpre. simpl.
      subst am. unfold first_absolute in Ham. by destruct (parts mid). }
    assert (R = []) as ->.
    { subst R. unfold resolve.
      rewrite !map_app, !concat_app, !fold_left_app.
      rewrite (fold_step_no_parts _ pre) by done.
      rewrite (fold_step_no_parts _ post) by done.
      subst Rm. rewrite Ham in HRm. apply HRm. }
    unfold assemble. simpl. done.
  - assert (last_trailing (pre ++ N :: post) = last_trailing (pre ++ mid ++ post)) as ->;
      [|done].
    unfold last_trailing. rewrite HpL, HpR, Epost.
    rewrite !last_app, (last_cons N).
    destruct (last (q :: qs)) eqn:El; [done|]. by apply last_None in El.
Qed.

Lemma list_ascii_join (args : list string) :
  list_ascii_of_string (join args) = join_chars (map list_ascii_of_string args).
Proof. unfold join. apply list_ascii_of_string_of_list_ascii. Qed.

Lemma parts_of_strings (args : list string) :
  parts (map list_ascii_of_string args) = [] <-> Forall (fun s => s = EmptyString) args.
Proof.
  unfold parts. induction args as [|arg args IH]; [done|]. simpl.
  destruct arg as [|c arg].
  - rewrite filter_cons_False by (intros H; by apply H).
    rewrite IH. split; [by constructor|by inversion 1].
  - rewrite filter_cons_True by done. split; [done|]. by inversion 1.
Qed.

(** The same for strings: [join(...pre, join(...mid), ...post)] is
    [join(...pre, ...mid, ...post)]. *)
Lemma join_nested (pre mid post : list string) :
  (exists m, m ∈ mid /\ m <> EmptyString) ->
  Forall (fun s => s = EmptyString) pre \/
    first_absolute (map list_ascii_of_string mid) = false ->
  join (pre ++ join mid :: post) = join (pre ++ mid ++ post).
Proof.
  intros (m & Hm & Hne) Hcond. unfold join at 1 3.
  rewrite !map_app. simpl map. rewrite list_ascii_join.
  rewrite join_chars_nested; [done| |].
  - intros H. apply parts_of_strings in H.
    eapply Forall_forall in H; [|done]. done.
  - destruct Hcond as [H|H]; [left; by apply parts_of_strings|by right].
Qed.

End PathSpec.

(* ===================================================================== *)
(** * Properties of the imperative event emitter                          *)
(* ===================================================================== *)

Module EmitterSpec.
Import Platform Emitter.

(** Running a method: unfold the plumbing, keep the file system closed. *)
Ltac run_method :=
  unfold bind, get, modify, ret, throw in *; simpl in *.

Lemma set_eventTimes_same (w : World) : set_eventTimes w (eventTimes w) = w.
Proof. by destruct w. Qed.

Section Emitter.

Variable cliHome : string.
Variable homedir : string.
Variable ImperativeUserEvents : list string.
Variable ImperativeSharedEvents : list string.

Local Abbreviation getEventDir :=
  (Emitter.getEventDir cliHome homedir ImperativeUserEvents ImperativeSharedEvents).
Local Abbreviation getSharedEventDir := (Emitter.getSharedEventDir cliHome).
Local Abbreviation isCustomEvent :=
  (Emitter.isCustomEvent ImperativeUserEvents ImperativeSharedEvents).
Local Abbreviation setupWatcher :=
  (Emitter.setupWatcher cliHome homedir ImperativeUserEvents ImperativeSharedEvents).
Local Abbreviation listener :=
  (Emitter.listener cliHome homedir ImperativeUserEvents ImperativeSharedEvents).
Local Abbreviation fire :=
  (Emitter.fire cliHome homedir ImperativeUserEvents ImperativeSharedEvents).
Local Abbreviation subscribe :=
  (Emitter.subscribe cliHome homedir ImperativeUserEvents ImperativeSharedEvents).
Local Abbreviation emitEvent :=
  (Emitter.emitEvent cliHome homedir ImperativeUserEvents ImperativeSharedEvents).
Local Abbreviation emitCustomEvent :=
  (Emitter.emitCustomEvent cliHome ImperativeUserEvents ImperativeSharedEvents).

(** ** What the helpers throw *)

Lemma ensureEventsDirExists_spec (dir : string) (w : World) :
  match ensureEventsDirExists dir w with
  | (w', Returned _) =>
    initialized w' = initialized w /\ subscriptions w' = subscriptions w /\
    eventTimes w' = eventTimes w /\ watchers w' = watchers w
  | (w', Thrown e) => w' = w /\ wraps_system_error e
  end.
Proof.
  unfold ensureEventsDirExists. run_method.
  destruct (existsSync (fs w) dir); simpl; [done|].
  destruct (mkdirSync (fs w) dir); simpl; done.
Qed.

Lemma ensureEventFileExists_spec (path : string) (w : World) :
  match ensureEventFileExists path w with
  | (w', Returned _) =>
    initialized w' = initialized w /\ subscriptions w' = subscriptions w /\
    eventTimes w' = eventTimes w /\ watchers w' = watchers w
  | (w', Thrown e) => w' = w /\ wraps_system_error e
  end.
Proof.
  unfold ensureEventFileExists. run_method.
  destruct (existsSync (fs w) path); simpl; [done|].
  destruct (writeFileSync (fs w) path EmptyFile); simpl; done.
Qed.

(** [setupWatcher] either throws an error that carries its cause, or
    records a new, open watcher with the given callbacks under the event
    and leaves the times alone. *)
Lemma setupWatcher_spec (eventType : string) (cbs : list Callback) (w : World) :
  match setupWatcher eventType cbs w with
  | (w', Returned id) =>
    initialized w' = initialized w /\
    subscriptions w' = <[eventType := (id, cbs)]> (subscriptions w) /\
    eventTimes w' = eventTimes w /\
    id = length (watchers w) /\
    watchers w' = watchers w ++
      [{| filename := Path.join [getEventDir eventType; eventType];
          eventType := eventType; callbacks := cbs; closed := false |}]
  | (w', Thrown e) => wraps_system_error e /\ initialized w' = initialized w
  end.
Proof.
  unfold Emitter.setupWatcher, bind at 1.
  pose proof (ensureEventsDirExists_spec (getEventDir eventType) w) as H1.
  destruct (ensureEventsDirExists _ w) as [w1 [[]|e]]; [|by destruct H1 as [-> ?]].
  destruct H1 as (Hi1 & Hs1 & Ht1 & Hw1).
  unfold bind at 1.
  pose proof (ensureEventFileExists_spec (Path.join [getEventDir eventType; eventType]) w1) as H2.
  destruct (ensureEventFileExists _ w1) as [w2 [[]|e]];
    [|destruct H2 as [-> ?]; split; [done|congruence]].
  destruct H2 as (Hi2 & Hs2 & Ht2 & Hw2).
  unfold bind at 1, fs_watch.
  destruct (existsSync (fs w2) _); simpl; [|split; [done|congruence]].
  run_method. rewrite Hi2, Hi1, Hs2, Hs1, Ht2, Ht1, Hw2, Hw1. done.
Qed.

(** ** Errors of use *)

Lemma ensureClassInitialized_true (w : World) :
  initialized w = true -> ensureClassInitialized w = (w, Returned tt).
Proof. unfold ensureClassInitialized. run_method. by intros ->. Qed.

Lemma ensureClassInitialized_false (w : World) :
  initialized w = false -> ensureClassInitialized w = (w, Thrown not_initialized).
Proof. unfold ensureClassInitialized. run_method. by intros ->. Qed.

Lemma writeEvent_throws (location : string) (event : EventJson) (w w' : World)
    (e : Exception) :
  writeEvent location event w = (w', Thrown e) -> wraps_system_error e.
Proof.
  unfold writeEvent, bind at 1.
  pose proof (ensureEventsDirExists_spec location w) as H1.
  destruct (ensureEventsDirExists location w) as [w1 [[]|e1]].
  - run_method. destruct (writeFileSync _ _ _); [|done]. by intros [= _ <-].
  - destruct H1 as [_ H1]. by intros [= _ <-].
Qed.

Lemma subscribe_throws (eventType : string) (cb : Callback) (w w' : World) (e : Exception) :
  initialized w = true ->
  subscribe eventType cb w = (w', Thrown e) -> wraps_system_error e.
Proof.
  intros Hi. unfold Emitter.subscribe, bind at 1.
  rewrite (ensureClassInitialized_true w Hi).
  unfold bind at 1, get. unfold bind at 1.
  destruct (subscriptions w !! eventType) as [[watcherToClose cbs]|].
  - unfold bind at 1, modify.
    pose proof (setupWatcher_spec eventType (cbs ++ [cb]) (close_watcher watcherToClose w)) as H.
    destruct (setupWatcher _ _ _) as [w1 [id|e1]]; [done|].
    destruct H as [H _]. by intros [= _ <-].
  - pose proof (setupWatcher_spec eventType [cb] w) as H.
    destruct (setupWatcher _ _ _) as [w1 [id|e1]]; [done|].
    destruct H as [H _]. by intros [= _ <-].
Qed.

Lemma unsubscribe_returns (eventType : string) (w : World) :
  initialized w = true -> exists w', unsubscribe eventType w = (w', Returned tt).
Proof.
  intros Hi. unfold unsubscribe, bind at 1.
  rewrite (ensureClassInitialized_true w Hi). run_method.
  destruct (subscriptions w !! eventType) as [[watcherToClose cbs]|]; simpl;
    case_bool_decide; eauto.
Qed.

Lemma emitEvent_throws (eventType now : string) (w w' : World) (e : Exception) :
  initialized w = true ->
  emitEvent eventType now w = (w', Thrown e) ->
  wraps_system_error e \/
  e = ImperativeError ("Unable to determine the type of event. Event: " ++ eventType) None.
Proof.
  intros Hi. unfold Emitter.emitEvent, initEvent, bind at 1. unfold bind at 1.
  rewrite (ensureClassInitialized_true w Hi). unfold ret at 1.
  destruct (isCustomEvent eventType).
  - unfold throw. intros [= _ <-]. by right.
  - intros H. left. by eapply writeEvent_throws.
Qed.

Lemma emitCustomEvent_throws (eventType now : string) (w w' : World) (e : Exception) :
  initialized w = true ->
  emitCustomEvent eventType now w = (w', Thrown e) ->
  wraps_system_error e \/
  e = ImperativeError
        ("Operation not allowed. Event is considered protected. Event: " ++ eventType) None.
Proof.
  intros Hi. unfold Emitter.emitCustomEvent, initEvent, bind at 1. unfold bind at 1.
  rewrite (ensureClassInitialized_true w Hi). unfold ret at 1.
  destruct (isCustomEvent eventType); simpl.
  - intros H. left. by eapply writeEvent_throws.
  - unfold throw. intros [= _ <-]. by right.
Qed.

(** C6.  [initialize] on an initialized emitter throws, and a first
    [initialize] leaves the emitter initialized, so that a second one
    throws; [subscribe], [unsubscribe], [emitEvent] and [emitCustomEvent]
    throw before [initialize].  Each throws at once, the world being as it
    was, and throws an [ImperativeError] without a cause, which no failure
    of the file system is and which no method throws once the emitter is
    initialized. *)
Theorem errors_of_use_are_thrown_at_once :
  (forall (w : World) (name : option string),
     initialized w = true ->
     initialize name w = (w, Thrown already_initialized)) /\
  (forall (w : World) (name name' : option string),
     initialized w = false ->
     snd (initialize name w) = Returned tt /\
     initialize name' (fst (initialize name w))
       = (fst (initialize name w), Thrown already_initialized)) /\
  (forall (w : World) (eventType now : string) (cb : Callback),
     initialized w = false ->
     subscribe eventType cb w = (w, Thrown not_initialized) /\
     unsubscribe eventType w = (w, Thrown not_initialized) /\
     emitEvent eventType now w = (w, Thrown not_initialized) /\
     emitCustomEvent eventType now w = (w, Thrown not_initialized)) /\
  (~ wraps_system_error already_initialized /\ ~ wraps_system_error not_initialized) /\
  (forall (w w' : World) (eventType now : string) (cb : Callback) (e : Exception),
     initialized w = true ->
     subscribe eventType cb w = (w', Thrown e) \/
     unsubscribe eventType w = (w', Thrown e) \/
     emitEvent eventType now w = (w', Thrown e) \/
     emitCustomEvent eventType now w = (w', Thrown e) ->
     e <> already_initialized /\ e <> not_initialized).
Proof.
  split_and!.
  - intros w name Hi. unfold initialize. run_method. by rewrite Hi.
  - intros w name name' Hi. unfold initialize. run_method. by rewrite Hi.
  - intros w eventType now cb Hi. split_and!.
    + unfold Emitter.subscribe, bind at 1.
      by rewrite (ensureClassInitialized_false w Hi).
    + unfold unsubscribe, bind at 1.
      by rewrite (ensureClassInitialized_false w Hi).
    + unfold Emitter.emitEvent, initEvent, bind at 1. unfold bind at 1.
      by rewrite (ensureClassInitialized_false w Hi).
    + unfold Emitter.emitCustomEvent, initEvent, bind at 1. unfold bind at 1.
      by rewrite (ensureClassInitialized_false w Hi).
  - by intros [].
  - by intros [].
  - intros w w' eventType now cb e Hi [H|[H|[H|H]]].
    + apply subscribe_throws in H; [|done]. split; by intros ->.
    + destruct (unsubscribe_returns eventType w Hi) as [w'' H']. congruence.
    + destruct (emitEvent_throws _ _ _ _ _ Hi H) as [H'| ->];
        split; intros Heq; (by rewrite Heq in H') || (by inversion Heq).
    + destruct (emitCustomEvent_throws _ _ _ _ _ Hi H) as [H'| ->];
        split; intros Heq; (by rewrite Heq in H') || (by inversion Heq).
Qed.

(** ** Subscribing and disposing *)

(** A [subscribe] that returns has recorded an open watcher for the event
    and returns the action whose [close] is [FSWatcher.prototype.close]. *)
Lemma subscribe_returns (eventType : string) (cb : Callback) (w w' : World)
    (action : IImperativeRegisteredAction) :
  subscribe eventType cb w = (w', Returned action) ->
  action = {| close := FSWatcher_close |} /\
  exists (id : nat) (cbs : list Callback) (x : FSWatcher),
    subscriptions w' !! eventType = Some (id, cbs ++ [cb]) /\
    watchers w' !! id = Some x /\ closed x = false /\ callbacks x = cbs ++ [cb] /\
    cbs = match subscriptions w !! eventType with Some (_, old) => old | None => [] end.
Proof.
  unfold Emitter.subscribe, bind at 1, ensureClassInitialized. run_method.
  destruct (initialized w); simpl; [|done].
  destruct (subscriptions w !! eventType) as [[watcherToClose cbs]|] eqn:Es; simpl.
  - pose proof (setupWatcher_spec eventType (cbs ++ [cb]) (close_watcher watcherToClose w)) as H.
    destruct (setupWatcher _ _ _) as [w1 [id|e1]]; [|done].
    destruct H as (_ & Hs & _ & Hid & Hw). intros [= <- <-]. split; [done|].
    eexists id, cbs, _. rewrite Hs, lookup_insert_eq, Hw, Hid.
    rewrite lookup_app_r, Nat.sub_diag by done. done.
  - pose proof (setupWatcher_spec eventType [cb] w) as H.
    destruct (setupWatcher _ _ _) as [w1 [id|e1]]; [|done].
    destruct H as (_ & Hs & _ & Hid & Hw). intros [= <- <-]. split; [done|].
    eexists id, [], _. rewrite Hs, lookup_insert_eq, Hw, Hid.
    rewrite lookup_app_r, Nat.sub_diag by done. done.
Qed.

(** [unsubscribe], for comparison, does remove the subscription: the
    watcher is closed, the entry and the last time are deleted. *)
Lemma unsubscribe_removes (eventType : string) (w : World) (id : nat) (cbs : list Callback) :
  initialized w = true ->
  subscriptions w !! eventType = Some (id, cbs) ->
  exists w',
    unsubscribe eventType w = (w', Returned tt) /\
    subscriptions w' !! eventType = None /\
    eventTimes w' !! eventType = None /\
    closed <$> watchers w' !! id = (fun _ => true) <$> watchers w !! id.
Proof.
  intros Hi Hs. unfold unsubscribe, bind at 1.
  rewrite (ensureClassInitialized_true w Hi). run_method. rewrite Hs. simpl.
  case_bool_decide as Ht; simpl; eexists; (split; [done|]); simpl;
    rewrite ?lookup_delete_eq, list_lookup_alter_eq; split_and!; try done.
  - by destruct (watchers w !! id).
  - by apply eq_None_not_Some.
  - by destruct (watchers w !! id).
Qed.

(** C5, as the code has it.  After a [subscribe] that returns, calling
    [close()] on the action it returned changes nothing: the watcher of the
    event is still open and the event still has its entry.  Even called on
    a watcher, the function would leave the entry and the times alone. *)
Theorem disposer_of_subscribe_removes_nothing (eventType : string) (cb : Callback)
    (w w' : World) (action : IImperativeRegisteredAction) :
  subscribe eventType cb w = (w', Returned action) ->
  dispose action w' = w' /\
  (exists (id : nat) (cbs : list Callback) (x : FSWatcher),
     subscriptions (dispose action w') !! eventType = Some (id, cbs) /\
     watchers (dispose action w') !! id = Some x /\ closed x = false) /\
  (forall this : Receiver,
     subscriptions (close action this w') = subscriptions w' /\
     eventTimes (close action this w') = eventTimes w').
Proof.
  intros H. apply subscribe_returns in H as (-> & id & cbs & x & Hs & Hw & Hc & _).
  split_and!; [done| |].
  - exists id, (cbs ++ [cb]), x. done.
  - intros [i|]; done.
Qed.

(** ** Notifications *)

(** One notification, when the file can be read and holds the time [t]:
    the callbacks are called, in the order of the list, and [t] becomes the
    last time delivered, unless it already is. *)
Lemma listener_spec (eventType : string) (cbs : list Callback) (w : World)
    (eventContents : FileContents) (t : string) :
  readFileSync (fs w) (Path.join [getEventDir eventType; eventType]) = inr eventContents ->
  contents_time eventContents = Some t ->
  listener eventType cbs w =
    if bool_decide (eventTimes w !! eventType = Some t)
    then (w, Returned [])
    else (set_eventTimes w (<[eventType := t]> (eventTimes w)), Returned cbs).
Proof.
  intros Hr Ht. unfold Emitter.listener. run_method. rewrite Hr, Ht.
  by case_bool_decide.
Qed.

(** A notification that follows one that returned, with nothing changed in
    between, calls nobody. *)
Lemma fire_again (id : nat) (w w' : World) (calls : list Callback) :
  fire id w = (w', Returned calls) -> fire id w' = (w', Returned []).
Proof.
  unfold Emitter.fire, Emitter.listener. run_method.
  destruct (watchers w !! id) as [x|] eqn:Ex; simpl; [|intros [= <- _]; by rewrite Ex].
  destruct (closed x) eqn:Ec; simpl; [intros [= <- _]; by rewrite Ex, Ec|].
  destruct (readFileSync _ _) as [err|eventContents] eqn:Er; simpl; [done|].
  destruct (contents_time eventContents) as [t|] eqn:Et; simpl; [|done].
  case_bool_decide as Hn; simpl; intros [= <- _]; simpl; rewrite Ex; simpl;
    rewrite Ec; cbn [fs set_eventTimes eventTimes]; rewrite Er, Et.
  - by rewrite bool_decide_eq_true_2.
  - by rewrite lookup_insert_eq, bool_decide_eq_true_2.
Qed.

(** Any number of notifications in a row call what the first of them
    calls: the callbacks of the watcher once, in order, or nobody. *)
Lemma notifications_deliver_once (id : nat) (n : nat) (w w' : World) (calls : list Callback) :
  fire id w = (w', Returned calls) ->
  Emitter.notifications cliHome homedir ImperativeUserEvents ImperativeSharedEvents
    id (S n) w = (w', Returned calls) /\
  (calls = [] \/ exists x, watchers w !! id = Some x /\ calls = callbacks x).
Proof.
  intros H. split.
  - assert (forall m, Emitter.notifications cliHome homedir ImperativeUserEvents
              ImperativeSharedEvents id m w' = (w', Returned [])) as Hrest.
    { induction m as [|m IH]; [done|]. simpl. unfold bind at 1.
      rewrite (fire_again id w w' calls H). unfold bind at 1. by rewrite IH. }
    simpl. unfold bind at 1. rewrite H. unfold bind at 1. rewrite Hrest.
    unfold ret. by rewrite app_nil_r.
  - revert H. unfold Emitter.fire, Emitter.listener. run_method.
    destruct (watchers w !! id) as [x|] eqn:Ex; simpl; [|intros [= _ <-]; by left].
    destruct (closed x); simpl; [intros [= _ <-]; by left|].
    destruct (readFileSync _ _); simpl; [done|].
    destruct (contents_time _); simpl; [|done].
    case_bool_decide; simpl; intros [= _ <-]; [by left|right; eauto].
Qed.

(** ** Where an event is written *)

Lemma writeEvent_writes (location : string) (event : EventJson) (w w' : World) :
  writeEvent location event w = (w', Returned tt) ->
  files (fs w') !! Path.join [location; type event] =
    Some (JsonText {| time := time event; type := type event; loc := location |}).
Proof.
  unfold writeEvent, bind at 1.
  destruct (ensureEventsDirExists location w) as [w1 [[]|e1]]; [|done].
  run_method. unfold writeFileSync.
  case_bool_decide; simpl; [done|].
  case_bool_decide; simpl; [|done].
  intros [= <-]. simpl. by rewrite lookup_insert_eq.
Qed.

Lemma emitEvent_writes (eventType now : string) (w w' : World) :
  emitEvent eventType now w = (w', Returned tt) ->
  isCustomEvent eventType = false /\
  files (fs w') !! Path.join [getEventDir eventType; eventType] =
    Some (JsonText {| time := now; type := eventType; loc := getEventDir eventType |}).
Proof.
  unfold Emitter.emitEvent, initEvent, bind at 1. unfold bind at 1.
  destruct (ensureClassInitialized w) as [w1 [[]|e1]]; [|done].
  unfold ret at 1.
  destruct (isCustomEvent eventType); [done|].
  intros H. split; [done|]. by apply writeEvent_writes in H.
Qed.

Lemma emitCustomEvent_writes (eventType now : string) (w w' : World) :
  emitCustomEvent eventType now w = (w', Returned tt) ->
  isCustomEvent eventType = true /\
  files (fs w') !! Path.join [getSharedEventDir; eventType] =
    Some (JsonText {| time := now; type := eventType; loc := getSharedEventDir |}).
Proof.
  unfold Emitter.emitCustomEvent, initEvent, bind at 1. unfold bind at 1.
  destruct (ensureClassInitialized w) as [w1 [[]|e1]]; [|done].
  unfold ret at 1.
  destruct (isCustomEvent eventType); simpl; [|done].
  intros H. split; [done|]. by apply writeEvent_writes in H.
Qed.

End Emitter.

(** ** The properties at a sample emitter *)

Import Samples.
Local Open Scope string_scope.

Lemma errors_of_use_are_thrown_at_once_witness :
  (initialized initialized_emitter = true /\
   Emitter.initialize (Some "zowe") initialized_emitter
     = (initialized_emitter, Thrown already_initialized)) /\
  (initialized (fresh home) = false /\
   subscribe "onVaultChanged" 7 (fresh home) = (fresh home, Thrown not_initialized) /\
   unsubscribe "onVaultChanged" (fresh home) = (fresh home, Thrown not_initialized) /\
   emitEvent "onVaultChanged" "T1" (fresh home) = (fresh home, Thrown not_initialized) /\
   emitCustomEvent "myEvent" "T1" (fresh home) = (fresh home, Thrown not_initialized)) /\
  (emitEvent "myEvent" "T1" initialized_emitter
     = (initialized_emitter,
        Thrown (ImperativeError "Unable to determine the type of event. Event: myEvent" None)) /\
   ImperativeError "Unable to determine the type of event. Event: myEvent" None
     <> not_initialized).
Proof.
  destruct (errors_of_use_are_thrown_at_once cliHome homedir userEvents sharedEvents)
    as (H1 & _ & H2 & _ & H4).
  assert (emitEvent "myEvent" "T1" initialized_emitter
     = (initialized_emitter,
        Thrown (ImperativeError "Unable to determine the type of event. Event: myEvent" None)))
    as He by (vm_compute; reflexivity).
  split_and!.
  - reflexivity.
  - exact (H1 initialized_emitter (Some "zowe") eq_refl).
  - reflexivity.
  - exact (proj1 (H2 (fresh home) "onVaultChanged" "T1" 7 eq_refl)).
  - exact (proj1 (proj2 (H2 (fresh home) "onVaultChanged" "T1" 7 eq_refl))).
  - exact (proj1 (proj2 (proj2 (H2 (fresh home) "onVaultChanged" "T1" 7 eq_refl)))).
  - exact (proj2 (proj2 (proj2 (H2 (fresh home) "myEvent" "T1" 7 eq_refl)))).
  - exact He.
  - exact (proj2 (H4 initialized_emitter initialized_emitter "myEvent" "T1" 7 _ eq_refl
                    (or_intror (or_intror (or_introl He))))).
Defined.

Lemma disposer_of_subscribe_removes_nothing_witness :
  subscribe "onVaultChanged" 7 initialized_emitter
    = (subscribed_emitter, Returned {| close := FSWatcher_close |}) /\
  dispose {| close := FSWatcher_close |} subscribed_emitter = subscribed_emitter /\
  (exists (id : nat) (cbs : list Callback) (x : FSWatcher),
     subscriptions (dispose {| close := FSWatcher_close |} subscribed_emitter)
       !! "onVaultChanged" = Some (id, cbs) /\
     watchers (dispose {| close := FSWatcher_close |} subscribed_emitter) !! id = Some x /\
     closed x = false).
Proof.
  assert (subscribe "onVaultChanged" 7 initialized_emitter
    = (subscribed_emitter, Returned {| close := FSWatcher_close |})) as Hs
    by (vm_compute; reflexivity).
  destruct (disposer_of_subscribe_removes_nothing cliHome homedir userEvents sharedEvents
              "onVaultChanged" 7 initialized_emitter subscribed_emitter
              {| close := FSWatcher_close |} Hs) as (H1 & H2 & _).
  exact (conj Hs (conj H1 H2)).
Defined.

(** After the same subscription, [unsubscribe] leaves no entry and a
    closed watcher. *)
Example unsubscribe_at_sample :
  let w := fst (unsubscribe "onVaultChanged" subscribed_emitter) in
  subscriptions w !! "onVaultChanged" = None /\
  closed <$> watchers w !! 0 = Some true /\
  closed <$> watchers subscribed_emitter !! 0 = Some false.
Proof. split_and!; vm_compute; reflexivity. Qed.

(** One emission, three notifications: the callback is called once. *)
Example three_notifications_one_call :
  let w := fst (emitEvent "onVaultChanged" "T1" subscribed_emitter) in
  snd (Emitter.notifications cliHome homedir userEvents sharedEvents 0 3 w) = Returned [7].
Proof. vm_compute. reflexivity. Qed.

End EmitterSpec.

(* ===================================================================== *)
(** * Properties of the event helpers                                     *)
(* ===================================================================== *)

Module UtilsSpec.
Import Platform Utils.

Ltac run_method :=
  unfold bind, get, modify, ret, throw in *; simpl in *.

(** The listener does not look at the file system: a write by another
    process changes neither what a notification calls nor what it leaves
    behind. *)
Lemma fire_does_not_read (id : nat) (path : string) (contents : FileContents) (w : World) :
  fire id (written_elsewhere path contents w) =
    (written_elsewhere path contents (fst (fire id w)), snd (fire id w)).
Proof.
  unfold fire, listener. run_method.
  destruct (watchers w !! id) as [x|]; simpl; [|done].
  destruct (closed x); simpl; [done|].
  destruct (events w !! event x) as [ev|]; simpl; [|done].
  by case_bool_decide.
Qed.

(** A notification that follows one that returned calls nobody. *)
Lemma utils_fire_again (id : nat) (w w' : World) (called : list EventCallback) :
  fire id w = (w', Returned called) -> fire id w' = (w', Returned []).
Proof.
  unfold fire, listener. run_method.
  destruct (watchers w !! id) as [x|] eqn:Ex; simpl; [|intros [= <- _]; by rewrite Ex].
  destruct (closed x) eqn:Ec; simpl; [intros [= <- _]; by rewrite Ex, Ec|].
  destruct (events w !! event x) as [ev|] eqn:Ee; simpl; [|done].
  case_bool_decide as Hn; simpl; intros [= <- _]; simpl; rewrite Ex; simpl;
    rewrite Ec; cbn [events set_eventTimes eventTimes]; rewrite Ee; simpl.
  - by rewrite bool_decide_eq_true_2.
  - by rewrite lookup_insert_eq, bool_decide_eq_true_2.
Qed.

(** C3, as the code of [EventUtils.setupWatcher] has it.  Once a
    notification has been handled, a notification that follows a write of
    the event file by another process, whatever the time written, calls
    nobody: the time in the file is not read. *)
Theorem utils_listener_misses_emission (id : nat) (w w' : World)
    (called : list EventCallback) (path : string) (contents : FileContents) :
  fire id w = (w', Returned called) ->
  fire id (written_elsewhere path contents w') =
    (written_elsewhere path contents w', Returned []).
Proof.
  intros H. rewrite fire_does_not_read. by rewrite (utils_fire_again id w w' called H).
Qed.

(** ** Where a subscription keeps its file *)

Lemma utils_ensureEventsDirExists_spec (dir : string) (w : World) :
  match ensureEventsDirExists dir w with
  | (w', Returned _) =>
    eeInst_appName w' = eeInst_appName w /\ subscribedEvents w' = subscribedEvents w /\
    events w' = events w /\ existsSync (fs w') dir = true /\
    forall p, existsSync (fs w) p = true -> existsSync (fs w') p = true
  | (w', Thrown e) => w' = w
  end.
Proof.
  unfold ensureEventsDirExists. run_method.
  destruct (existsSync (fs w) dir) eqn:Ex; simpl; [done|].
  unfold mkdirSync. rewrite Ex.
  case_bool_decide; simpl; [|done].
  split_and!; try done.
  - unfold existsSync. simpl. rewrite bool_decide_eq_true_2; [done|set_solver].
  - unfold existsSync. simpl. intros p [Hp|Hp]%orb_true_iff; apply orb_true_iff.
    + left. apply bool_decide_eq_true in Hp. apply bool_decide_eq_true. set_solver.
    + by right.
Qed.

Lemma ensureFileExists_spec (path : string) (w : World) :
  match ensureFileExists path w with
  | (w', Returned _) =>
    eeInst_appName w' = eeInst_appName w /\ subscribedEvents w' = subscribedEvents w /\
    events w' = events w /\ existsSync (fs w') path = true
  | (w', Thrown e) => w' = w
  end.
Proof.
  unfold ensureFileExists. run_method.
  destruct (existsSync (fs w) path) eqn:Ex; simpl; [done|].
  unfold writeFileSync.
  case_bool_decide; simpl; [done|].
  case_bool_decide; simpl; [|done].
  split_and!; try done.
  unfold existsSync. simpl. apply orb_true_iff. right.
  apply bool_decide_eq_true. by rewrite lookup_insert_eq.
Qed.

(** A [createSubscription] that returns has put under the event name a new
    [Event] whose file, which exists, is named by joining the Zowe
    directory, the event directory of its type and its name. *)
Lemma createSubscription_spec (zoweDir eventName : string) (eventType : EventTypes)
    (now : string) (w w' : World) (action : IRegisteredAction) :
  createSubscription zoweDir eventName eventType now w = (w', Returned action) ->
  exists (e : nat) (ev : Event),
    subscribedEvents w' !! eventName = Some e /\ events w' !! e = Some ev /\
    filePath ev =
      Path.join [zoweDir; getEventDir eventType (eeInst_appName w); eventName] /\
    existsSync (fs w') (filePath ev) = true.
Proof.
  unfold createSubscription, get, bind at 1. unfold bind at 1.
  pose proof (utils_ensureEventsDirExists_spec (Path.join [zoweDir; ".events"]) w) as H1.
  destruct (ensureEventsDirExists _ w) as [w1 [[]|e1]]; [|done].
  destruct H1 as (Ha1 & Hs1 & He1 & _).
  unfold bind at 1.
  pose proof (utils_ensureEventsDirExists_spec
    (Path.join [zoweDir; getEventDir eventType (eeInst_appName w)]) w1) as H2.
  destruct (ensureEventsDirExists _ w1) as [w2 [[]|e2]]; [|done].
  destruct H2 as (Ha2 & Hs2 & He2 & _).
  unfold bind at 1.
  pose proof (ensureFileExists_spec
    (Path.join [zoweDir; getEventDir eventType (eeInst_appName w); eventName]) w2) as H3.
  destruct (ensureFileExists _ w2) as [w3 [[]|e3]]; [|done].
  destruct H3 as (Ha3 & Hs3 & He3 & Hx3).
  run_method. intros [= <- _].
  eexists (length (events w3)), _. simpl. rewrite lookup_insert_eq.
  rewrite lookup_app_r, Nat.sub_diag by done. simpl. done.
Qed.

(** ** The property at a sample subscription *)

Import Samples.
Local Open Scope string_scope.

Lemma utils_listener_misses_emission_witness :
  Utils.fire 0 watching_utils = (fst (Utils.fire 0 watching_utils), Returned [1; 2]) /\
  readFileSync
    (fs (written_elsewhere "/home/u/.zowe/.events/app/myEvent" emitted_at_T1
           (fst (Utils.fire 0 watching_utils))))
    "/home/u/.zowe/.events/app/myEvent" = inr emitted_at_T1 /\
  eventTimes (fst (Utils.fire 0 watching_utils)) !! "myEvent" = Some "T0" /\
  Utils.fire 0
    (written_elsewhere "/home/u/.zowe/.events/app/myEvent" emitted_at_T1
       (fst (Utils.fire 0 watching_utils))) =
    (written_elsewhere "/home/u/.zowe/.events/app/myEvent" emitted_at_T1
       (fst (Utils.fire 0 watching_utils)), Returned []).
Proof.
  assert (Utils.fire 0 watching_utils = (fst (Utils.fire 0 watching_utils), Returned [1; 2]))
    as Hf by (vm_compute; reflexivity).
  split_and!; [exact Hf | vm_compute; reflexivity | vm_compute; reflexivity |].
  exact (utils_listener_misses_emission 0 watching_utils _ [1; 2]
           "/home/u/.zowe/.events/app/myEvent" emitted_at_T1 Hf).
Defined.

End UtilsSpec.

(* ===================================================================== *)
(** * Where the event files are                                           *)
(* ===================================================================== *)

Module LayoutSpec.
Import Platform.
Local Open Scope string_scope.

(** The directory of a custom event, joined with the root and the name. *)
Lemma custom_event_path (root appName eventName : string) :
  Path.join [root; Path.join [".events"; appName]; eventName] =
  Path.join [root; ".events"; appName; eventName].
Proof.
  apply (PathSpec.join_nested [root] [".events"; appName] [eventName]).
  - exists ".events". split; [by left|done].
  - by right.
Qed.

Lemma shared_event_path (cliHome eventName : string) :
  Path.join [Emitter.getSharedEventDir cliHome; eventName] =
  Path.join [cliHome; ".events"; eventName].
Proof.
  apply (PathSpec.join_nested [] [cliHome; ".events"] [eventName]).
  - exists ".events". split; [set_solver|done].
  - by left.
Qed.

Lemma user_event_path (homedir eventName : string) :
  Path.join [Emitter.getUserEventDir homedir; eventName] =
  Path.join [homedir; ".zowe"; ".events"; eventName].
Proof.
  apply (PathSpec.join_nested [] [homedir; ".zowe"; ".events"] [eventName]).
  - exists ".events". split; [set_solver|done].
  - by left.
Qed.

(** C7, amended.  A subscription made by [createSubscription] keeps its
    file at [<zoweDir>/.events/<appName>/<eventName>] when its type is one
    of the two custom ones and at [<zoweDir>/.events/<eventName>]
    otherwise.  The emitter of [ImperativeEventEmitter] writes a user event
    to [<home>/.zowe/.events/<eventName>], a shared event to
    [<cliHome>/.events/<eventName>], and a custom event, through
    [emitCustomEvent], to [<cliHome>/.events/<eventName>] as well: the
    application name is no part of the path. *)
Theorem event_file_layout :
  (forall (zoweDir eventName now : string) (eventType : Utils.EventTypes)
          (w w' : Utils.World) (action : Utils.IRegisteredAction),
     Utils.createSubscription zoweDir eventName eventType now w
       = (w', Utils.Returned action) ->
     exists (e : nat) (ev : Utils.Event),
       Utils.subscribedEvents w' !! eventName = Some e /\
       Utils.events w' !! e = Some ev /\
       existsSync (Utils.fs w') (Utils.filePath ev) = true /\
       Utils.filePath ev =
         match eventType with
         | Utils.CustomSharedEvents | Utils.CustomUserEvents =>
           Path.join [zoweDir; ".events"; Utils.eeInst_appName w; eventName]
         | _ => Path.join [zoweDir; ".events"; eventName]
         end) /\
  (forall (cliHome homedir : string) (userEvents sharedEvents : list string)
          (eventType now : string) (w w' : Emitter.World),
     Emitter.emitEvent cliHome homedir userEvents sharedEvents eventType now w
       = (w', Emitter.Returned tt) ->
     exists j,
       time j = now /\
       files (Emitter.fs w') !!
         (if Emitter.isUserEvent userEvents eventType
          then Path.join [homedir; ".zowe"; ".events"; eventType]
          else Path.join [cliHome; ".events"; eventType]) = Some (JsonText j)) /\
  (forall (cliHome : string) (userEvents sharedEvents : list string)
          (eventType now : string) (w w' : Emitter.World),
     Emitter.emitCustomEvent cliHome userEvents sharedEvents eventType now w
       = (w', Emitter.Returned tt) ->
     exists j,
       time j = now /\
       files (Emitter.fs w') !! Path.join [cliHome; ".events"; eventType]
         = Some (JsonText j)).
Proof.
  split_and!.
  - intros zoweDir eventName now eventType w w' action H.
    apply UtilsSpec.createSubscription_spec in H as (e & ev & He & Hev & Hp & Hx).
    exists e, ev. split_and!; [done..|]. rewrite Hp.
    destruct eventType; simpl; try done; apply custom_event_path.
  - intros cliHome homedir userEvents sharedEvents eventType now w w' H.
    apply EmitterSpec.emitEvent_writes in H as [_ H].
    eexists. split; [|rewrite <- H]; [done|]. f_equal.
    unfold Emitter.getEventDir.
    destruct (Emitter.isUserEvent userEvents eventType).
    + symmetry. apply user_event_path.
    + symmetry. destruct (Emitter.isSharedEvent _ _); apply shared_event_path.
  - intros cliHome userEvents sharedEvents eventType now w w' H.
    apply EmitterSpec.emitCustomEvent_writes in H as [_ H].
    eexists. split; [|rewrite <- H]; [done|]. f_equal.
    symmetry. apply shared_event_path.
Qed.

(** ** The layout at sample events *)

Import Samples.

(** C7 as stated fails on [emitCustomEvent]: the custom event [myEvent] of
    the application [app] is written to [.events/myEvent]; there is no
    file [.events/app/myEvent]. *)
Lemma custom_event_of_emitter_has_no_application_directory :
  let w := fst (emitCustomEvent "myEvent" "T1" initialized_emitter) in
  snd (emitCustomEvent "myEvent" "T1" initialized_emitter) = Emitter.Returned tt /\
  Emitter.isCustomEvent userEvents sharedEvents "myEvent" = true /\
  Emitter.appName w = Some "app" /\
  Path.join [cliHome; ".events"; "app"; "myEvent"] = "/home/u/.zowe/.events/app/myEvent" /\
  files (Emitter.fs w) !! "/home/u/.zowe/.events/app/myEvent" = None /\
  existsSync (Emitter.fs w) "/home/u/.zowe/.events/app/myEvent" = false /\
  files (Emitter.fs w) !! "/home/u/.zowe/.events/myEvent"
    = Some (JsonText {| time := "T1"; type := "myEvent"; loc := "/home/u/.zowe/.events" |}).
Proof. split_and!; vm_compute; reflexivity. Qed.

Lemma event_file_layout_witness :
  (Utils.createSubscription cliHome "myEvent" Utils.CustomSharedEvents "T0"
     (Utils.fresh "app" home)
   = (fst (Utils.createSubscription cliHome "myEvent" Utils.CustomSharedEvents "T0"
             (Utils.fresh "app" home)),
      Utils.Returned (Utils.close_unsubscribes "myEvent")) /\
   exists (e : nat) (ev : Utils.Event),
     Utils.events
       (fst (Utils.createSubscription cliHome "myEvent" Utils.CustomSharedEvents "T0"
               (Utils.fresh "app" home))) !! e = Some ev /\
     Utils.filePath ev = Path.join [cliHome; ".events"; "app"; "myEvent"]) /\
  (emitEvent "onVaultChanged" "T1" initialized_emitter
   = (fst (emitEvent "onVaultChanged" "T1" initialized_emitter), Emitter.Returned tt) /\
   exists j,
     files (Emitter.fs (fst (emitEvent "onVaultChanged" "T1" initialized_emitter)))
       !! Path.join [homedir; ".zowe"; ".events"; "onVaultChanged"] = Some (JsonText j)) /\
  (emitCustomEvent "myEvent" "T1" initialized_emitter
   = (fst (emitCustomEvent "myEvent" "T1" initialized_emitter), Emitter.Returned tt) /\
   exists j,
     files (Emitter.fs (fst (emitCustomEvent "myEvent" "T1" initialized_emitter)))
       !! Path.join [cliHome; ".events"; "myEvent"] = Some (JsonText j)).
Proof.
  destruct event_file_layout as (H1 & H2 & H3).
  assert (Utils.createSubscription cliHome "myEvent" Utils.CustomSharedEvents "T0"
            (Utils.fresh "app" home)
          = (fst (Utils.createSubscription cliHome "myEvent" Utils.CustomSharedEvents "T0"
                    (Utils.fresh "app" home)),
             Utils.Returned (Utils.close_unsubscribes "myEvent"))) as Hc
    by (vm_compute; reflexivity).
  assert (emitEvent "onVaultChanged" "T1" initialized_emitter
          = (fst (emitEvent "onVaultChanged" "T1" initialized_emitter), Emitter.Returned tt))
    as He by (vm_compute; reflexivity).
  assert (emitCustomEvent "myEvent" "T1" initialized_emitter
          = (fst (emitCustomEvent "myEvent" "T1" initialized_emitter), Emitter.Returned tt))
    as Hx by (vm_compute; reflexivity).
  split_and!.
  - exact Hc.
  - destruct (H1 _ _ _ _ _ _ _ Hc) as (e & ev & _ & Hev & _ & Hp).
    exists e, ev. exact (conj Hev Hp).
  - exact He.
  - destruct (H2 cliHome homedir userEvents sharedEvents _ _ _ _ He) as (j & _ & Hj).
    exists j. exact Hj.
  - exact Hx.
  - destruct (H3 cliHome userEvents sharedEvents _ _ _ _ Hx) as (j & _ & Hj).
    exists j. exact Hj.
Defined.

End LayoutSpec.

(* ===================================================================== *)
(** * The daemon session: states, relay and edge cases                    *)
(* ===================================================================== *)

Module DaemonMore.
Import Platform Daemon.

Lemma gt_zero_Num (n : number) :
  gt_zero n = true -> exists r, n = Num r /\ (0 < r)%Z.
Proof. destruct n as [z|]; simpl; [|done]. intros H%Z.ltb_lt. eauto. Qed.

Lemma relaying_not_idle (this : DaemonClient) (jsonData : IDaemonResponse) (r : Z) :
  relaying this jsonData r -> ~ idle this.
Proof. intros (Hl & _ & _) [_ Hi]. congruence. Qed.

Lemma after_relay_same (this : DaemonClient) (jsonData : IDaemonResponse) (r : Z) :
  relaying this jsonData r -> after_relay this r [jsonData] = this.
Proof. destruct this. unfold relaying, after_relay. simpl. by intros (-> & -> & _). Qed.

Section Session.

Variable EOW_DELIMITER : jsstring.
Variable JSON_parse : jsstring -> option IDaemonResponse.
Variable base64_toString : jsstring -> option jsstring.

Local Abbreviation requestUser := (Daemon.requestUser base64_toString).
Local Abbreviation decoded := (Daemon.decoded EOW_DELIMITER JSON_parse).
Local Abbreviation stdinData := (Daemon.stdinData EOW_DELIMITER).
Local Abbreviation jsonEndIdx := (Daemon.jsonEndIdx EOW_DELIMITER).
Local Abbreviation rejected_identity := (Daemon.rejected_identity base64_toString).
Local Abbreviation authenticated := (Daemon.authenticated base64_toString).
Local Abbreviation data := (Daemon.data EOW_DELIMITER JSON_parse base64_toString).
Local Abbreviation emit_data := (Daemon.emit_data EOW_DELIMITER JSON_parse base64_toString).
Local Abbreviation run := (Daemon.run EOW_DELIMITER JSON_parse base64_toString).

(** ** The states of a session *)

Lemma emit_data_mServer (this : DaemonClient) (chunk : Buffer) :
  mServer (fst (emit_data this chunk)) = mServer this.
Proof.
  unfold Daemon.emit_data.
  pose proof (DaemonSpec.run_listeners_spec (client (data this chunk)) (listeners this) chunk)
    as Hl.
  destruct (run_listeners _ _ _) as [[[this' kept] now'] later'].
  destruct Hl as (_ & Hs & _). simpl. rewrite Hs.
  apply DaemonSpec.data_client_fields.
Qed.

(** What [data] leaves behind on an idle session: a listener and a
    positive counter, or neither. *)
Lemma data_idle (this : DaemonClient) (chunk : Buffer) :
  idle this ->
  listeners (client (data this chunk)) = [] /\
  match registered (data this chunk) with
  | Some _ => exists r, pendingStdinLength (client (data this chunk)) = Num r /\ (0 < r)%Z
  | None => gt_zero (pendingStdinLength (client (data this chunk))) = false
  end.
Proof.
  intros [Hp Hl]. split.
  { by rewrite (proj2 (proj2 (DaemonSpec.data_client_fields EOW_DELIMITER JSON_parse base64_toString this chunk))). }
  unfold Daemon.data, reject, quiet, writeToStdin. rewrite Hp.
  repeat (case_match; simplify_eq; simpl; try done).
  all: try by apply gt_zero_Num.
Qed.

Lemma emit_data_idle_or_relaying (this : DaemonClient) (chunk : Buffer) :
  idle this \/ (exists jsonData r, relaying this jsonData r) ->
  idle (fst (emit_data this chunk)) \/
  exists jsonData r, relaying (fst (emit_data this chunk)) jsonData r.
Proof.
  intros [Hi|(jsonData & r & Hr)].
  - destruct (data_idle this chunk Hi) as [Hl Hreg].
    rewrite DaemonSpec.emit_data_no_listener by apply Hi. simpl.
    destruct (registered (data this chunk)) as [jsonData|]; simpl.
    + destruct Hreg as (r & Hp & Hr). right. exists jsonData, r. by split_and!.
    + left. by split.
  - rewrite (DaemonSpec.emit_data_relaying EOW_DELIMITER JSON_parse base64_toString this jsonData r chunk Hr).
    destruct (Z.leb_spec (r - byteLength chunk) 0) as [Hle|Hgt]; simpl.
    + left. split; [|done]. simpl. by apply Z.ltb_ge.
    + right. exists jsonData, (r - byteLength chunk)%Z. by split_and!.
Qed.

Lemma run_fields (reads : list Buffer) (this : DaemonClient) :
  mServer (fst (run this reads)) = mServer this /\
  mOwner (fst (run this reads)) = mOwner this /\
  (idle this \/ (exists jsonData r, relaying this jsonData r) ->
   idle (fst (run this reads)) \/
   exists jsonData r, relaying (fst (run this reads)) jsonData r).
Proof.
  revert this. induction reads as [|chunk rest IH]; intros this; simpl; [done|].
  pose proof (emit_data_mServer this chunk) as Hs.
  pose proof (DaemonSpec.emit_data_mOwner EOW_DELIMITER JSON_parse base64_toString this chunk) as Ho.
  pose proof (emit_data_idle_or_relaying this chunk) as Hi.
  destruct (emit_data this chunk) as [this' effects]. simpl in *.
  destruct (IH this') as (Hs' & Ho' & Hi').
  destruct (run this' rest) as [this'' effects']. simpl in *.
  split_and!; [congruence|congruence|auto].
Qed.

(** X1.  Whatever is read on a connection, and however it is cut, the
    session is afterwards in one of two states: idle (no inner listener on
    the socket, the counter of pending stdin not positive, the next read is
    decoded as a request), or relaying for exactly one request, with one
    inner listener and a positive counter.  The server and the owner it was
    made with never change. *)
Theorem session_is_idle_or_relaying (server : bool) (owner : jsstring)
    (reads : list Buffer) :
  let this := fst (run (new_DaemonClient server owner) reads) in
  mServer this = server /\ mOwner this = owner /\
  (idle this \/ exists jsonData r, relaying this jsonData r).
Proof.
  destruct (run_fields reads (new_DaemonClient server owner)) as (Hs & Ho & Hi).
  simpl. split_and!; [done..|]. apply Hi. left. by split.
Qed.

(** ** While stdin is relayed *)

(** X2.  While the session relays stdin, every read is payload, whatever
    it holds: as long as the reads bring fewer bytes than are pending, each
    one is pushed to stdin as it is and counted, and nothing else happens.
    No read is decoded as a request, so that nothing is written to the
    client, nothing is dispatched, and the server is not closed, even by a
    read that holds the interrupt request of the owner. *)
Theorem relay_takes_every_read_as_payload (this : DaemonClient)
    (jsonData : IDaemonResponse) (r : Z) (reads : list Buffer) :
  relaying this jsonData r ->
  (byteLength (concat reads) < r)%Z ->
  run this reads =
    (after_relay this (r - byteLength (concat reads)) [jsonData], map StdinPush reads) /\
  dispatched (snd (run this reads)) = [] /\
  listening_after true (snd (run this reads)) = true.
Proof.
  intros Hr Hb.
  assert (run this reads =
    (after_relay this (r - byteLength (concat reads)) [jsonData], map StdinPush reads)) as ->.
  { revert this r Hr Hb. induction reads as [|c reads IH]; intros this r Hr Hb; simpl in *.
    - change (byteLength []) with 0%Z. by rewrite Z.sub_0_r, (after_relay_same this jsonData r).
    - rewrite DaemonSpec.byteLength_app in *.
      pose proof (DaemonSpec.byteLength_nonneg (concat reads)).
      rewrite (DaemonSpec.emit_data_relaying EOW_DELIMITER JSON_parse base64_toString this jsonData r c Hr).
      rewrite (proj2 (Z.leb_gt _ _)) by lia.
      rewrite (IH (after_relay this (r - byteLength c) [jsonData]) (r - byteLength c)%Z).
      + unfold after_relay. simpl. do 3 f_equal. lia.
      + unfold relaying. simpl. split_and!; [done..|lia].
      + lia. }
  split; [done|]. simpl. clear. unfold listening_after.
  induction reads as [|c reads IH]; [done|]. simpl in *. by destruct IH as [-> ->].
Qed.

(** ** Requests at the edges of the protocol *)



(** X5.  On a session that was made without a server, the interrupt
    request of the owner has no effect at all: nothing is written, the
    connection is not ended, the session is unchanged. *)
Theorem interrupt_without_server_is_ignored (this : DaemonClient) (chunk : Buffer)
    (jsonData : IDaemonResponse) :
  idle this ->
  mServer this = false ->
  decoded chunk = Some jsonData ->
  authenticated (mOwner this) jsonData ->
  stdin jsonData = Some CTRL_C_CHAR ->
  emit_data this chunk = (this, []).
Proof.
  intros Hi Hs Hd Ha Hc.
  rewrite DaemonSpec.emit_data_no_listener by apply Hi.
  rewrite (DaemonSpec.data_authenticated EOW_DELIMITER JSON_parse base64_toString
             this chunk jsonData) by (done || apply Hi).
  rewrite Hc, Hs. simpl. destruct Hi as [_ Hl].
  by rewrite <- Hl, DaemonSpec.set_listeners_same.
Qed.

(** X6.  A daemon whose owner is the empty string serves nobody: every
    request that can be parsed is answered with a failure response and the
    end of the connection, and is not dispatched.  This holds even for the
    request whose [user] field decodes to the owner's name, the empty
    string, which is told that it supplied no user information. *)
Theorem empty_owner_rejects_every_request (this : DaemonClient) (chunk : Buffer)
    (jsonData : IDaemonResponse) :
  idle this ->
  mOwner this = [] ->
  decoded chunk = Some jsonData ->
  (exists message,
     emit_data this chunk =
       (this, [ClientWrite (DaemonRequest_create {| stderr := message; exitCode := 1 |});
               ClientEnd])) /\
  dispatched (snd (emit_data this chunk)) = [] /\
  (requestUser jsonData = Some (mOwner this) ->
   emit_data this chunk =
     (this, [ClientWrite (DaemonRequest_create {| stderr := no_user_message; exitCode := 1 |});
             ClientEnd])).
Proof.
  intros Hi Ho Hd.
  assert (rejected_identity (mOwner this) jsonData) as Hr.
  { apply DaemonSpec.rejected_iff_not_authenticated. intros [_ Hne]. by apply Hne. }
  destruct (DaemonSpec.data_rejected EOW_DELIMITER JSON_parse base64_toString
              this chunk jsonData (proj1 Hi) Hd Hr) as [message Hm].
  split_and!.
  - exists message. rewrite DaemonSpec.emit_data_no_listener, Hm by apply Hi. simpl.
    destruct Hi as [_ Hl]. by rewrite <- Hl, DaemonSpec.set_listeners_same.
  - by rewrite DaemonSpec.emit_data_no_listener, Hm by apply Hi.
  - intros Hu. rewrite DaemonSpec.emit_data_no_listener by apply Hi.
    unfold Daemon.data. unfold Daemon.decoded in Hd. rewrite (proj1 Hi), Hd, Hu, Ho.
    destruct Hi as [_ Hl]. simpl. by rewrite <- Hl, DaemonSpec.set_listeners_same.
Qed.

(** X7.  What a rejected client is told.  When the [user] field decodes to
    a name that is not empty and is not the owner's, the message on stderr
    quotes that name: [The user '<name>' cannot use this daemon.]; when the
    field is absent, cannot be decoded or decodes to the empty string, the
    message is the one about missing user information. *)
Theorem rejection_message_names_the_user (this : DaemonClient) (chunk : Buffer)
    (jsonData : IDaemonResponse) :
  idle this ->
  decoded chunk = Some jsonData ->
  rejected_identity (mOwner this) jsonData ->
  emit_data this chunk =
    (this,
     [ClientWrite (DaemonRequest_create
        {| stderr :=
             match requestUser jsonData with
             | Some (c :: name) => wrong_user_message (c :: name)
             | _ => no_user_message
             end;
           exitCode := 1 |});
      ClientEnd]).
Proof.
  intros Hi Hd Hr. rewrite DaemonSpec.emit_data_no_listener by apply Hi.
  unfold Daemon.data. unfold Daemon.decoded in Hd. rewrite (proj1 Hi), Hd.
  destruct Hi as [_ Hl]. unfold Daemon.requestUser.
  destruct Hr as [H1|u H1 H2|u H1 H2|u r H1 H2 H3]; rewrite H1; simpl; rewrite ?H2; simpl;
    try by rewrite <- Hl, DaemonSpec.set_listeners_same.
  destruct r as [|c r]; simpl; [by rewrite <- Hl, DaemonSpec.set_listeners_same|].
  rewrite bool_decide_eq_false_2 by done. simpl.
  by rewrite <- Hl, DaemonSpec.set_listeners_same.
Qed.

(** X8.  A read that [JSON.parse] does not accept, such as the first part
    of a request that the transport has cut in two: the promise of [data]
    rejects with the [SyntaxError] and that is all.  Nothing is written to
    the client, the connection is not ended, nothing is pushed or
    dispatched, and the session is unchanged. *)
Theorem unparsable_read_gets_no_answer (this : DaemonClient) (chunk : Buffer) :
  idle this ->
  decoded chunk = None ->
  emit_data this chunk = (this, [Rejected SyntaxError]).
Proof.
  intros Hi Hd. rewrite DaemonSpec.emit_data_no_listener by apply Hi.
  unfold Daemon.data. unfold Daemon.decoded in Hd. rewrite (proj1 Hi), Hd. simpl.
  destruct Hi as [_ Hl]. by rewrite <- Hl, DaemonSpec.set_listeners_same.
Qed.


(** X25.  A connection on which no request authenticates gets nothing
    done.  If every read that can be parsed has an identity that is
    rejected, then over the whole connection, however many reads it has,
    nothing is dispatched, nothing is pushed to stdin, the server is not
    closed, and the session is at the end as it was at the start. *)
Theorem nothing_is_done_without_authentication (this : DaemonClient)
    (reads : list Buffer) :
  idle this ->
  (forall (chunk : Buffer) (jsonData : IDaemonResponse),
     In chunk reads -> decoded chunk = Some jsonData ->
     rejected_identity (mOwner this) jsonData) ->
  fst (run this reads) = this /\
  dispatched (snd (run this reads)) = [] /\
  pushed_bytes (snd (run this reads)) = [] /\
  listening_after true (snd (run this reads)) = true.
Proof.
  intros Hi. unfold listening_after.
  induction reads as [|chunk rest IH]; intros Hr; simpl; [done|].
  assert (exists effects,
            emit_data this chunk = (this, effects) /\ dispatched effects = [] /\
            pushed_bytes effects = [] /\ existsb is_ServerClose effects = false)
    as (effects & -> & Hd & Hp & Hs).
  { destruct (decoded chunk) as [jsonData|] eqn:Ed.
    - destruct (DaemonSpec.data_rejected EOW_DELIMITER JSON_parse base64_toString
                  this chunk jsonData (proj1 Hi) Ed (Hr chunk jsonData (or_introl eq_refl) Ed))
        as [message Hm].
      eexists. rewrite DaemonSpec.emit_data_no_listener, Hm by apply Hi. simpl.
      destruct Hi as [_ Hl]. by rewrite <- Hl, DaemonSpec.set_listeners_same.
    - eexists. rewrite DaemonSpec.emit_data_no_listener by apply Hi.
      unfold Daemon.data. unfold Daemon.decoded in Ed. rewrite (proj1 Hi), Ed. simpl.
      destruct Hi as [_ Hl]. by rewrite <- Hl, DaemonSpec.set_listeners_same. }
  destruct IH as (Hf & Hd' & Hp' & Hs'); [intros c j Hc; apply Hr; by right|].
  destruct (run this rest) as [this' effects']. simpl in *.
  rewrite DaemonSpec.dispatched_app, DaemonSpec.pushed_bytes_app, existsb_app, Hd, Hp, Hs.
  by split_and!.
Qed.

End Session.

(** ** The properties at sample requests, on the platform [Node] *)

Import Samples Scenarios.

Local Abbreviation decoded := (Daemon.decoded Node.EOW_DELIMITER Node.JSON_parse).
Local Abbreviation rejected_identity := (Daemon.rejected_identity Node.base64_toString).
Local Abbreviation authenticated := (Daemon.authenticated Node.base64_toString).

Lemma nobody_rejected (this : DaemonClient) (jsonData : IDaemonResponse) :
  user jsonData = Some (js "bm9ib2R5") -> mOwner this <> js "nobody" ->
  rejected_identity (mOwner this) jsonData.
Proof.
  intros Hu Ho. apply (identity_mismatch _ _ _ (js "bm9ib2R5") (js "nobody"));
    [done | vm_compute; reflexivity | congruence].
Qed.

(** The session that waits for a hundred bytes is sent the interrupt
    request of the owner: it is pushed to stdin. *)
Lemma relay_takes_every_read_as_payload_witness :
  relaying uploading long_upload 100 /\
  (byteLength (concat [interrupt_request]) < 100)%Z /\
  decoded interrupt_request = Some interrupt /\
  Node.run uploading [interrupt_request] =
    (after_relay uploading (100 - byteLength (concat [interrupt_request])) [long_upload],
     map StdinPush [interrupt_request]) /\
  dispatched (snd (Node.run uploading [interrupt_request])) = [] /\
  listening_after true (snd (Node.run uploading [interrupt_request])) = true.
Proof.
  assert (relaying uploading long_upload 100) as Hr
    by (split_and!; vm_compute; reflexivity).
  assert (byteLength (concat [interrupt_request]) < 100)%Z as Hb
    by (vm_compute; reflexivity).
  split_and!; [exact Hr | exact Hb | vm_compute; reflexivity |..];
    apply (relay_takes_every_read_as_payload Node.EOW_DELIMITER Node.JSON_parse
             Node.base64_toString uploading long_upload 100 [interrupt_request] Hr Hb).
Defined.



Lemma interrupt_without_server_is_ignored_witness :
  idle serverless /\ mServer serverless = false /\
  decoded interrupt_request = Some interrupt /\
  authenticated (mOwner serverless) interrupt /\
  stdin interrupt = Some CTRL_C_CHAR /\
  Node.emit_data serverless interrupt_request = (serverless, []).
Proof.
  assert (idle serverless) as Hi by (by split).
  assert (decoded interrupt_request = Some interrupt) as Hd by (vm_compute; reflexivity).
  assert (authenticated (mOwner serverless) interrupt) as Ha
    by (apply DaemonSpec.owner_authenticated; reflexivity).
  split_and!; [exact Hi | reflexivity | exact Hd | exact Ha | reflexivity |].
  exact (interrupt_without_server_is_ignored Node.EOW_DELIMITER Node.JSON_parse
           Node.base64_toString serverless interrupt_request interrupt
           Hi eq_refl Hd Ha eq_refl).
Defined.

Lemma empty_owner_rejects_every_request_witness :
  idle ownerless /\ mOwner ownerless = [] /\
  decoded blank_user_request = Some blank_user /\
  Daemon.requestUser Node.base64_toString blank_user = Some (mOwner ownerless) /\
  (exists message,
     Node.emit_data ownerless blank_user_request =
       (ownerless,
        [ClientWrite (DaemonRequest_create {| stderr := message; exitCode := 1 |});
         ClientEnd])) /\
  dispatched (snd (Node.emit_data ownerless blank_user_request)) = [].
Proof.
  assert (idle ownerless) as Hi by (by split).
  assert (decoded blank_user_request = Some blank_user) as Hd by (vm_compute; reflexivity).
  destruct (empty_owner_rejects_every_request Node.EOW_DELIMITER Node.JSON_parse
              Node.base64_toString ownerless blank_user_request blank_user
              Hi eq_refl Hd) as (H1 & H2 & _).
  split_and!; [exact Hi | reflexivity | exact Hd | vm_compute; reflexivity
              | exact H1 | exact H2].
Defined.

Lemma rejection_message_names_the_user_witness :
  idle session /\
  decoded foreign_request = Some foreign /\
  rejected_identity (mOwner session) foreign /\
  Node.emit_data session foreign_request =
    (session,
     [ClientWrite (DaemonRequest_create
        {| stderr := js "The user 'nobody' cannot use this daemon." ++ [10%N];
           exitCode := 1 |});
      ClientEnd]).
Proof.
  assert (decoded foreign_request = Some foreign) as Hd by (vm_compute; reflexivity).
  assert (rejected_identity (mOwner session) foreign) as Hr
    by (apply nobody_rejected; [reflexivity | vm_compute; discriminate]).
  split_and!; [exact DaemonSpec.session_idle | exact Hd | exact Hr |].
  exact (rejection_message_names_the_user Node.EOW_DELIMITER Node.JSON_parse
           Node.base64_toString session foreign_request foreign
           DaemonSpec.session_idle Hd Hr).
Defined.

Lemma unparsable_read_gets_no_answer_witness :
  idle session /\
  decoded truncated_request = None /\
  Node.emit_data session truncated_request = (session, [Rejected SyntaxError]).
Proof.
  assert (decoded truncated_request = None) as Hd by (vm_compute; reflexivity).
  split_and!; [exact DaemonSpec.session_idle | exact Hd |].
  exact (unparsable_read_gets_no_answer Node.EOW_DELIMITER Node.JSON_parse
           Node.base64_toString session truncated_request DaemonSpec.session_idle Hd).
Defined.


(** Three reads: Ctrl+C of another user, a request without identity, and
    half a request. *)
Lemma nothing_is_done_without_authentication_witness :
  idle session /\
  (forall (chunk : Buffer) (jsonData : IDaemonResponse),
     In chunk [foreign_interrupt_request; anonymous_request; truncated_request] ->
     decoded chunk = Some jsonData -> rejected_identity (mOwner session) jsonData) /\
  fst (Node.run session [foreign_interrupt_request; anonymous_request; truncated_request])
    = session /\
  dispatched
    (snd (Node.run session [foreign_interrupt_request; anonymous_request; truncated_request]))
    = [] /\
  pushed_bytes
    (snd (Node.run session [foreign_interrupt_request; anonymous_request; truncated_request]))
    = [] /\
  listening_after true
    (snd (Node.run session [foreign_interrupt_request; anonymous_request; truncated_request]))
    = true.
Proof.
  assert (forall (chunk : Buffer) (jsonData : IDaemonResponse),
     In chunk [foreign_interrupt_request; anonymous_request; truncated_request] ->
     decoded chunk = Some jsonData -> rejected_identity (mOwner session) jsonData) as Hr.
  { intros chunk jsonData [<-|[<-|[<-|[]]]] Hd; vm_compute in Hd.
    - injection Hd as <-. apply nobody_rejected; [reflexivity | vm_compute; discriminate].
    - injection Hd as <-. by apply identity_absent.
    - discriminate. }
  exact (conj DaemonSpec.session_idle (conj Hr
    (nothing_is_done_without_authentication Node.EOW_DELIMITER Node.JSON_parse
       Node.base64_toString session
       [foreign_interrupt_request; anonymous_request; truncated_request]
       DaemonSpec.session_idle Hr))).
Defined.

End DaemonMore.

(* ===================================================================== *)
(** * The imperative event emitter: watchers, files and deliveries        *)
(* ===================================================================== *)

Module EmitterMore.
Import Platform Emitter.

Ltac run_method := EmitterSpec.run_method.

Lemma same_emitter_refl (w : World) : same_emitter w w.
Proof. by split_and!. Qed.

Lemma same_emitter_trans (w1 w2 w3 : World) :
  same_emitter w1 w2 -> same_emitter w2 w3 -> same_emitter w1 w3.
Proof. unfold same_emitter. intros (?&?&?&?&?) (?&?&?&?&?). split_and!; congruence. Qed.

Lemma keeps_files_refl (f : FileSystem) : keeps_files f f.
Proof. by split. Qed.

Lemma keeps_files_trans (f1 f2 f3 : FileSystem) :
  keeps_files f1 f2 -> keeps_files f2 f3 -> keeps_files f1 f3.
Proof. intros [Hd1 Hf1] [Hd2 Hf2]. split; [set_solver|auto]. Qed.

Lemma watched_same (w w' : World) :
  subscriptions w' = subscriptions w -> watchers w' = watchers w ->
  watched w -> watched w'.
Proof. unfold watched. intros -> ->. done. Qed.

Lemma watched_close_watcher (id : nat) (w : World) :
  watched w -> watched (close_watcher id w).
Proof.
  intros Hw i x. unfold close_watcher. simpl.
  destruct (decide (id = i)) as [<-|Hne].
  - rewrite list_lookup_alter_eq. destruct (watchers w !! id); simpl; [|done].
    by intros [= <-].
  - rewrite list_lookup_alter_ne by done. apply Hw.
Qed.

(** ** What the helpers do to the file system *)

Lemma ensureEventsDirExists_frame (dir : string) (w : World) :
  same_emitter w (fst (ensureEventsDirExists dir w)) /\
  keeps_files (fs w) (fs (fst (ensureEventsDirExists dir w))) /\
  files (fs (fst (ensureEventsDirExists dir w))) = files (fs w) /\
  match snd (ensureEventsDirExists dir w) with
  | Returned _ => existsSync (fs (fst (ensureEventsDirExists dir w))) dir = true
  | Thrown e =>
    fst (ensureEventsDirExists dir w) = w /\
    existsSync (fs w) dir = false /\ (Path.dirname dir ∉ dirs (fs w)) /\
    e = ImperativeError ("Unable to create '.events' directory. Path: " ++ dir)
          (Some (ENOENT dir))
  end.
Proof.
  unfold ensureEventsDirExists. run_method.
  destruct (existsSync (fs w) dir) eqn:Ex; simpl.
  { split_and!; try done; try apply same_emitter_refl; apply keeps_files_refl. }
  unfold mkdirSync. rewrite Ex.
  case_bool_decide as Hp; simpl.
  - split_and!; try done.
    + split; simpl; [set_solver|done].
    + unfold existsSync. simpl. rewrite bool_decide_eq_true_2; [done|set_solver].
  - split_and!; try done; try apply same_emitter_refl; apply keeps_files_refl.
Qed.

Lemma ensureEventFileExists_frame (path : string) (w : World) :
  same_emitter w (fst (ensureEventFileExists path w)) /\
  keeps_files (fs w) (fs (fst (ensureEventFileExists path w))) /\
  (forall p, p <> path ->
     files (fs (fst (ensureEventFileExists path w))) !! p = files (fs w) !! p) /\
  match snd (ensureEventFileExists path w) with
  | Returned _ => existsSync (fs (fst (ensureEventFileExists path w))) path = true
  | Thrown e => fst (ensureEventFileExists path w) = w
  end.
Proof.
  unfold ensureEventFileExists. run_method.
  destruct (existsSync (fs w) path) eqn:Ex; simpl.
  { split_and!; try done; try apply same_emitter_refl; apply keeps_files_refl. }
  unfold writeFileSync.
  case_bool_decide as Hd; simpl;
    [split_and!; try done; try apply same_emitter_refl; apply keeps_files_refl|].
  case_bool_decide as Hp; simpl;
    [|split_and!; try done; try apply same_emitter_refl; apply keeps_files_refl].
  apply orb_false_iff in Ex as [_ Hf]. apply bool_decide_eq_false in Hf.
  split_and!; try done.
  - split; simpl; [done|]. intros p c Hc.
    destruct (decide (p = path)) as [->|Hne]; [|by rewrite lookup_insert_ne].
    destruct Hf. by rewrite Hc.
  - intros p Hne. by rewrite lookup_insert_ne.
  - unfold existsSync. simpl. apply orb_true_iff. right.
    apply bool_decide_eq_true. by rewrite lookup_insert_eq.
Qed.

Lemma ensure_existing (path : string) (w : World) :
  existsSync (fs w) path = true ->
  ensureEventsDirExists path w = (w, Returned tt) /\
  ensureEventFileExists path w = (w, Returned tt).
Proof.
  intros Hx. unfold ensureEventsDirExists, ensureEventFileExists. run_method.
  by rewrite Hx.
Qed.

(** X23.  The two helpers that make sure a directory and a file exist
    create at most once.  After either has returned, the path exists and
    every directory and file that was there is still there with its
    contents; if the path existed already (as a file or as a directory,
    the helpers do not tell them apart) nothing at all has changed; and
    calling either helper again changes nothing and returns. *)
Theorem ensure_helpers_create_at_most_once (path : string) (w w' : World) :
  ensureEventsDirExists path w = (w', Returned tt) \/
  ensureEventFileExists path w = (w', Returned tt) ->
  existsSync (fs w') path = true /\
  keeps_files (fs w) (fs w') /\
  same_emitter w w' /\
  (existsSync (fs w) path = true -> w' = w) /\
  ensureEventsDirExists path w' = (w', Returned tt) /\
  ensureEventFileExists path w' = (w', Returned tt).
Proof.
  intros H.
  assert (existsSync (fs w') path = true /\ keeps_files (fs w) (fs w') /\ same_emitter w w')
    as (Hx & Hk & He).
  { destruct H as [H|H].
    - pose proof (ensureEventsDirExists_frame path w) as Hf. rewrite H in Hf.
      simpl in Hf. tauto.
    - pose proof (ensureEventFileExists_frame path w) as Hf. rewrite H in Hf.
      simpl in Hf. tauto. }
  split_and!; try done; try by apply ensure_existing.
  intros Hw. destruct (ensure_existing path w Hw) as [H1 H2].
  destruct H as [H|H]; congruence.
Qed.

Section Emitter.

Variable cliHome : string.
Variable homedir : string.
Variable ImperativeUserEvents : list string.
Variable ImperativeSharedEvents : list string.

Local Abbreviation getEventDir :=
  (Emitter.getEventDir cliHome homedir ImperativeUserEvents ImperativeSharedEvents).
Local Abbreviation getSharedEventDir := (Emitter.getSharedEventDir cliHome).
Local Abbreviation isCustomEvent :=
  (Emitter.isCustomEvent ImperativeUserEvents ImperativeSharedEvents).
Local Abbreviation setupWatcher :=
  (Emitter.setupWatcher cliHome homedir ImperativeUserEvents ImperativeSharedEvents).
Local Abbreviation listener :=
  (Emitter.listener cliHome homedir ImperativeUserEvents ImperativeSharedEvents).
Local Abbreviation fire :=
  (Emitter.fire cliHome homedir ImperativeUserEvents ImperativeSharedEvents).
Local Abbreviation subscribe :=
  (Emitter.subscribe cliHome homedir ImperativeUserEvents ImperativeSharedEvents).
Local Abbreviation emitEvent :=
  (Emitter.emitEvent cliHome homedir ImperativeUserEvents ImperativeSharedEvents).
Local Abbreviation emitCustomEvent :=
  (Emitter.emitCustomEvent cliHome ImperativeUserEvents ImperativeSharedEvents).
Local Abbreviation use :=
  (Emitter.use cliHome homedir ImperativeUserEvents ImperativeSharedEvents).
Local Abbreviation uses :=
  (Emitter.uses cliHome homedir ImperativeUserEvents ImperativeSharedEvents).

Local Abbreviation eventFile :=
  (Emitter.eventFile cliHome homedir ImperativeUserEvents ImperativeSharedEvents).
Local Abbreviation new_watcher :=
  (Emitter.new_watcher cliHome homedir ImperativeUserEvents ImperativeSharedEvents).

Lemma setupWatcher_frame (eventType : string) (cbs : list Callback) (w w' : World)
    (r : Result nat) :
  setupWatcher eventType cbs w = (w', r) ->
  initialized w' = initialized w /\ eventTimes w' = eventTimes w /\
  appName w' = appName w /\ keeps_files (fs w) (fs w') /\
  (forall p, p <> eventFile eventType -> files (fs w') !! p = files (fs w) !! p) /\
  match r with
  | Returned id =>
    id = length (watchers w) /\
    subscriptions w' = <[eventType := (id, cbs)]> (subscriptions w) /\
    watchers w' = watchers w ++ [new_watcher eventType cbs] /\
    existsSync (fs w') (eventFile eventType) = true
  | Thrown _ => subscriptions w' = subscriptions w /\ watchers w' = watchers w
  end.
Proof.
  unfold Emitter.setupWatcher, bind at 1.
  pose proof (ensureEventsDirExists_frame (getEventDir eventType) w) as H1.
  destruct (ensureEventsDirExists _ w) as [w1 [[]|e]]; simpl in H1;
    destruct H1 as ((Hi1 & Hs1 & Ht1 & Ha1 & Hw1) & Hk1 & Hf1 & H1).
  2: { intros [= <- <-]. split_and!; try done. intros p _. by rewrite Hf1. }
  unfold bind at 1.
  pose proof (ensureEventFileExists_frame (eventFile eventType) w1) as H2.
  unfold Emitter.eventFile in *.
  destruct (ensureEventFileExists _ w1) as [w2 [[]|e]]; simpl in H2;
    destruct H2 as ((Hi2 & Hs2 & Ht2 & Ha2 & Hw2) & Hk2 & Hf2 & H2).
  2: { intros [= <- <-]. split_and!; try congruence; try (by eapply keeps_files_trans). }
  unfold bind at 1, fs_watch. rewrite H2. run_method. intros [= <- <-]. simpl.
  split_and!; try congruence.
  - by eapply keeps_files_trans.
  - intros p Hp. by rewrite Hf2, Hf1.
  - unfold Emitter.new_watcher, Emitter.eventFile. congruence.
Qed.

(** ** The open watchers *)

(** Every open watcher is recorded, except that there is none for the
    event [eventType]. *)
Local Abbreviation watched_except eventType w :=
  (forall (id : nat) (x : FSWatcher),
     watchers w !! id = Some x -> closed x = false ->
     Emitter.eventType x <> eventType /\
     subscriptions w !! Emitter.eventType x = Some (id, callbacks x)).

Lemma setupWatcher_watched (eventType : string) (cbs : list Callback) (w : World) :
  watched_except eventType w -> watched (fst (setupWatcher eventType cbs w)).
Proof.
  intros Hw.
  pose proof (setupWatcher_frame eventType cbs w) as H.
  destruct (setupWatcher eventType cbs w) as [w' [id|e]];
    destruct (H _ _ eq_refl) as (_ & _ & _ & _ & _ & H'); simpl; clear H.
  - destruct H' as (-> & Hs & Hws & _). intros i x. rewrite Hs, Hws.
    intros Hi Hc. destruct (decide (i < length (watchers w))) as [Hlt|Hge].
    + rewrite lookup_app_l in Hi by done.
      destruct (Hw i x Hi Hc) as [Hne Hr]. by rewrite lookup_insert_ne.
    + rewrite lookup_app_r in Hi by lia.
      destruct (i - length (watchers w)) as [|n] eqn:En; simpl in Hi; [|done].
      injection Hi as <-. simpl. rewrite lookup_insert_eq. do 2 f_equal. lia.
  - destruct H' as [Hs Hws]. intros i x. rewrite Hs, Hws. intros Hi Hc.
    by destruct (Hw i x Hi Hc).
Qed.

(** The world [subscribe] leaves behind. *)
Lemma subscribe_fst (eventType : string) (cb : Callback) (w : World) :
  fst (subscribe eventType cb w) =
    if initialized w then
      match subscriptions w !! eventType with
      | Some (watcherToClose, cbs) =>
        fst (setupWatcher eventType (cbs ++ [cb]) (close_watcher watcherToClose w))
      | None => fst (setupWatcher eventType [cb] w)
      end
    else w.
Proof.
  unfold Emitter.subscribe, ensureClassInitialized. run_method.
  destruct (initialized w); simpl; [|done].
  destruct (subscriptions w !! eventType) as [[watcherToClose cbs]|]; simpl;
    by destruct (setupWatcher _ _ _) as [w1 [id|e]].
Qed.

Lemma subscribe_watched (eventType : string) (cb : Callback) (w : World) :
  watched w -> watched (fst (subscribe eventType cb w)).
Proof.
  intros Hw. rewrite subscribe_fst.
  destruct (initialized w); [|done].
  destruct (subscriptions w !! eventType) as [[old cbs]|] eqn:Es.
  - apply setupWatcher_watched. intros i x. unfold close_watcher. simpl.
    destruct (decide (old = i)) as [<-|Hne].
    + rewrite list_lookup_alter_eq. destruct (watchers w !! old); simpl; [|done].
      by intros [= <-].
    + rewrite list_lookup_alter_ne by done. intros Hi Hc.
      pose proof (Hw i x Hi Hc) as Hr. split; [|done].
      intros He. rewrite He, Es in Hr. congruence.
  - apply setupWatcher_watched. intros i x Hi Hc.
    pose proof (Hw i x Hi Hc) as Hr. split; [|done].
    intros He. rewrite He, Es in Hr. congruence.
Qed.

Lemma unsubscribe_watched (eventType : string) (w : World) :
  watched w -> watched (fst (unsubscribe eventType w)).
Proof.
  intros Hw. unfold unsubscribe, ensureClassInitialized. run_method.
  destruct (initialized w); simpl; [|done].
  destruct (subscriptions w !! eventType) as [[old cbs]|] eqn:Es; simpl.
  - assert (watched (set_subscriptions (close_watcher old w)
              (delete eventType (subscriptions w)))) as Hw'.
    { intros i x. simpl.
      destruct (decide (old = i)) as [<-|Hne].
      - rewrite list_lookup_alter_eq. destruct (watchers w !! old); simpl; [|done].
        by intros [= <-].
      - rewrite list_lookup_alter_ne by done. intros Hi Hc.
        pose proof (Hw i x Hi Hc) as Hr.
        rewrite lookup_delete_ne; [done|].
        intros He. rewrite <- He, Es in Hr. congruence. }
    case_bool_decide; simpl; [|done]. by eapply watched_same; [..|exact Hw'].
  - case_bool_decide; simpl; [|done]. by eapply watched_same; [..|exact Hw].
Qed.

(** ** Emitting *)

(** [writeEvent] acts on the file system alone, and there on the
    directory and on the file of the event. *)
Lemma writeEvent_frame (location : string) (event : EventJson) (w w' : World)
    (r : Result unit) :
  writeEvent location event w = (w', r) ->
  same_emitter w w' /\ dirs (fs w) ⊆ dirs (fs w') /\
  (forall p, p <> Path.join [location; type event] ->
     files (fs w') !! p = files (fs w) !! p).
Proof.
  unfold writeEvent, bind at 1.
  pose proof (ensureEventsDirExists_frame location w) as H1.
  destruct (ensureEventsDirExists location w) as [w1 [[]|e1]]; simpl in H1;
    destruct H1 as (He1 & [Hd1 _] & Hf1 & H1).
  2: { intros [= <- <-]. destruct H1 as (-> & _).
       split_and!; [apply same_emitter_refl|done..]. }
  run_method. unfold writeFileSync.
  case_bool_decide; simpl; [intros [= <- <-]; split_and!; try done; intros; by rewrite Hf1|].
  case_bool_decide; simpl; [|intros [= <- <-]; split_and!; try done; intros; by rewrite Hf1].
  intros [= <- <-]. split_and!; try done. simpl. intros p Hp.
  by rewrite lookup_insert_ne, Hf1.
Qed.

Lemma emitEvent_frame (eventType now : string) (w w' : World) (r : Result unit) :
  emitEvent eventType now w = (w', r) ->
  same_emitter w w' /\ dirs (fs w) ⊆ dirs (fs w') /\
  (forall p, p <> eventFile eventType -> files (fs w') !! p = files (fs w) !! p).
Proof.
  unfold Emitter.emitEvent, initEvent, bind at 1. unfold bind at 1.
  destruct (initialized w) eqn:Hi;
    [rewrite (EmitterSpec.ensureClassInitialized_true w Hi)
    |rewrite (EmitterSpec.ensureClassInitialized_false w Hi);
     intros [= <- <-]; split_and!; [apply same_emitter_refl|done..]].
  unfold ret at 1.
  destruct (isCustomEvent eventType); simpl;
    [intros [= <- <-]; split_and!; [apply same_emitter_refl|done..]|].
  apply (writeEvent_frame (getEventDir eventType)
           {| time := now; type := eventType; loc := EmptyString |} w).
Qed.

Lemma emitCustomEvent_frame (eventType now : string) (w w' : World) (r : Result unit) :
  emitCustomEvent eventType now w = (w', r) ->
  same_emitter w w' /\ dirs (fs w) ⊆ dirs (fs w') /\
  (forall p, p <> eventFile eventType -> files (fs w') !! p = files (fs w) !! p).
Proof.
  unfold Emitter.emitCustomEvent, initEvent, bind at 1. unfold bind at 1.
  destruct (initialized w) eqn:Hi;
    [rewrite (EmitterSpec.ensureClassInitialized_true w Hi)
    |rewrite (EmitterSpec.ensureClassInitialized_false w Hi);
     intros [= <- <-]; split_and!; [apply same_emitter_refl|done..]].
  unfold ret at 1.
  destruct (isCustomEvent eventType) eqn:Ec; simpl;
    [|intros [= <- <-]; split_and!; [apply same_emitter_refl|done..]].
  assert (getEventDir eventType = getSharedEventDir) as Hdir.
  { unfold Emitter.getEventDir. unfold Emitter.isCustomEvent in Ec.
    by destruct (isUserEvent _ eventType), (isSharedEvent _ eventType). }
  unfold Emitter.eventFile. rewrite Hdir.
  apply (writeEvent_frame getSharedEventDir
           {| time := now; type := eventType; loc := EmptyString |} w).
Qed.

(** A notification changes the last times and nothing else. *)
Lemma fire_frame (id : nat) (w : World) :
  initialized (fst (fire id w)) = initialized w /\
  subscriptions (fst (fire id w)) = subscriptions w /\
  appName (fst (fire id w)) = appName w /\
  fs (fst (fire id w)) = fs w /\
  watchers (fst (fire id w)) = watchers w.
Proof.
  unfold Emitter.fire, Emitter.listener. run_method.
  destruct (watchers w !! id) as [x|]; simpl; [|done].
  destruct (closed x); simpl; [done|].
  destruct (readFileSync _ _); simpl; [done|].
  destruct (contents_time _); simpl; [|done].
  by case_bool_decide.
Qed.

Lemma use_watched (w : World) (u : Use) : watched w -> watched (use w u).
Proof.
  intros Hw. destruct u as [name|e cb|e|e now|e now|id|this|path contents]; simpl.
  - unfold initialize. run_method. by destruct (initialized w).
  - by apply subscribe_watched.
  - by apply unsubscribe_watched.
  - destruct (emitEvent e now w) as [w' r] eqn:E.
    apply emitEvent_frame in E as ((_ & Hs & _ & _ & Hws) & _). by eapply watched_same.
  - destruct (emitCustomEvent e now w) as [w' r] eqn:E.
    apply emitCustomEvent_frame in E as ((_ & Hs & _ & _ & Hws) & _).
    by eapply watched_same.
  - destruct (fire_frame id w) as (_ & Hs & _ & _ & Hws). by eapply watched_same.
  - destruct this as [id|]; simpl; [by apply watched_close_watcher|done].
  - done.
Qed.

Lemma uses_watched (us : list Use) (w : World) : watched w -> watched (uses w us).
Proof.
  revert w. induction us as [|u us IH]; intros w Hw; [done|].
  apply IH. by apply use_watched.
Qed.

(** X10.  Whatever a process does with the emitter ([initialize],
    [subscribe], [unsubscribe], the two emit methods, native notifications,
    [close] of a returned action, with writes of other processes in
    between, in any order, returning or throwing), every watcher that is
    open is the one the subscription map records for its event, with the
    callbacks recorded there.  So an event never has two open watchers. *)
Theorem open_watcher_is_the_recorded_one (f : FileSystem) (us : list Use) :
  let w := uses (fresh f) us in
  watched w /\
  forall (id1 id2 : nat) (x1 x2 : FSWatcher),
    watchers w !! id1 = Some x1 /\ closed x1 = false ->
    watchers w !! id2 = Some x2 /\ closed x2 = false ->
    Emitter.eventType x1 = Emitter.eventType x2 -> id1 = id2 /\ x1 = x2.
Proof.
  assert (watched (uses (fresh f) us)) as Hw by (by apply uses_watched).
  simpl. split; [done|].
  intros id1 id2 x1 x2 [H1 Hc1] [H2 Hc2] He.
  pose proof (Hw id1 x1 H1 Hc1) as Hr1. pose proof (Hw id2 x2 H2 Hc2) as Hr2.
  rewrite He, Hr2 in Hr1. injection Hr1 as <- _. split; [done|congruence].
Qed.

(** ** Subscribing again, and unsubscribing *)

Lemma subscribe_result (eventType : string) (cb : Callback) (w w' : World)
    (r : Result IImperativeRegisteredAction) :
  initialized w = true ->
  subscribe eventType cb w = (w', r) ->
  exists (cbs : list Callback) (w0 : World) (r0 : Result nat),
    (cbs, w0) =
      match subscriptions w !! eventType with
      | Some (watcherToClose, old) => (old ++ [cb], close_watcher watcherToClose w)
      | None => ([cb], w)
      end /\
    setupWatcher eventType cbs w0 = (w', r0) /\
    r = match r0 with
        | Returned _ => Returned {| close := FSWatcher_close |}
        | Thrown e => Thrown e
        end.
Proof.
  intros Hi. unfold Emitter.subscribe, bind at 1.
  rewrite (EmitterSpec.ensureClassInitialized_true w Hi). run_method.
  destruct (subscriptions w !! eventType) as [[watcherToClose old]|]; simpl.
  - destruct (setupWatcher _ _ _) as [w1 [id|e]] eqn:E; intros [= <- <-];
      by eexists _, _, _.
  - destruct (setupWatcher _ _ _) as [w1 [id|e]] eqn:E; intros [= <- <-];
      by eexists _, _, _.
Qed.

Lemma subscribe_initialized (eventType : string) (cb : Callback) (w w' : World)
    (action : IImperativeRegisteredAction) :
  subscribe eventType cb w = (w', Returned action) -> initialized w = true.
Proof.
  unfold Emitter.subscribe, bind at 1, ensureClassInitialized. run_method.
  by destruct (initialized w).
Qed.

(** X11.  [subscribe] to an event that has a subscription: the watcher
    recorded for the event is closed, a new one is opened whose callbacks
    are the old ones followed by the new one, it is the one now recorded,
    and the last time delivered for the event is kept.  A notification
    that still comes in for the old watcher calls nobody. *)
Theorem subscribe_again_restarts_the_watch (eventType : string) (cb : Callback)
    (w w' : World) (action : IImperativeRegisteredAction) (old : nat) (cbs : list Callback) :
  subscriptions w !! eventType = Some (old, cbs) ->
  old < length (watchers w) ->
  subscribe eventType cb w = (w', Returned action) ->
  subscriptions w' = <[eventType := (length (watchers w), cbs ++ [cb])]> (subscriptions w) /\
  watchers w' = watchers (close_watcher old w) ++ [new_watcher eventType (cbs ++ [cb])] /\
  eventTimes w' = eventTimes w /\
  fire old w' = (w', Returned []).
Proof.
  intros Hs Hold H.
  pose proof (subscribe_initialized _ _ _ _ _ H) as Hi.
  destruct (subscribe_result _ _ _ _ _ Hi H) as (cbs' & w0 & r0 & Hc & Hsetup & Hr).
  rewrite Hs in Hc. injection Hc as -> ->.
  destruct r0 as [id|e]; [|done].
  apply setupWatcher_frame in Hsetup as (_ & Ht & _ & _ & _ & -> & Hs' & Hws & _).
  unfold close_watcher in *. simpl in *. rewrite length_alter in *.
  split_and!; try done.
  unfold Emitter.fire, bind, get. rewrite Hws, lookup_app_l by (by rewrite length_alter).
  rewrite list_lookup_alter_eq.
  destruct (lookup_lt_is_Some_2 (watchers w) old Hold) as [x ->]. done.
Qed.

Lemma unsubscribe_absent (eventType : string) (w : World) :
  initialized w = true ->
  subscriptions w !! eventType = None -> eventTimes w !! eventType = None ->
  unsubscribe eventType w = (w, Returned tt).
Proof.
  intros Hi Hs Ht. unfold unsubscribe, bind at 1.
  rewrite (EmitterSpec.ensureClassInitialized_true w Hi). run_method.
  rewrite Hs. simpl. rewrite Ht. rewrite bool_decide_eq_false_2; [done|].
  by intros [? ?].
Qed.

(** X12.  On an initialized emitter [unsubscribe] always returns.  It
    leaves no entry and no last time for the event, whether there was one
    or not, and leaves the file system as it is: the file of the event is
    not deleted.  A notification that still comes in for the watcher it has
    closed calls nobody, and a second [unsubscribe] changes nothing. *)
Theorem unsubscribe_forgets_the_event (eventType : string) (w : World) :
  initialized w = true ->
  exists w',
    unsubscribe eventType w = (w', Returned tt) /\
    subscriptions w' = delete eventType (subscriptions w) /\
    eventTimes w' = delete eventType (eventTimes w) /\
    fs w' = fs w /\
    (forall id cbs,
       subscriptions w !! eventType = Some (id, cbs) -> fire id w' = (w', Returned [])) /\
    unsubscribe eventType w' = (w', Returned tt).
Proof.
  intros Hi.
  assert (exists w',
    unsubscribe eventType w = (w', Returned tt) /\
    initialized w' = true /\
    subscriptions w' = delete eventType (subscriptions w) /\
    eventTimes w' = delete eventType (eventTimes w) /\
    fs w' = fs w /\
    watchers w' =
      match subscriptions w !! eventType with
      | Some (id, _) => watchers (close_watcher id w)
      | None => watchers w
      end) as (w' & Hu & Hi' & Hs' & Ht' & Hf' & Hw').
  { unfold unsubscribe, bind at 1.
    rewrite (EmitterSpec.ensureClassInitialized_true w Hi). run_method.
    destruct (subscriptions w !! eventType) as [[id cbs]|] eqn:Es; simpl;
      case_bool_decide as Ht; simpl; eexists; (split; [done|]); simpl;
      split_and!; try done.
    - symmetry. apply delete_id. by apply eq_None_not_Some.
    - symmetry. by apply delete_id.
    - symmetry. by apply delete_id.
    - symmetry. apply delete_id. by apply eq_None_not_Some. }
  exists w'. split_and!; try done.
  - intros id cbs Es. rewrite Es in Hw'.
    unfold Emitter.fire, bind, get. rewrite Hw'. unfold close_watcher. simpl.
    rewrite list_lookup_alter_eq. by destruct (watchers w !! id).
  - apply unsubscribe_absent; [done|..].
    + by rewrite Hs', lookup_delete_eq.
    + by rewrite Ht', lookup_delete_eq.
Qed.

(** ** Emitting and delivering *)

Lemma custom_event_dir (eventType : string) :
  isCustomEvent eventType = true -> getEventDir eventType = getSharedEventDir.
Proof.
  unfold Emitter.getEventDir, Emitter.isCustomEvent.
  by destruct (isUserEvent _ eventType), (isSharedEvent _ eventType).
Qed.

(** Either emit method, when it returns, has written the time to the file
    of the event. *)
Lemma emit_writes (eventType now : string) (w w' : World) :
  emitEvent eventType now w = (w', Returned tt) \/
  emitCustomEvent eventType now w = (w', Returned tt) ->
  exists location,
    files (fs w') !! eventFile eventType =
      Some (JsonText {| time := now; type := eventType; loc := location |}).
Proof.
  intros [H|H].
  - apply EmitterSpec.emitEvent_writes in H as [_ H]. eauto.
  - apply EmitterSpec.emitCustomEvent_writes in H as [Hc H].
    unfold Emitter.eventFile. rewrite (custom_event_dir _ Hc). eauto.
Qed.

(** X13.  Emitting is a write to the file system and nothing more: whether
    [emitEvent] or [emitCustomEvent] returns or throws, the subscriptions,
    the last times delivered, the watchers and the rest of the emitter are
    as before (no callback is called), every directory is still there, and
    no file but the file of the event has changed.  When the method
    returns, that file holds the JSON of the event with the time of the
    emission. *)
Theorem emit_only_writes_the_event_file (eventType now : string) (w w' : World)
    (r : Result unit) :
  emitEvent eventType now w = (w', r) \/ emitCustomEvent eventType now w = (w', r) ->
  same_emitter w w' /\
  dirs (fs w) ⊆ dirs (fs w') /\
  (forall p, p <> eventFile eventType -> files (fs w') !! p = files (fs w) !! p) /\
  (r = Returned tt ->
   exists j, files (fs w') !! eventFile eventType = Some (JsonText j) /\
             time j = now /\ type j = eventType).
Proof.
  intros H.
  assert (same_emitter w w' /\ dirs (fs w) ⊆ dirs (fs w') /\
          (forall p, p <> eventFile eventType -> files (fs w') !! p = files (fs w) !! p))
    as (H1 & H2 & H3).
  { destruct H as [H|H]; [by eapply emitEvent_frame|by eapply emitCustomEvent_frame]. }
  split_and!; try done.
  intros ->. destruct (emit_writes _ _ _ _ H) as [location Hf]. eauto.
Qed.

(** X14.  An emission reaches the subscribers of this process through the
    file: after [emitEvent] or [emitCustomEvent] has returned, a
    notification for the open watcher of the event calls its callbacks, in
    the order they are recorded, and records the time of the emission as
    the last one delivered; unless that time is the last one delivered
    already (an emission at the same clock reading as the one before),
    in which case nobody is called. *)
Theorem emission_is_delivered_once_per_time (eventType now : string) (w w1 : World)
    (id : nat) (x : FSWatcher) :
  emitEvent eventType now w = (w1, Returned tt) \/
  emitCustomEvent eventType now w = (w1, Returned tt) ->
  watchers w !! id = Some x ->
  closed x = false ->
  Emitter.eventType x = eventType ->
  fire id w1 =
    if bool_decide (eventTimes w !! eventType = Some now) then (w1, Returned [])
    else (set_eventTimes w1 (<[eventType := now]> (eventTimes w1)), Returned (callbacks x)).
Proof.
  intros H Hx Hc He.
  destruct (emit_writes _ _ _ _ H) as [location Hf].
  assert (same_emitter w w1) as (_ & _ & Ht & _ & Hws).
  { destruct H as [H|H]; [by eapply emitEvent_frame|by eapply emitCustomEvent_frame]. }
  unfold Emitter.fire, bind, get. rewrite Hws, Hx, Hc, He.
  rewrite (EmitterSpec.listener_spec cliHome homedir ImperativeUserEvents
             ImperativeSharedEvents eventType (callbacks x) w1
             (JsonText {| time := now; type := eventType; loc := location |}) now).
  - by rewrite Ht.
  - unfold readFileSync. unfold Emitter.eventFile in Hf. by rewrite Hf.
  - done.
Qed.

(** X24.  A notification for an open watcher whose file cannot be read
    (it has been removed, or a directory has taken its place) or does not
    hold JSON: the listener throws, the error of the file system or the
    [SyntaxError] of [JSON.parse] as it is.  No callback is called and the
    last times delivered are as before. *)
Theorem notification_throws_when_the_file_is_unreadable (id : nat) (x : FSWatcher)
    (w : World) :
  watchers w !! id = Some x ->
  closed x = false ->
  files (fs w) !! eventFile (Emitter.eventType x) = None \/
  files (fs w) !! eventFile (Emitter.eventType x) = Some OtherText ->
  fire id w =
    (w, Thrown (match files (fs w) !! eventFile (Emitter.eventType x) with
                | Some _ => SyntaxError
                | None =>
                  SystemException
                    (if bool_decide (eventFile (Emitter.eventType x) ∈ dirs (fs w))
                     then EISDIR (eventFile (Emitter.eventType x))
                     else ENOENT (eventFile (Emitter.eventType x)))
                end)).
Proof.
  intros Hx Hc Hf. unfold Emitter.fire, Emitter.listener, readFileSync. run_method.
  rewrite Hx. simpl. rewrite Hc. unfold Emitter.eventFile in *.
  destruct Hf as [-> | ->]; simpl; [|done]. by case_bool_decide.
Qed.

(** ** Subscribing and the file of the event *)

Lemma subscribe_frame (eventType : string) (cb : Callback) (w w' : World)
    (r : Result IImperativeRegisteredAction) :
  subscribe eventType cb w = (w', r) ->
  keeps_files (fs w) (fs w') /\
  (forall p, p <> eventFile eventType -> files (fs w') !! p = files (fs w) !! p) /\
  eventTimes w' = eventTimes w /\
  (forall action, r = Returned action -> existsSync (fs w') (eventFile eventType) = true).
Proof.
  intros H. destruct (initialized w) eqn:Hi.
  2: { revert H. unfold Emitter.subscribe, bind at 1.
       rewrite (EmitterSpec.ensureClassInitialized_false w Hi). intros [= <- <-].
       split_and!; try done; apply keeps_files_refl. }
  destruct (subscribe_result _ _ _ _ _ Hi H) as (cbs' & w0 & r0 & Hc & Hsetup & ->).
  assert (fs w0 = fs w /\ eventTimes w0 = eventTimes w) as [Hf0 Ht0].
  { revert Hc. by destruct (subscriptions w !! eventType) as [[old cbs]|]; intros [= -> ->]. }
  apply setupWatcher_frame in Hsetup as (_ & Ht & _ & Hk & Hf & Hr).
  rewrite Hf0 in *. split_and!; [done|exact Hf|congruence|].
  intros action Ha. destruct r0 as [id|e]; [|done]. by destruct Hr as (_ & _ & _ & ?).
Qed.

(** X15.  [subscribe], whether it returns or throws, deletes nothing and
    overwrites nothing: every directory and every file that was there is
    still there, each file with the contents it had, the file of the event
    included, and no file but the file of the event is created.  When it
    returns, the file of the event exists. *)
Theorem subscribe_keeps_the_files (eventType : string) (cb : Callback) (w w' : World)
    (r : Result IImperativeRegisteredAction) :
  subscribe eventType cb w = (w', r) ->
  dirs (fs w) ⊆ dirs (fs w') /\
  (forall (p : string) (c : FileContents),
     files (fs w) !! p = Some c -> files (fs w') !! p = Some c) /\
  (forall p, p <> eventFile eventType -> files (fs w') !! p = files (fs w) !! p) /\
  (forall action, r = Returned action -> existsSync (fs w') (eventFile eventType) = true).
Proof.
  intros H. destruct (subscribe_frame _ _ _ _ _ H) as ([Hd Hk] & Hf & _ & Hx).
  by split_and!.
Qed.

(** X16.  What the watcher of a new subscription compares with.  The last
    time delivered is kept per event, not per callback: when the file of
    the event holds the time [t], the first notification after a
    [subscribe] calls nobody if [t] has been delivered for the event
    before this [subscribe], and calls every callback of the event, the
    new one last, otherwise. *)
Theorem new_subscription_compares_with_last_delivery (eventType : string) (cb : Callback)
    (w w' : World) (action : IImperativeRegisteredAction)
    (eventContents : FileContents) (t : string) :
  subscribe eventType cb w = (w', Returned action) ->
  files (fs w) !! eventFile eventType = Some eventContents ->
  contents_time eventContents = Some t ->
  fire (length (watchers w)) w' =
    if bool_decide (eventTimes w !! eventType = Some t) then (w', Returned [])
    else (set_eventTimes w' (<[eventType := t]> (eventTimes w')),
          Returned (match subscriptions w !! eventType with
                    | Some (_, cbs) => cbs
                    | None => []
                    end ++ [cb])).
Proof.
  intros H Hf Ht.
  pose proof (subscribe_initialized _ _ _ _ _ H) as Hi.
  destruct (subscribe_frame _ _ _ _ _ H) as ([_ Hk] & _ & Ht' & _).
  destruct (subscribe_result _ _ _ _ _ Hi H) as (cbs' & w0 & r0 & Hc & Hsetup & Hr).
  destruct r0 as [id|e]; [|done].
  assert (length (watchers w0) = length (watchers w) /\
          cbs' = match subscriptions w !! eventType with
                 | Some (_, cbs) => cbs
                 | None => []
                 end ++ [cb]) as [Hlen ->].
  { revert Hc. destruct (subscriptions w !! eventType) as [[old cbs]|]; intros [= -> ->];
      [|done]. unfold close_watcher. simpl. by rewrite length_alter. }
  apply setupWatcher_frame in Hsetup as (_ & _ & _ & _ & _ & _ & _ & Hws & _).
  unfold Emitter.fire, bind, get. rewrite Hws, <- Hlen.
  rewrite lookup_app_r, Nat.sub_diag by done. simpl.
  rewrite (EmitterSpec.listener_spec cliHome homedir ImperativeUserEvents
             ImperativeSharedEvents eventType _ w' eventContents t).
  - by rewrite Ht'.
  - unfold readFileSync. unfold Emitter.eventFile in Hf. by rewrite (Hk _ _ Hf).
  - done.
Qed.

(** ** Failures of the file system *)



(** X18.  The two emit methods exclude each other.  On an initialized
    emitter, [emitEvent] turns away an event that is neither a user nor a
    shared event, and [emitCustomEvent] turns away an event that is one of
    them, each with its own message and without touching anything; so no
    event can be emitted through both. *)
Theorem emit_methods_exclude_each_other (eventType now : string) (w : World) :
  initialized w = true ->
  (isCustomEvent eventType = true ->
   emitEvent eventType now w =
     (w, Thrown (ImperativeError
                   ("Unable to determine the type of event. Event: " ++ eventType) None))) /\
  (isCustomEvent eventType = false ->
   emitCustomEvent eventType now w =
     (w, Thrown (ImperativeError
                   ("Operation not allowed. Event is considered protected. Event: "
                    ++ eventType) None))) /\
  (forall (now' : string) (w1 w2 : World),
     emitEvent eventType now w = (w1, Returned tt) ->
     emitCustomEvent eventType now' w = (w2, Returned tt) -> False).
Proof.
  intros Hi. split_and!.
  - intros Hc. unfold Emitter.emitEvent, initEvent, bind at 1. unfold bind at 1.
    rewrite (EmitterSpec.ensureClassInitialized_true w Hi). unfold ret at 1.
    by rewrite Hc.
  - intros Hc. unfold Emitter.emitCustomEvent, initEvent, bind at 1. unfold bind at 1.
    rewrite (EmitterSpec.ensureClassInitialized_true w Hi). unfold ret at 1.
    by rewrite Hc.
  - intros now' w1 w2 H1 H2.
    apply EmitterSpec.emitEvent_writes in H1 as [H1 _].
    apply EmitterSpec.emitCustomEvent_writes in H2 as [H2 _]. congruence.
Qed.

End Emitter.

(** ** The properties at sample emitters *)

Import Samples Scenarios.
Local Open Scope string_scope.

Local Abbreviation eventFile := (Emitter.eventFile cliHome homedir userEvents sharedEvents).
Local Abbreviation new_watcher :=
  (Emitter.new_watcher cliHome homedir userEvents sharedEvents).

Lemma subscribe_again_restarts_the_watch_witness :
  subscriptions subscribed_emitter !! "onVaultChanged" = Some (0, [7]) /\
  0 < length (watchers subscribed_emitter) /\
  subscribe "onVaultChanged" 8 subscribed_emitter
    = (twice_subscribed, Returned {| close := FSWatcher_close |}) /\
  subscriptions twice_subscribed =
    <["onVaultChanged" := (length (watchers subscribed_emitter), [7; 8])]>
      (subscriptions subscribed_emitter) /\
  watchers twice_subscribed =
    (watchers (close_watcher 0 subscribed_emitter)
     ++ [new_watcher "onVaultChanged" [7; 8]])%list /\
  eventTimes twice_subscribed = eventTimes subscribed_emitter /\
  fire 0 twice_subscribed = (twice_subscribed, Returned []).
Proof.
  assert (subscriptions subscribed_emitter !! "onVaultChanged" = Some (0, [7])) as H1
    by (vm_compute; reflexivity).
  assert (0 < length (watchers subscribed_emitter)) as H2 by (vm_compute; lia).
  assert (subscribe "onVaultChanged" 8 subscribed_emitter
    = (twice_subscribed, Returned {| close := FSWatcher_close |})) as H3
    by (vm_compute; reflexivity).
  exact (conj H1 (conj H2 (conj H3
    (subscribe_again_restarts_the_watch cliHome homedir userEvents sharedEvents
       "onVaultChanged" 8 subscribed_emitter twice_subscribed
       {| close := FSWatcher_close |} 0 [7] H1 H2 H3)))).
Defined.

Lemma unsubscribe_forgets_the_event_witness :
  initialized subscribed_emitter = true /\
  exists w',
    unsubscribe "onVaultChanged" subscribed_emitter = (w', Returned tt) /\
    subscriptions w' = delete "onVaultChanged" (subscriptions subscribed_emitter) /\
    eventTimes w' = delete "onVaultChanged" (eventTimes subscribed_emitter) /\
    fs w' = fs subscribed_emitter /\
    (forall id cbs,
       subscriptions subscribed_emitter !! "onVaultChanged" = Some (id, cbs) ->
       fire id w' = (w', Returned [])) /\
    unsubscribe "onVaultChanged" w' = (w', Returned tt).
Proof.
  assert (initialized subscribed_emitter = true) as H1 by (vm_compute; reflexivity).
  exact (conj H1
    (unsubscribe_forgets_the_event cliHome homedir userEvents sharedEvents
       "onVaultChanged" subscribed_emitter H1)).
Defined.

Lemma emit_only_writes_the_event_file_witness :
  (emitEvent "onVaultChanged" "T1" subscribed_emitter = (emitted_emitter, Returned tt) \/
   emitCustomEvent "onVaultChanged" "T1" subscribed_emitter
     = (emitted_emitter, Returned tt)) /\
  same_emitter subscribed_emitter emitted_emitter /\
  dirs (fs subscribed_emitter) ⊆ dirs (fs emitted_emitter) /\
  (forall p, p <> eventFile "onVaultChanged" ->
     files (fs emitted_emitter) !! p = files (fs subscribed_emitter) !! p) /\
  (Returned tt = Returned tt ->
   exists j, files (fs emitted_emitter) !! eventFile "onVaultChanged" = Some (JsonText j) /\
             time j = "T1" /\ type j = "onVaultChanged").
Proof.
  assert (emitEvent "onVaultChanged" "T1" subscribed_emitter
            = (emitted_emitter, Returned tt)) as H1 by (vm_compute; reflexivity).
  exact (conj (or_introl H1)
    (emit_only_writes_the_event_file cliHome homedir userEvents sharedEvents
       "onVaultChanged" "T1" subscribed_emitter emitted_emitter (Returned tt)
       (or_introl H1))).
Defined.

Lemma emission_is_delivered_once_per_time_witness :
  (emitEvent "onVaultChanged" "T1" subscribed_emitter = (emitted_emitter, Returned tt) \/
   emitCustomEvent "onVaultChanged" "T1" subscribed_emitter
     = (emitted_emitter, Returned tt)) /\
  watchers subscribed_emitter !! 0 = Some (new_watcher "onVaultChanged" [7]) /\
  closed (new_watcher "onVaultChanged" [7]) = false /\
  Emitter.eventType (new_watcher "onVaultChanged" [7]) = "onVaultChanged" /\
  fire 0 emitted_emitter =
    if bool_decide (eventTimes subscribed_emitter !! "onVaultChanged" = Some "T1")
    then (emitted_emitter, Returned [])
    else (set_eventTimes emitted_emitter
            (<["onVaultChanged" := "T1"]> (eventTimes emitted_emitter)),
          Returned (callbacks (new_watcher "onVaultChanged" [7]))).
Proof.
  assert (emitEvent "onVaultChanged" "T1" subscribed_emitter
            = (emitted_emitter, Returned tt)) as H1 by (vm_compute; reflexivity).
  assert (watchers subscribed_emitter !! 0 = Some (new_watcher "onVaultChanged" [7])) as H2
    by (vm_compute; reflexivity).
  exact (conj (or_introl H1) (conj H2 (conj eq_refl (conj eq_refl
    (emission_is_delivered_once_per_time cliHome homedir userEvents sharedEvents
       "onVaultChanged" "T1" subscribed_emitter emitted_emitter 0
       (new_watcher "onVaultChanged" [7]) (or_introl H1) H2 eq_refl eq_refl))))).
Defined.

Lemma subscribe_keeps_the_files_witness :
  subscribe "onVaultChanged" 8 delivered_emitter
    = (fst (subscribe "onVaultChanged" 8 delivered_emitter),
       Returned {| close := FSWatcher_close |}) /\
  dirs (fs delivered_emitter) ⊆ dirs (fs (fst (subscribe "onVaultChanged" 8 delivered_emitter))) /\
  (forall (p : string) (c : FileContents),
     files (fs delivered_emitter) !! p = Some c ->
     files (fs (fst (subscribe "onVaultChanged" 8 delivered_emitter))) !! p = Some c) /\
  (forall p, p <> eventFile "onVaultChanged" ->
     files (fs (fst (subscribe "onVaultChanged" 8 delivered_emitter))) !! p
       = files (fs delivered_emitter) !! p) /\
  (forall action, Returned {| close := FSWatcher_close |} = Returned action ->
     existsSync (fs (fst (subscribe "onVaultChanged" 8 delivered_emitter)))
       (eventFile "onVaultChanged") = true).
Proof.
  assert (subscribe "onVaultChanged" 8 delivered_emitter
    = (fst (subscribe "onVaultChanged" 8 delivered_emitter),
       Returned {| close := FSWatcher_close |})) as H1 by (vm_compute; reflexivity).
  exact (conj H1
    (subscribe_keeps_the_files cliHome homedir userEvents sharedEvents
       "onVaultChanged" 8 delivered_emitter _ _ H1)).
Defined.

(** The callback 8 subscribes once the emission of T1 has been delivered to
    the callback 7: the notification that follows calls neither. *)
Lemma new_subscription_compares_with_last_delivery_witness :
  subscribe "onVaultChanged" 8 delivered_emitter
    = (fst (subscribe "onVaultChanged" 8 delivered_emitter),
       Returned {| close := FSWatcher_close |}) /\
  files (fs delivered_emitter) !! eventFile "onVaultChanged"
    = Some (JsonText {| time := "T1"; type := "onVaultChanged";
                        loc := "/home/u/.zowe/.events" |}) /\
  eventTimes delivered_emitter !! "onVaultChanged" = Some "T1" /\
  fire (length (watchers delivered_emitter))
       (fst (subscribe "onVaultChanged" 8 delivered_emitter)) =
    if bool_decide (eventTimes delivered_emitter !! "onVaultChanged" = Some "T1")
    then (fst (subscribe "onVaultChanged" 8 delivered_emitter), Returned [])
    else (set_eventTimes (fst (subscribe "onVaultChanged" 8 delivered_emitter))
            (<["onVaultChanged" := "T1"]>
               (eventTimes (fst (subscribe "onVaultChanged" 8 delivered_emitter)))),
          Returned [7; 8]).
Proof.
  assert (subscribe "onVaultChanged" 8 delivered_emitter
    = (fst (subscribe "onVaultChanged" 8 delivered_emitter),
       Returned {| close := FSWatcher_close |})) as H1 by (vm_compute; reflexivity).
  assert (files (fs delivered_emitter) !! eventFile "onVaultChanged"
    = Some (JsonText {| time := "T1"; type := "onVaultChanged";
                        loc := "/home/u/.zowe/.events" |})) as H2
    by (vm_compute; reflexivity).
  assert (eventTimes delivered_emitter !! "onVaultChanged" = Some "T1") as H3
    by (vm_compute; reflexivity).
  exact (conj H1 (conj H2 (conj H3
    (new_subscription_compares_with_last_delivery cliHome homedir userEvents sharedEvents
       "onVaultChanged" 8 delivered_emitter _ _ _ "T1" H1 H2 eq_refl)))).
Defined.


Lemma emit_methods_exclude_each_other_witness :
  initialized initialized_emitter = true /\
  emitEvent "myEvent" "T1" initialized_emitter =
    (initialized_emitter,
     Thrown (ImperativeError "Unable to determine the type of event. Event: myEvent" None)) /\
  emitCustomEvent "onVaultChanged" "T1" initialized_emitter =
    (initialized_emitter,
     Thrown (ImperativeError
               "Operation not allowed. Event is considered protected. Event: onVaultChanged"
               None)).
Proof.
  assert (initialized initialized_emitter = true) as H1 by (vm_compute; reflexivity).
  exact (conj H1 (conj
    (proj1 (emit_methods_exclude_each_other cliHome homedir userEvents sharedEvents
              "myEvent" "T1" initialized_emitter H1) eq_refl)
    (proj1 (proj2 (emit_methods_exclude_each_other cliHome homedir userEvents sharedEvents
                     "onVaultChanged" "T1" initialized_emitter H1)) eq_refl))).
Defined.

(** Another process leaves the file of [onVaultChanged] half written. *)
Lemma notification_throws_when_the_file_is_unreadable_witness :
  watchers (written_elsewhere (eventFile "onVaultChanged") OtherText subscribed_emitter) !! 0
    = Some (new_watcher "onVaultChanged" [7]) /\
  closed (new_watcher "onVaultChanged" [7]) = false /\
  files (fs (written_elsewhere (eventFile "onVaultChanged") OtherText subscribed_emitter))
    !! eventFile "onVaultChanged" = Some OtherText /\
  fire 0 (written_elsewhere (eventFile "onVaultChanged") OtherText subscribed_emitter) =
    (written_elsewhere (eventFile "onVaultChanged") OtherText subscribed_emitter,
     Thrown SyntaxError).
Proof.
  assert (watchers (written_elsewhere (eventFile "onVaultChanged") OtherText
                      subscribed_emitter) !! 0
          = Some (new_watcher "onVaultChanged" [7])) as H1 by (vm_compute; reflexivity).
  assert (files (fs (written_elsewhere (eventFile "onVaultChanged") OtherText
                       subscribed_emitter))
            !! eventFile "onVaultChanged" = Some OtherText) as H2
    by (vm_compute; reflexivity).
  split_and!; [exact H1 | reflexivity | exact H2 |].
  exact (notification_throws_when_the_file_is_unreadable cliHome homedir userEvents
           sharedEvents 0 (new_watcher "onVaultChanged" [7]) _ H1 eq_refl (or_intror H2)).
Defined.

Lemma ensure_helpers_create_at_most_once_witness :
  (ensureEventsDirExists "/home/u/.zowe/.events" initialized_emitter
     = (fst (ensureEventsDirExists "/home/u/.zowe/.events" initialized_emitter),
        Returned tt) \/
   ensureEventFileExists "/home/u/.zowe/.events" initialized_emitter
     = (fst (ensureEventsDirExists "/home/u/.zowe/.events" initialized_emitter),
        Returned tt)) /\
  existsSync (fs initialized_emitter) "/home/u/.zowe/.events" = false /\
  existsSync (fs (fst (ensureEventsDirExists "/home/u/.zowe/.events" initialized_emitter)))
    "/home/u/.zowe/.events" = true /\
  ensureEventFileExists "/home/u/.zowe/.events"
    (fst (ensureEventsDirExists "/home/u/.zowe/.events" initialized_emitter))
    = (fst (ensureEventsDirExists "/home/u/.zowe/.events" initialized_emitter), Returned tt).
Proof.
  assert (ensureEventsDirExists "/home/u/.zowe/.events" initialized_emitter
     = (fst (ensureEventsDirExists "/home/u/.zowe/.events" initialized_emitter),
        Returned tt)) as H1 by (vm_compute; reflexivity).
  destruct (ensure_helpers_create_at_most_once "/home/u/.zowe/.events" initialized_emitter
              _ (or_introl H1)) as (H2 & _ & _ & _ & _ & H3).
  split_and!; [exact (or_introl H1) | vm_compute; reflexivity | exact H2 | exact H3].
Defined.

(** A use of the emitter in which three callbacks subscribe to two events:
    the open watchers are the two that are recorded. *)
Example two_events_two_open_watchers :
  let w := Emitter.uses cliHome homedir userEvents sharedEvents (fresh home)
             [Initialize (Some "app"); Subscribe "onVaultChanged" 7;
              Subscribe "onCredentialManagerChanged" 8; Subscribe "onVaultChanged" 9;
              EmitEvent "onVaultChanged" "T1"; Notification 2] in
  closed <$> watchers w = [true; false; false] /\
  subscriptions w !! "onVaultChanged" = Some (2, [7; 9]) /\
  subscriptions w !! "onCredentialManagerChanged" = Some (1, [8]).
Proof. split_and!; vm_compute; reflexivity. Qed.

End EmitterMore.

(* ===================================================================== *)
(** * The event helpers: subscriptions and their watchers                 *)
(* ===================================================================== *)

Module UtilsMore.
Import Platform Utils.

Ltac run_method := UtilsSpec.run_method.

Lemma utils_set_eventTimes_same (w : World) : set_eventTimes w (eventTimes w) = w.
Proof. by destruct w. Qed.

(** ** What the helpers do to the emitter *)

Lemma utils_ensureEventsDirExists_frame (dir : string) (w w' : World) (r : Result unit) :
  ensureEventsDirExists dir w = (w', r) ->
  eeInst_appName w' = eeInst_appName w /\ subscribedEvents w' = subscribedEvents w /\
  eventTimes w' = eventTimes w /\ events w' = events w /\ watchers w' = watchers w /\
  dirs (fs w) ⊆ dirs (fs w') /\ files (fs w') = files (fs w) /\
  match r with
  | Returned _ => True
  | Thrown e => w' = w /\ exists msg cause, e = ImperativeError msg (Some cause)
  end.
Proof.
  unfold ensureEventsDirExists. run_method.
  destruct (existsSync (fs w) dir); simpl; [by intros [= <- <-]|].
  unfold mkdirSync.
  repeat (case_match; simplify_eq; simpl); intros [= <- <-]; simpl;
    split_and!; eauto; set_solver.
Qed.

Lemma utils_ensureFileExists_frame (path : string) (w w' : World) (r : Result unit) :
  ensureFileExists path w = (w', r) ->
  eeInst_appName w' = eeInst_appName w /\ subscribedEvents w' = subscribedEvents w /\
  eventTimes w' = eventTimes w /\ events w' = events w /\ watchers w' = watchers w /\
  dirs (fs w') = dirs (fs w) /\
  (forall p c, files (fs w) !! p = Some c -> files (fs w') !! p = Some c) /\
  match r with
  | Returned _ => existsSync (fs w') path = true
  | Thrown e => w' = w /\ exists msg cause, e = ImperativeError msg (Some cause)
  end.
Proof.
  unfold ensureFileExists. run_method.
  destruct (existsSync (fs w) path) eqn:Ex; simpl; [by intros [= <- <-]|].
  unfold writeFileSync.
  case_bool_decide as Hd; simpl; [intros [= <- <-]; split_and!; eauto|].
  case_bool_decide as Hp; simpl; [|intros [= <- <-]; split_and!; eauto].
  intros [= <- <-]. simpl.
  apply orb_false_iff in Ex as [_ Hf]. apply bool_decide_eq_false in Hf.
  split_and!; try done.
  - intros p c Hc. destruct (decide (p = path)) as [->|Hne]; [|by rewrite lookup_insert_ne].
    destruct Hf. by rewrite Hc.
  - unfold existsSync. simpl. apply orb_true_iff. right.
    apply bool_decide_eq_true. by rewrite lookup_insert_eq.
Qed.

(** [createSubscription] is three calls of the helpers, in a row, and the
    making of the [Event]; a helper that throws ends it. *)
Lemma createSubscription_steps (zoweDir eventName : string)
    (eventType : EventTypes) (now : string) (w w' : World) (r : Result IRegisteredAction) :
  createSubscription zoweDir eventName eventType now w = (w', r) ->
  let dir := getEventDir eventType (eeInst_appName w) in
  exists (w1 w2 w3 : World) (r1 r2 r3 : Result unit),
    ensureEventsDirExists (Path.join [zoweDir; ".events"]) w = (w1, r1) /\
    (r1 = Returned tt -> ensureEventsDirExists (Path.join [zoweDir; dir]) w1 = (w2, r2)) /\
    (r1 = Returned tt -> r2 = Returned tt ->
     ensureFileExists (Path.join [zoweDir; dir; eventName]) w2 = (w3, r3)) /\
    (w', r) =
      match r1, r2, r3 with
      | Thrown e, _, _ => (w1, Thrown e)
      | _, Thrown e, _ => (w2, Thrown e)
      | _, _, Thrown e => (w3, Thrown e)
      | _, _, _ =>
        (set_subscribedEvents
           (set_events w3
              (events w3 ++
               [{| eventTime := now; eventName := eventName; eventType := eventType;
                   appName := eeInst_appName w;
                   filePath := Path.join [zoweDir; dir; eventName];
                   subscriptions := [] |}]))
           (<[eventName := length (events w3)]> (subscribedEvents w3)),
         Returned (close_unsubscribes eventName))
      end.
Proof.
  unfold createSubscription, get, bind at 1. unfold bind at 1.
  destruct (ensureEventsDirExists _ w) as [w1 [[]|e1]] eqn:E1.
  2: { intros [= <- <-]. by exists w1, w1, w1, (Thrown e1), (Thrown e1), (Thrown e1). }
  unfold bind at 1.
  destruct (ensureEventsDirExists _ w1) as [w2 [[]|e2]] eqn:E2.
  2: { intros [= <- <-]. by exists w1, w2, w2, (Returned tt), (Thrown e2), (Thrown e2). }
  unfold bind at 1.
  destruct (ensureFileExists _ w2) as [w3 [[]|e3]] eqn:E3.
  2: { intros [= <- <-]. by exists w1, w2, w3, (Returned tt), (Returned tt), (Thrown e3). }
  UtilsSpec.run_method. intros [= <- <-].
  by exists w1, w2, w3, (Returned tt), (Returned tt), (Returned tt).
Qed.

(** X19.  [createSubscription], when it returns, has made a new [Event]
    object with the clock reading as its time and no watcher, and has put
    it under the event name, in place of the one that may have been
    there.  It closes no watcher and keeps the last times delivered, and
    every file that was there keeps its contents.  When it throws, it
    throws an [ImperativeError] that carries its cause, and no event has
    been recorded. *)
Theorem createSubscription_makes_a_new_event (zoweDir eventName : string)
    (eventType : EventTypes) (now : string) (w w' : World) (r : Result IRegisteredAction) :
  createSubscription zoweDir eventName eventType now w = (w', r) ->
  watchers w' = watchers w /\ eventTimes w' = eventTimes w /\
  (forall p c, files (fs w) !! p = Some c -> files (fs w') !! p = Some c) /\
  match r with
  | Returned action =>
    action = close_unsubscribes eventName /\
    subscribedEvents w' = <[eventName := length (events w)]> (subscribedEvents w) /\
    events w' = events w ++
      [{| eventTime := now; eventName := eventName; eventType := eventType;
          appName := eeInst_appName w;
          filePath :=
            Path.join [zoweDir; getEventDir eventType (eeInst_appName w); eventName];
          subscriptions := [] |}]
  | Thrown e =>
    subscribedEvents w' = subscribedEvents w /\ events w' = events w /\
    exists msg cause, e = ImperativeError msg (Some cause)
  end.
Proof.
  intros H.
  destruct (createSubscription_steps _ _ _ _ _ _ _ H)
    as (w1 & w2 & w3 & r1 & r2 & r3 & E1 & E2 & E3 & Hr).
  apply utils_ensureEventsDirExists_frame in E1
    as (_ & Hs1 & Ht1 & He1 & Hw1 & _ & Hf1 & H1).
  destruct r1 as [[]|e1].
  2: { injection Hr as -> ->. destruct H1 as [-> H1]. by split_and!. }
  specialize (E2 eq_refl).
  apply utils_ensureEventsDirExists_frame in E2
    as (_ & Hs2 & Ht2 & He2 & Hw2 & _ & Hf2 & H2).
  destruct r2 as [[]|e2].
  2: { injection Hr as -> ->. destruct H2 as [-> H2].
       split_and!; try congruence; try (intros p c; by rewrite Hf1). }
  specialize (E3 eq_refl eq_refl).
  apply utils_ensureFileExists_frame in E3
    as (_ & Hs3 & Ht3 & He3 & Hw3 & _ & Hf3 & H3).
  destruct r3 as [[]|e3].
  2: { injection Hr as -> ->. destruct H3 as [-> H3].
       split_and!; try congruence; try (intros p c; by rewrite Hf2, Hf1). }
  injection Hr as -> ->. simpl. split_and!; try congruence.
  intros p c Hc. apply Hf3. by rewrite Hf2, Hf1.
Qed.

(** ** Watchers *)

(** [setupWatcher] for a name that has no subscription throws a
    [TypeError]: the event looked up is [undefined]. *)
Lemma setupWatcher_needs_a_subscription (eventName : string) (callbacks : Callbacks)
    (w : World) :
  subscribedEvents w !! eventName = None ->
  setupWatcher eventName callbacks w = (w, Thrown TypeError).
Proof. intros H. unfold setupWatcher. run_method. by rewrite H. Qed.

(** X20.  After a [createSubscription] that has returned, [setupWatcher]
    for the same name returns: the file of the event is there to be
    watched.  The watcher it returns is new and open, watches that file
    with the callbacks given, and is the only one listed in the
    subscriptions of the event. *)
Theorem setupWatcher_after_createSubscription (zoweDir eventName : string)
    (eventType : EventTypes) (now : string) (callbacks : Callbacks) (w w1 : World)
    (action : IRegisteredAction) :
  createSubscription zoweDir eventName eventType now w = (w1, Returned action) ->
  exists (w2 : World) (ev : Event),
    setupWatcher eventName callbacks w1 = (w2, Returned (length (watchers w))) /\
    watchers w2 = watchers w ++
      [{| filename :=
            Path.join [zoweDir; getEventDir eventType (eeInst_appName w); eventName];
          event := length (events w); name := eventName; callbacks := callbacks;
          closed := false |}] /\
    subscribedEvents w2 !! eventName = Some (length (events w)) /\
    events w2 !! length (events w) = Some ev /\
    subscriptions ev = [length (watchers w)] /\ eventTime ev = now.
Proof.
  intros H.
  destruct (UtilsSpec.createSubscription_spec _ _ _ _ _ _ _ H) as (e & ev & Hs & He & Hp & Hx).
  destruct (createSubscription_steps _ _ _ _ _ _ _ H)
    as (w1' & w2' & w3 & r1 & r2 & r3 & E1 & E2 & E3 & Hr).
  apply utils_ensureEventsDirExists_frame in E1 as (_ & _ & _ & He1 & Hw1 & _).
  destruct r1 as [[]|e1]; [|done]. specialize (E2 eq_refl).
  apply utils_ensureEventsDirExists_frame in E2 as (_ & _ & _ & He2 & Hw2 & _).
  destruct r2 as [[]|e2]; [|done]. specialize (E3 eq_refl eq_refl).
  apply utils_ensureFileExists_frame in E3 as (_ & _ & _ & He3 & Hw3 & _).
  destruct r3 as [[]|e3]; [|done]. injection Hr as ->.
  assert (length (events w3) = length (events w)) as Hlen by congruence.
  assert (watchers w3 = watchers w) as Hw by congruence.
  assert (events w3 = events w) as Hev by congruence.
  simpl in Hs, He, Hx. rewrite lookup_insert_eq in Hs. injection Hs as <-.
  rewrite lookup_app_r, Nat.sub_diag in He by done. injection He as <-.
  simpl in Hx.
  unfold setupWatcher. run_method. rewrite lookup_insert_eq. simpl.
  rewrite lookup_app_r, Nat.sub_diag by done. simpl.
  unfold fs_watch. simpl. rewrite Hx. simpl. rewrite Hw, Hlen, Hev.
  eexists _, _. split_and!; try done.
  - simpl. by rewrite lookup_insert_eq.
  - simpl. rewrite list_lookup_alter_eq, lookup_app_r, Nat.sub_diag by done. done.
  - done.
  - done.
Qed.

(** X21.  The last time delivered is kept per event name, for all the
    watchers of the name together.  When two watchers have been set up
    for the same event, the notification of the one calls its callbacks
    (or nobody) and the notification of the other, which follows, calls
    nobody: of the two sets of callbacks, only the one whose watcher is
    notified first is ever called. *)
Theorem second_watcher_of_an_event_is_never_called (id1 id2 : nat) (x1 x2 : FSWatcher)
    (w w' : World) (called : list EventCallback) :
  watchers w !! id1 = Some x1 ->
  watchers w !! id2 = Some x2 ->
  closed x1 = false ->
  name x2 = name x1 ->
  event x2 = event x1 ->
  fire id1 w = (w', Returned called) ->
  (called = [] \/ called = calls (callbacks x1)) /\
  fire id2 w' = (w', Returned []).
Proof.
  intros H1 H2 Hc Hn He. unfold fire, listener. run_method.
  rewrite H1. simpl. rewrite Hc.
  destruct (events w !! event x1) as [ev|] eqn:Eev; simpl; [|done].
  case_bool_decide as Ht; simpl; intros [= <- <-]; simpl; rewrite H2; simpl;
    (split; [auto|]); destruct (closed x2); simpl; try done;
    rewrite He, Hn; cbn [events set_eventTimes eventTimes].
  - by rewrite Eev, bool_decide_eq_true_2.
  - by rewrite Eev, lookup_insert_eq, bool_decide_eq_true_2.
Qed.

(** X22.  When the watchers of one name compare with [Event] objects of
    different times (the name has been subscribed twice, and watched after
    each), the suppression of repeated notifications does not work: each
    notification of the one watcher undoes what the other has recorded,
    so that notifications that alternate between the two call the
    callbacks every time. *)
Theorem two_events_of_one_name_are_delivered_every_time (id1 id2 : nat)
    (x1 x2 : FSWatcher) (ev1 ev2 : Event) (w : World) :
  watchers w !! id1 = Some x1 ->
  watchers w !! id2 = Some x2 ->
  closed x1 = false -> closed x2 = false ->
  name x2 = name x1 ->
  events w !! event x1 = Some ev1 ->
  events w !! event x2 = Some ev2 ->
  eventTime ev1 <> eventTime ev2 ->
  exists (w1 w2 w3 : World) (first : list EventCallback),
    fire id1 w = (w1, Returned first) /\
    fire id2 w1 = (w2, Returned (calls (callbacks x2))) /\
    fire id1 w2 = (w3, Returned (calls (callbacks x1))) /\
    fire id2 w3 = (w2, Returned (calls (callbacks x2))).
Proof.
  intros H1 H2 Hc1 Hc2 Hn He1 He2 Hne.
  assert (forall t, fire id1 (set_eventTimes w t) =
    if bool_decide (t !! name x1 = Some (eventTime ev1))
    then (set_eventTimes w t, Returned [])
    else (set_eventTimes w (<[name x1 := eventTime ev1]> t), Returned (calls (callbacks x1))))
    as Hf1.
  { intros t. unfold fire, listener. run_method. rewrite H1. simpl. rewrite Hc1.
    cbn [events set_eventTimes eventTimes]. rewrite He1. simpl. by case_bool_decide. }
  assert (forall t, fire id2 (set_eventTimes w t) =
    if bool_decide (t !! name x1 = Some (eventTime ev2))
    then (set_eventTimes w t, Returned [])
    else (set_eventTimes w (<[name x1 := eventTime ev2]> t), Returned (calls (callbacks x2))))
    as Hf2.
  { intros t. unfold fire, listener. run_method. rewrite H2. simpl. rewrite Hc2.
    cbn [events set_eventTimes eventTimes]. rewrite He2, Hn. simpl. by case_bool_decide. }
  assert (forall t, <[name x1 := eventTime ev2]> (<[name x1 := eventTime ev1]> t)
                    = <[name x1 := eventTime ev2]> t) as Hi21
    by (intros t; apply insert_insert_eq).
  assert (forall t, <[name x1 := eventTime ev1]> (<[name x1 := eventTime ev2]> t)
                    = <[name x1 := eventTime ev1]> t) as Hi12
    by (intros t; apply insert_insert_eq).
  assert (exists t1 first, fire id1 w = (set_eventTimes w t1, Returned first) /\
            t1 !! name x1 = Some (eventTime ev1)) as (t1 & first & Hfirst & Ht1).
  { pose proof (Hf1 (eventTimes w)) as Hf. rewrite utils_set_eventTimes_same in Hf.
    rewrite Hf. case_bool_decide as Ht.
    - exists (eventTimes w), []. by rewrite utils_set_eventTimes_same.
    - eexists _, _. split; [done|]. by rewrite lookup_insert_eq. }
  exists (set_eventTimes w t1), (set_eventTimes w (<[name x1 := eventTime ev2]> t1)),
    (set_eventTimes w (<[name x1 := eventTime ev1]> t1)), first.
  split_and!.
  - done.
  - rewrite Hf2, bool_decide_eq_false_2; [done|]. rewrite Ht1. congruence.
  - rewrite Hf1, bool_decide_eq_false_2; [by rewrite Hi12|].
    rewrite lookup_insert_eq. congruence.
  - rewrite Hf2, bool_decide_eq_false_2; [by rewrite Hi21|].
    rewrite lookup_insert_eq. congruence.
Qed.

(** ** The properties at sample subscriptions *)

Import Samples Scenarios.
Local Open Scope string_scope.

(** The watcher of the callback [cb] on the file of [myEvent], comparing
    with the [Event] object [e]. *)
Local Abbreviation watcher_of e cb :=
  {| filename := "/home/u/.zowe/.events/app/myEvent"; event := e; name := "myEvent";
     callbacks := One cb; closed := false |}.

(** The [Event] object made at the time [t], with the watcher [id]. *)
Local Abbreviation event_of t id :=
  {| eventTime := t; eventName := "myEvent"; eventType := CustomSharedEvents;
     appName := "app"; filePath := "/home/u/.zowe/.events/app/myEvent";
     subscriptions := [id] |}.

Local Abbreviation subscribed_utils :=
  (fst (createSubscription cliHome "myEvent" CustomSharedEvents "T0" (fresh "app" home))).

Lemma createSubscription_makes_a_new_event_witness :
  createSubscription cliHome "myEvent" CustomSharedEvents "T0" (fresh "app" home)
    = (subscribed_utils, Returned (close_unsubscribes "myEvent")) /\
  watchers subscribed_utils = watchers (fresh "app" home) /\
  eventTimes subscribed_utils = eventTimes (fresh "app" home) /\
  subscribedEvents subscribed_utils
    = <["myEvent" := length (events (fresh "app" home))]>
        (subscribedEvents (fresh "app" home)).
Proof.
  assert (createSubscription cliHome "myEvent" CustomSharedEvents "T0" (fresh "app" home)
    = (subscribed_utils, Returned (close_unsubscribes "myEvent"))) as H1
    by (vm_compute; reflexivity).
  destruct (createSubscription_makes_a_new_event cliHome "myEvent" CustomSharedEvents "T0"
              (fresh "app" home) subscribed_utils _ H1) as (H2 & H3 & _ & _ & H4 & _).
  exact (conj H1 (conj H2 (conj H3 H4))).
Defined.

Lemma setupWatcher_after_createSubscription_witness :
  createSubscription cliHome "myEvent" CustomSharedEvents "T0" (fresh "app" home)
    = (subscribed_utils, Returned (close_unsubscribes "myEvent")) /\
  exists (w2 : World) (ev : Event),
    setupWatcher "myEvent" (One 1) subscribed_utils
      = (w2, Returned (length (watchers (fresh "app" home)))) /\
    watchers w2 = (watchers (fresh "app" home) ++
      [{| filename :=
            Path.join [cliHome; getEventDir CustomSharedEvents
                                  (eeInst_appName (fresh "app" home)); "myEvent"];
          event := length (events (fresh "app" home)); name := "myEvent";
          callbacks := One 1; closed := false |}])%list /\
    subscribedEvents w2 !! "myEvent" = Some (length (events (fresh "app" home))) /\
    events w2 !! length (events (fresh "app" home)) = Some ev /\
    subscriptions ev = [length (watchers (fresh "app" home))] /\ eventTime ev = "T0".
Proof.
  assert (createSubscription cliHome "myEvent" CustomSharedEvents "T0" (fresh "app" home)
    = (subscribed_utils, Returned (close_unsubscribes "myEvent"))) as H1
    by (vm_compute; reflexivity).
  exact (conj H1
    (setupWatcher_after_createSubscription cliHome "myEvent" CustomSharedEvents "T0"
       (One 1) (fresh "app" home) subscribed_utils _ H1)).
Defined.

(** Two watchers on one subscription: the callback 2 is not called. *)
Lemma second_watcher_of_an_event_is_never_called_witness :
  watchers watched_twice !! 0 = Some (watcher_of 0 1) /\
  watchers watched_twice !! 1 = Some (watcher_of 0 2) /\
  Utils.fire 0 watched_twice = (fst (Utils.fire 0 watched_twice), Returned [1]) /\
  ([1] = [] \/ [1] = calls (callbacks (watcher_of 0 1))) /\
  Utils.fire 1 (fst (Utils.fire 0 watched_twice)) = (fst (Utils.fire 0 watched_twice), Returned []).
Proof.
  assert (watchers watched_twice !! 0 = Some (watcher_of 0 1)) as H1
    by (vm_compute; reflexivity).
  assert (watchers watched_twice !! 1 = Some (watcher_of 0 2)) as H2
    by (vm_compute; reflexivity).
  assert (Utils.fire 0 watched_twice = (fst (Utils.fire 0 watched_twice), Returned [1])) as H3
    by (vm_compute; reflexivity).
  exact (conj H1 (conj H2 (conj H3
    (second_watcher_of_an_event_is_never_called 0 1 (watcher_of 0 1) (watcher_of 0 2)
       watched_twice _ [1] H1 H2 eq_refl eq_refl eq_refl H3)))).
Defined.

(** Two subscriptions of one name, each with its watcher: every
    notification calls a callback. *)
Lemma two_events_of_one_name_are_delivered_every_time_witness :
  watchers subscribed_twice !! 0 = Some (watcher_of 0 1) /\
  watchers subscribed_twice !! 1 = Some (watcher_of 1 2) /\
  events subscribed_twice !! 0 = Some (event_of "T0" 0) /\
  events subscribed_twice !! 1 = Some (event_of "T1" 1) /\
  "T0" <> "T1" /\
  exists (w1 w2 w3 : World) (first : list EventCallback),
    Utils.fire 0 subscribed_twice = (w1, Returned first) /\
    Utils.fire 1 w1 = (w2, Returned (calls (callbacks (watcher_of 1 2)))) /\
    Utils.fire 0 w2 = (w3, Returned (calls (callbacks (watcher_of 0 1)))) /\
    Utils.fire 1 w3 = (w2, Returned (calls (callbacks (watcher_of 1 2)))).
Proof.
  assert (watchers subscribed_twice !! 0 = Some (watcher_of 0 1)) as H1
    by (vm_compute; reflexivity).
  assert (watchers subscribed_twice !! 1 = Some (watcher_of 1 2)) as H2
    by (vm_compute; reflexivity).
  assert (events subscribed_twice !! 0 = Some (event_of "T0" 0)) as H3
    by (vm_compute; reflexivity).
  assert (events subscribed_twice !! 1 = Some (event_of "T1" 1)) as H4
    by (vm_compute; reflexivity).
  assert ("T0" <> "T1") as H5 by discriminate.
  exact (conj H1 (conj H2 (conj H3 (conj H4 (conj H5
    (two_events_of_one_name_are_delivered_every_time 0 1 (watcher_of 0 1)
       (watcher_of 1 2) (event_of "T0" 0) (event_of "T1" 1) subscribed_twice
       H1 H2 eq_refl eq_refl eq_refl H3 H4 H5)))))).
Defined.

End UtilsMore.
